(** * Titanium Code Processor: the abstract value layer (lib/Base.js)

    A shallow embedding of the ECMAScript value model, the execution-context
    machinery and the property operations of the code processor, together
    with the properties stated for them.

    Every engine value ([BaseType] instance), execution context and
    environment record is a JavaScript object with identity and mutable
    fields, so each kind lives in a store and is named by its index.
    Engine functions are state transformers that either return normally or
    raise a host-language exception. *)

From Stdlib Require Import ZArith NArith Lia Bool Decimal DecimalPos DecimalN DecimalString.
From stdpp Require Import gmap strings list.

Open Scope Z_scope.

(** ** Host numbers

    A JavaScript number is an IEEE 754 double.  The finite ones are the
    dyadic rationals [(-1)^neg * m * 2^e]; [m = 0] is a signed zero.
    [Math.abs], [Math.floor], a product with [1] or [-1] and a remainder by
    a power of two, the operations the modelled code performs besides
    addition, are exact on doubles; a sum, and the integer that [parseInt]
    reads, are rounded to the nearest double ([round]).  A value may have
    several representations; comparison is by value. *)
Module Number.

Inductive number :=
| NaN
| Infinity (neg : bool)
| Finite (neg : bool) (m : N) (e : Z).

Definition zero : number := Finite false 0 0.
Definition neg_zero : number := Finite true 0 0.
Definition one : number := Finite false 1 0.
Definition neg_one : number := Finite true 1 0.
Definition of_N (n : N) : number := Finite false n 0.

(** [Math.pow(2, k)] for a non-negative integer [k]. *)
Definition pow2 (k : Z) : number := Finite false 1 k.

Definition isNaN (x : number) : bool :=
  match x with NaN => true | _ => false end.

Definition isFinite (x : number) : bool :=
  match x with Finite _ _ _ => true | _ => false end.

(** The signed integer [z] with [x = z * 2^e0], for [e0 <= e]. *)
Definition scaled (e0 : Z) (neg : bool) (m : N) (e : Z) : Z :=
  (if neg then -1 else 1) * (Z.of_N m * 2 ^ (e - e0)).

(** IEEE comparison; [None] is "unordered" (a NaN operand). *)
Definition compare (x y : number) : option comparison :=
  match x, y with
  | NaN, _ | _, NaN => None
  | Infinity s1, Infinity s2 =>
      Some (match s1, s2 with
            | true, false => Lt
            | false, true => Gt
            | _, _ => Eq
            end)
  | Infinity s, Finite _ _ _ => Some (if s then Lt else Gt)
  | Finite _ _ _, Infinity s => Some (if s then Gt else Lt)
  | Finite s1 m1 e1, Finite s2 m2 e2 =>
      let e0 := Z.min e1 e2 in
      Some (scaled e0 s1 m1 e1 ?= scaled e0 s2 m2 e2)
  end.

(** [x === y] on numbers. *)
Definition strict_eq (x y : number) : bool :=
  match compare x y with Some Eq => true | _ => false end.

(** [x < y]. *)
Definition lt (x y : number) : bool :=
  match compare x y with Some Lt => true | _ => false end.

(** [x >= y]. *)
Definition ge (x y : number) : bool :=
  match compare x y with Some Gt | Some Eq => true | _ => false end.

(** [x > y]. *)
Definition gt (x y : number) : bool :=
  match compare x y with Some Gt => true | _ => false end.

Definition opp (x : number) : number :=
  match x with
  | NaN => NaN
  | Infinity s => Infinity (negb s)
  | Finite s m e => Finite (negb s) m e
  end.

(** [Math.abs]. *)
Definition abs (x : number) : number :=
  match x with
  | NaN => NaN
  | Infinity _ => Infinity false
  | Finite _ m e => Finite false m e
  end.

(** [Math.floor]. *)
Definition floor (x : number) : number :=
  match x with
  | Finite s m e =>
      if 0 <=? e then x
      else
        let d := (2 ^ Z.to_N (- e))%N in
        let q := (m / d)%N in
        if s then
          if (m mod d =? 0)%N then Finite true q 0 else Finite true (q + 1) 0
        else Finite false q 0
  | _ => x
  end.

(** [x * y]. *)
Definition mul (x y : number) : number :=
  match x, y with
  | NaN, _ | _, NaN => NaN
  | Infinity s1, Infinity s2 => Infinity (xorb s1 s2)
  | Infinity s1, Finite s2 m _ | Finite s2 m _, Infinity s1 =>
      if (m =? 0)%N then NaN else Infinity (xorb s1 s2)
  | Finite s1 m1 e1, Finite s2 m2 e2 => Finite (xorb s1 s2) (m1 * m2) (e1 + e2)
  end.

(** The double nearest to a dyadic rational, ties going to the even
    significand: what does not fit in 53 bits is cut off and rounded, and
    what reaches [2^1024] becomes an infinity.  A number that fits is
    returned as it is.  (Below the normal range nothing is rounded: a sum of
    doubles and an integer are multiples of the smallest double.) *)
Definition round (x : number) : number :=
  match x with
  | Finite s m e =>
      let shift := Z.to_N (Z.of_N (N.size m) - 53) in
      let q := (m / 2 ^ shift)%N in
      let r := (m mod 2 ^ shift)%N in
      let m' := if (2 * r <? 2 ^ shift)%N then q
                else if (2 * r =? 2 ^ shift)%N then (if N.even q then q else q + 1)%N
                else (q + 1)%N in
      if Z.of_N (N.size m') + e + Z.of_N shift >? 1024 then Infinity s
      else if (r =? 0)%N then x
      else Finite s m' (e + Z.of_N shift)
  | _ => x
  end.

(** [x + y]; a zero sum is [-0] only when both operands are negative. *)
Definition add (x y : number) : number :=
  match x, y with
  | NaN, _ | _, NaN => NaN
  | Infinity s1, Infinity s2 => if Bool.eqb s1 s2 then Infinity s1 else NaN
  | Infinity s, Finite _ _ _ | Finite _ _ _, Infinity s => Infinity s
  | Finite s1 m1 e1, Finite s2 m2 e2 =>
      let e0 := Z.min e1 e2 in
      let z := scaled e0 s1 m1 e1 + scaled e0 s2 m2 e2 in
      if z =? 0 then Finite (s1 && s2) 0 e0
      else round (Finite (z <? 0) (Z.to_N (Z.abs z)) e0)
  end.

(** [x - y]. *)
Definition sub (x y : number) : number := add x (opp y).

(** [x % Math.pow(2, k)]: the remainder has the sign of the dividend. *)
Definition rem_pow2 (x : number) (k : Z) : number :=
  match x with
  | Finite s m e =>
      if k - e <=? 0 then Finite s 0 0
      else Finite s (m mod 2 ^ Z.to_N (k - e)) e
  | _ => NaN
  end.

End Number.

Import Number.

(** ** The data model *)

(** Indices into the three stores. *)
Abbreviation Ref := nat.      (* a [BaseType] instance *)
Abbreviation CtxRef := nat.   (* an [ExecutionContext] *)
Abbreviation EnvRef := nat.   (* an environment record *)

(** The [type] tag of a value, see [type_name] for the source strings. *)
Inductive TypeName :=
| TUndefined | TNull | TBoolean | TNumber | TString | TObject | TReference | TUnknown.

Definition type_name (t : TypeName) : string :=
  match t with
  | TUndefined => "Undefined" | TNull => "Null" | TBoolean => "Boolean"
  | TNumber => "Number" | TString => "String" | TObject => "Object"
  | TReference => "Reference" | TUnknown => "Unknown"
  end.

(** [a === b] on type tags. *)
Definition type_eqb (a b : TypeName) : bool :=
  match a, b with
  | TUndefined, TUndefined | TNull, TNull | TBoolean, TBoolean | TNumber, TNumber
  | TString, TString | TObject, TObject | TReference, TReference | TUnknown, TUnknown => true
  | _, _ => false
  end.

(** The host value stored in the [value] field of an instance. *)
Inductive Raw :=
| RUndefined
| RNull
| RBool (b : bool)
| RNum (n : number)
| RStr (s : string).

(** [_closure]: the execution context current at creation
    ([getCurrentContext()], undefined on an empty context stack); the global
    object is its own closure ([createGlobalContext]). *)
Inductive Closure :=
| NoClosure
| ContextClosure (c : CtxRef)
| ObjectClosure (o : Ref).

(** A property descriptor object.  A field is [None] when reading it gives
    [undefined]; the keys of [Object.keys(desc)] are the fields that are
    [Some] (descriptor objects that bind a key to [undefined] explicitly are
    not represented). *)
Record Descriptor := mkDescriptor {
  d_value : option Ref;
  d_writable : option bool;
  d_get : option Ref;
  d_set : option Ref;
  d_enumerable : option bool;
  d_configurable : option bool
}.

Definition emptyDescriptor : Descriptor := mkDescriptor None None None None None None.

(** [{ value: v, writable: w, enumerable: e, configurable: c }] *)
Definition dataDescriptor (v : Ref) (w e c : bool) : Descriptor :=
  mkDescriptor (Some v) (Some w) None None (Some e) (Some c).

(** An entry of [_properties]: [{ name, value, alternateValues }].  The
    alternate values are keyed by the result of [getSkippedSection()], a
    section id or [undefined] ([None]). *)
Record Property := mkProperty {
  p_name : string;
  p_value : Descriptor;
  p_alternateValues : gmap (option nat) Descriptor
}.

(** The base of a Reference: a value or an environment record. *)
Inductive Base :=
| BaseValue (r : Ref)
| BaseEnvRec (e : EnvRef).

(** An instance of [BaseType] or of one of its subclasses.  [isArrayType]
    tells which [defineOwnProperty] the instance inherits and [callable]
    whether it has a [callFunction] method; the property operations below
    are those of [ObjectType] and [ArrayType] receivers.  [proto] is the
    variable behind the [objectPrototype] accessor, [protoName] the entry of
    the prototype table it falls back on. *)
Record BaseType := mkBaseType {
  isArrayType : bool;
  callable : bool;
  className : string;
  type : TypeName;
  _closure : Closure;
  value : Raw;
  _properties : option (list Property);
  extensible : bool;
  proto : option Ref;
  dontCreatePrototype : bool;
  protoName : option string;
  baseValue : option Base;
  referencedName : string;
  strictReference : bool
}.

(** A binding of a declarative environment record. *)
Record Binding := mkBinding {
  b_value : Ref;
  b_alternateValues : gmap (option nat) Ref;
  isDeletable : bool;
  isMutable : bool;
  isInitialized : option bool
}.

(** A declarative ([_bindingObject = None]) or object environment record. *)
Record EnvironmentRecord := mkEnvironmentRecord {
  _bindings : gmap string Binding;
  _bindingObject : option Ref;
  _ambiguousContext : bool;
  _skippedModeStack : list nat
}.

#[local] Set Warnings "-register-all".

(** [LexicalEnvironment(envRec, outer)]: both fields are set by the
    constructor and never reassigned, so the scope chain is a finite list of
    nodes; [lex_id] is the identity of the node. *)
Inductive LexicalEnvironment :=
| mkLexicalEnvironment (lex_id : nat) (envRec : EnvRef) (outer : option LexicalEnvironment).

Definition lex_id (l : LexicalEnvironment) : nat :=
  match l with mkLexicalEnvironment i _ _ => i end.
Definition envRec (l : LexicalEnvironment) : EnvRef :=
  match l with mkLexicalEnvironment _ e _ => e end.
Definition outer (l : LexicalEnvironment) : option LexicalEnvironment :=
  match l with mkLexicalEnvironment _ _ o => o end.

(** [a === b] on lexical environments, either of which may be undefined. *)
Definition same_lex (a b : option LexicalEnvironment) : bool :=
  match a, b with
  | Some x, Some y => Nat.eqb (lex_id x) (lex_id y)
  | None, None => true
  | _, _ => false
  end.

Record ExecutionContext := mkExecutionContext {
  lexicalEnvironment : LexicalEnvironment;
  variableEnvironment : LexicalEnvironment;
  thisBinding : option Ref;
  strict : bool;
  _ambiguousBlock : Z;
  isFunctionContext : bool
}.

(** [Runtime.options]. *)
Record Options := mkOptions {
  exactMode : bool;
  nativeExceptionRecovery : bool;
  invokeMethods : bool
}.

(** Events seen by plugins, in the order they are fired. *)
Inductive Event :=
| propertyReferenced (o : Ref) (name : string) (desc : option Descriptor)
| propertySet (o : Ref) (name : string) (v : Ref)
| propertyDefined (o : Ref) (name : string)
| propertyDeleted (o : Ref) (name : string)
| undeclaredGlobalVariableCreated (name : string)
| errorReported (kind : string) (message : string).

(** What a host-language [throw] carries. *)
Inductive HostError :=
| VMException                      (* Error with isCodeProcessorException = true *)
| InternalError (message : string) (* new Error(...) raised by the engine *)
| HostTypeError.                   (* property read on undefined, call of a non-function *)

Definition isCodeProcessorException (e : HostError) : bool :=
  match e with VMException => true | _ => false end.

(** What [Runtime.getCurrentLocation()] returns, a position in the analysed
    program. *)
Record Location := mkLocation {
  filename : string;
  line : N
}.

(** The module-level variables of Base.js and the parts of Runtime and
    RuleProcessor it reads. *)
Record State := mkState {
  heap : list BaseType;
  contexts : list ExecutionContext;
  envRecs : list EnvironmentRecord;
  contextStack : list CtxRef;            (* index 0 is the global context *)
  functionContextCount : Z;
  globalObject : option Ref;
  prototypes : gmap string Ref;
  tryCatch : Z;
  skippedModeCounter : nat;
  options : Options;
  events : list Event;
  _exception : option Ref;               (* Runtime._exception *)
  currentFileBlacklisted : bool;         (* Runtime.isCurrentFileBlacklisted() *)
  inRecursionUnroll : bool;              (* RuleProcessor.inRecursionUnroll() *)
  currentLocation : Location             (* Runtime.getCurrentLocation() *)
}.

Definition set_heap (h : list BaseType) (st : State) : State :=
  mkState h (contexts st) (envRecs st) (contextStack st) (functionContextCount st)
    (globalObject st) (prototypes st) (tryCatch st) (skippedModeCounter st) (options st)
    (events st) (_exception st) (currentFileBlacklisted st) (inRecursionUnroll st)
    (currentLocation st).

Definition set_contexts (c : list ExecutionContext) (st : State) : State :=
  mkState (heap st) c (envRecs st) (contextStack st) (functionContextCount st)
    (globalObject st) (prototypes st) (tryCatch st) (skippedModeCounter st) (options st)
    (events st) (_exception st) (currentFileBlacklisted st) (inRecursionUnroll st)
    (currentLocation st).

Definition set_envRecs (e : list EnvironmentRecord) (st : State) : State :=
  mkState (heap st) (contexts st) e (contextStack st) (functionContextCount st)
    (globalObject st) (prototypes st) (tryCatch st) (skippedModeCounter st) (options st)
    (events st) (_exception st) (currentFileBlacklisted st) (inRecursionUnroll st)
    (currentLocation st).

Definition set_contextStack (s : list CtxRef) (st : State) : State :=
  mkState (heap st) (contexts st) (envRecs st) s (functionContextCount st)
    (globalObject st) (prototypes st) (tryCatch st) (skippedModeCounter st) (options st)
    (events st) (_exception st) (currentFileBlacklisted st) (inRecursionUnroll st)
    (currentLocation st).

Definition set_functionContextCount (n : Z) (st : State) : State :=
  mkState (heap st) (contexts st) (envRecs st) (contextStack st) n (globalObject st)
    (prototypes st) (tryCatch st) (skippedModeCounter st) (options st) (events st)
    (_exception st) (currentFileBlacklisted st) (inRecursionUnroll st)
    (currentLocation st).

Definition set_tryCatch (n : Z) (st : State) : State :=
  mkState (heap st) (contexts st) (envRecs st) (contextStack st)
    (functionContextCount st) (globalObject st) (prototypes st) n
    (skippedModeCounter st) (options st) (events st) (_exception st)
    (currentFileBlacklisted st) (inRecursionUnroll st) (currentLocation st).

Definition set_skippedModeCounter (n : nat) (st : State) : State :=
  mkState (heap st) (contexts st) (envRecs st) (contextStack st)
    (functionContextCount st) (globalObject st) (prototypes st) (tryCatch st) n
    (options st) (events st) (_exception st) (currentFileBlacklisted st)
    (inRecursionUnroll st) (currentLocation st).

Definition set_events (ev : list Event) (st : State) : State :=
  mkState (heap st) (contexts st) (envRecs st) (contextStack st)
    (functionContextCount st) (globalObject st) (prototypes st) (tryCatch st)
    (skippedModeCounter st) (options st) ev (_exception st) (currentFileBlacklisted st)
    (inRecursionUnroll st) (currentLocation st).

Definition set_exception (x : option Ref) (st : State) : State :=
  mkState (heap st) (contexts st) (envRecs st) (contextStack st)
    (functionContextCount st) (globalObject st) (prototypes st) (tryCatch st)
    (skippedModeCounter st) (options st) (events st) x (currentFileBlacklisted st)
    (inRecursionUnroll st) (currentLocation st).

(** ** Completions

    An engine function either returns a value or throws; both leave a
    state behind.  [Unfinished] is a prototype chain that was not exhausted
    within the number of objects of the heap, that is a cyclic one, on which
    the source loops forever. *)
Inductive Completion (A : Type) :=
| Normal (a : A) (st : State)
| Abrupt (e : HostError) (st : State)
| Unfinished.
Arguments Normal {A} a st.
Arguments Abrupt {A} e st.
Arguments Unfinished {A}.

Definition M (A : Type) : Type := State -> Completion A.

Definition ret {A} (a : A) : M A := fun st => Normal a st.

Definition bind {A B} (c : M A) (k : A -> M B) : M B :=
  fun st =>
    match c st with
    | Normal a st' => k a st'
    | Abrupt e st' => Abrupt e st'
    | Unfinished => Unfinished
    end.

Definition throw {A} (e : HostError) : M A := fun st => Abrupt e st.

(** A read of the state that fails with a host TypeError when it touches a
    field of [undefined]. *)
Definition read {A} (f : State -> option A) : M A :=
  fun st => match f st with Some a => Normal a st | None => Abrupt HostTypeError st end.

Definition modify (f : State -> State) : M unit := fun st => Normal tt (f st).

Declare Scope engine_scope.
Delimit Scope engine_scope with engine.
Notation "x <- c ;; k" := (bind c (fun x => k))
  (at level 20, c at level 99, k at level 200, only parsing) : engine_scope.
Notation "c ;; k" := (bind c (fun _ => k))
  (at level 100, k at level 200, only parsing, right associativity) : engine_scope.
Open Scope engine_scope.

(** ** Execution contexts (base/context) *)

(** [getCurrentContext()]: [contextStack[contextStack.length - 1]]. *)
Definition getCurrentContext (st : State) : option CtxRef := last (contextStack st).

Definition getContextStack (st : State) : list CtxRef := contextStack st.

(** [getGlobalContext()]: [contextStack[0]]. *)
Definition getGlobalContext (st : State) : option CtxRef := head (contextStack st).

(** [getCurrentContext().f] and [contextStack[i].f]. *)
Definition currentContext (st : State) : option ExecutionContext :=
  c ← getCurrentContext st; contexts st !! c.

(** [contextStack[i].lexicalEnvironment.envRec._skippedModeStack], given the
    stores of contexts and of environment records. *)
Definition skippedModeStackOf (cs : list ExecutionContext) (ers : list EnvironmentRecord)
    (c : CtxRef) : option (list nat) :=
  ctx ← cs !! c;
  er ← ers !! envRec (lexicalEnvironment ctx);
  Some (_skippedModeStack er).

Definition isAmbiguousBlock (st : State) : option bool :=
  ctx ← currentContext st; Some (negb (_ambiguousBlock ctx =? 0)).

Definition setAmbiguousBlock (n : Z) (ctx : ExecutionContext) : ExecutionContext :=
  mkExecutionContext (lexicalEnvironment ctx) (variableEnvironment ctx) (thisBinding ctx)
    (strict ctx) n (isFunctionContext ctx).

Definition enterAmbiguousBlock : M unit :=
  c <- read getCurrentContext ;;
  ctx <- read (fun st => contexts st !! c) ;;
  modify (fun st => set_contexts (<[c := setAmbiguousBlock (_ambiguousBlock ctx + 1) ctx]> (contexts st)) st).

Definition exitAmbiguousBlock : M unit :=
  c <- read getCurrentContext ;;
  ctx <- read (fun st => contexts st !! c) ;;
  modify (fun st => set_contexts (<[c := setAmbiguousBlock (_ambiguousBlock ctx - 1) ctx]> (contexts st)) st).

(** The loop of [isSkippedMode], from index 0 upwards. *)
Fixpoint isSkippedMode_loop (cs : list ExecutionContext) (ers : list EnvironmentRecord)
    (stack : list CtxRef) : option bool :=
  match stack with
  | [] => Some false
  | c :: rest =>
      stk ← skippedModeStackOf cs ers c;
      if negb (Nat.eqb (length stk) 0) then Some true else isSkippedMode_loop cs ers rest
  end.

Definition isSkippedMode (st : State) : option bool :=
  isSkippedMode_loop (contexts st) (envRecs st) (getContextStack st).

Definition isLocalSkippedMode (st : State) : option bool :=
  c ← getCurrentContext st;
  stk ← skippedModeStackOf (contexts st) (envRecs st) c;
  Some (negb (Nat.eqb (length stk) 0)).

(** The loop of [getSkippedSection], from the top of the stack downwards;
    the inner [option] is the JavaScript result, [None] for [undefined]. *)
Fixpoint getSkippedSection_loop (cs : list ExecutionContext) (ers : list EnvironmentRecord)
    (stack : list CtxRef) : option (option nat) :=
  match stack with
  | [] => Some None
  | c :: rest =>
      stk ← skippedModeStackOf cs ers c;
      if negb (Nat.eqb (length stk) 0) then Some (last stk)
      else getSkippedSection_loop cs ers rest
  end.

Definition getSkippedSection (st : State) : option (option nat) :=
  getSkippedSection_loop (contexts st) (envRecs st) (rev (getContextStack st)).

Definition enterTryCatch : M unit := modify (fun st => set_tryCatch (tryCatch st + 1) st).
Definition exitTryCatch : M unit := modify (fun st => set_tryCatch (tryCatch st - 1) st).
Definition inTryCatch (st : State) : bool := negb (tryCatch st =? 0).

Definition getGlobalObject (st : State) : option Ref := globalObject st.

(** [enterContext(context)]; the trace that [Runtime.log] writes is not
    represented. *)
Definition enterContext (context : CtxRef) : M unit :=
  modify (fun st => set_contextStack (contextStack st ++ [context]) st) ;;
  ctx <- read (fun st => contexts st !! context) ;;
  if isFunctionContext ctx
  then modify (fun st => set_functionContextCount (functionContextCount st + 1) st)
  else ret tt.

(** [exitContext()] *)
Definition exitContext : M CtxRef :=
  context <- read (fun st => last (contextStack st)) ;;
  modify (fun st => set_contextStack (removelast (contextStack st)) st) ;;
  ctx <- read (fun st => contexts st !! context) ;;
  (if isFunctionContext ctx
   then modify (fun st => set_functionContextCount (functionContextCount st - 1) st)
   else ret tt) ;;
  ret context.

Definition inFunctionContext (st : State) : bool := negb (functionContextCount st =? 0).

(** ['"' + p + '"'] *)
Definition quoted (p : string) : string :=
  let q := String (Ascii.Ascii false true false false false true false false) EmptyString in
  q +:+ p +:+ q.

(** ** Events

    Modelled from the spec: [Runtime.Evented], [Runtime.fireEvent] and
    [Runtime.reportError] are not part of the sources at hand.  Firing an
    event appends it to the trace the plugins observe ("events fire
    synchronously at the point the underlying operation completes");
    [reportError] reports an [errorReported] event. *)
Definition fireEvent (e : Event) : M unit :=
  modify (fun st => set_events (events st ++ [e]) st).

Definition reportError (kind message : string) : M unit :=
  fireEvent (errorReported kind message).

(** [String(i)] for a non-negative integer below [1e21]. *)
Definition String_of_N (i : N) : string :=
  DecimalString.NilEmpty.string_of_uint (N.to_uint i).

(** ** Exceptions (base/exceptions) *)

(** [throwException(exception)]: stores the exception in
    [Runtime._exception] and throws the flow-control error.  The stack trace
    that is stored on the exception first comes from the rule processor and
    is not represented; storing it on [undefined] is a host TypeError. *)
Definition throwException {A} (exception : option Ref) : M A :=
  match exception with
  | Some e => modify (set_exception (Some e)) ;; throw VMException
  | None => throw HostTypeError
  end.

(** [throwNativeException(exceptionType, message)] finds the constructor of
    the exception with [getIdentifierReference] and [getValue], which
    report their own errors through [handleRecoverableNativeException] and
    so may call it in turn.  The operations are therefore written against
    the interface below, and the function itself, [throwNativeException_at],
    is defined once they are.  It ends in a call of [throwException], so it
    never returns: its result type is empty. *)
Class NativeExceptions := throwNativeException : string -> string -> M Empty_set.

Section Operations.

Context {nativeExceptions : NativeExceptions}.

Definition handleRecoverableNativeException (exceptionType message : string) : M unit :=
  skipped <- read isSkippedMode ;;
  if negb skipped then
    opts <- read (fun st => Some (options st)) ;;
    if nativeExceptionRecovery opts && negb (exactMode opts) then
      reportError exceptionType message
    else
      throwNativeException exceptionType message ;;
      ret tt
  else ret tt.

(** ** Values (base) *)

Definition set_closure (c : Closure) (x : BaseType) : BaseType :=
  mkBaseType (isArrayType x) (callable x) (className x) (type x) c (value x) (_properties x) (extensible x) (proto x)
    (dontCreatePrototype x) (protoName x) (baseValue x) (referencedName x) (strictReference x).

Definition set_value (v : Raw) (x : BaseType) : BaseType :=
  mkBaseType (isArrayType x) (callable x) (className x) (type x) (_closure x) v (_properties x) (extensible x) (proto x)
    (dontCreatePrototype x) (protoName x) (baseValue x) (referencedName x) (strictReference x).

Definition set_properties (ps : list Property) (x : BaseType) : BaseType :=
  mkBaseType (isArrayType x) (callable x) (className x) (type x) (_closure x) (value x) (Some ps) (extensible x) (proto x)
    (dontCreatePrototype x) (protoName x) (baseValue x) (referencedName x) (strictReference x).

(** [type(t)]. *)
Definition typeOf (t : Ref) (st : State) : option TypeName :=
  x ← heap st !! t; Some (type x).

(** [BaseType.call(this, className)]: the closure is the current context. *)
Definition currentClosure (st : State) : Closure :=
  match getCurrentContext st with
  | Some c => ContextClosure c
  | None => NoClosure
  end.

(** [new C(...)]: the instance is added to the heap. *)
Definition alloc (mk : Closure -> BaseType) : M Ref :=
  fun st => Normal (length (heap st)) (set_heap (heap st ++ [mk (currentClosure st)]) st).

Definition UndefinedType : M Ref :=
  alloc (fun cl => mkBaseType false false "Undefined" TUndefined cl RUndefined None false None false None
                     None EmptyString false).

Definition NullType : M Ref :=
  alloc (fun cl => mkBaseType false false "Null" TNull cl RNull None false None false None None EmptyString false).

Definition UnknownType : M Ref :=
  currentLocation <- read (fun st => Some (currentLocation st)) ;;
  opts <- read (fun st => Some (options st)) ;;
  if exactMode opts then
    throw (InternalError ("Attempted to instantiate an unknown type in exact mode at "
                          +:+ filename currentLocation +:+ ":"
                          +:+ String_of_N (line currentLocation)))
  else
    alloc (fun cl => mkBaseType false false "Unknown" TUnknown cl RUndefined None false None false None
                       None EmptyString false).

Definition NumberType (initialValue : Raw) : M Ref :=
  alloc (fun cl => mkBaseType false false "Number" TNumber cl initialValue None false None false
                     (Some "Number") None EmptyString false).

Definition BooleanType (initialValue : Raw) : M Ref :=
  alloc (fun cl => mkBaseType false false "Boolean" TBoolean cl initialValue None false None false
                     (Some "Boolean") None EmptyString false).

(** [new ObjectType(className)] without a value to wrap. *)
Definition ObjectType (className : string) (dontCreatePrototype : bool) : M Ref :=
  alloc (fun cl => mkBaseType false false className TObject cl RUndefined (Some []) true None
                     dontCreatePrototype (Some "Object") None EmptyString false).

(** [new ReferenceType(baseValue, referencedName, strictReference)] *)
Definition ReferenceType (b : option Base) (name : string) (strictRef : bool) : M Ref :=
  alloc (fun cl => mkBaseType false false "Reference" TReference cl RUndefined None false None false None
                     b name strictRef).

(** [c.lexicalEnvironment] for a closure [c]: a TypeError ([None]) when the
    closure is undefined, [undefined] ([Some None]) when it is the global
    object, which has no such field. *)
Definition closureLexicalEnvironment (cs : list ExecutionContext) (c : Closure)
  : option (option LexicalEnvironment) :=
  match c with
  | NoClosure => None
  | ContextClosure c => ctx ← cs !! c; Some (Some (lexicalEnvironment ctx))
  | ObjectClosure _ => Some None
  end.

(** The [while] loop of [_isLocal]. *)
Fixpoint _isLocal_loop (ers : list EnvironmentRecord) (target : option LexicalEnvironment)
    (lex : LexicalEnvironment) : option bool :=
  match lex with
  | mkLexicalEnvironment _ er out =>
      if same_lex target (Some lex) then Some true
      else
        rec ← ers !! er;
        if _ambiguousContext rec then Some false
        else match out with
             | Some o => _isLocal_loop ers target o
             | None => Some true
             end
  end.

Definition _isLocal (this : Ref) (st : State) : option bool :=
  ctx ← currentContext st;
  x ← heap st !! this;
  target ← closureLexicalEnvironment (contexts st) (_closure x);
  _isLocal_loop (envRecs st) target (lexicalEnvironment ctx).

(** The [for] loop of [_isSkippedLocal], from the top of the stack down. *)
Fixpoint _isSkippedLocal_loop (cs : list ExecutionContext) (ers : list EnvironmentRecord)
    (target : option LexicalEnvironment) (stack : list CtxRef) : option bool :=
  match stack with
  | [] => Some true
  | c :: rest =>
      ctx ← cs !! c;
      if same_lex target (Some (lexicalEnvironment ctx)) then Some true
      else
        stk ← skippedModeStackOf cs ers c;
        if negb (Nat.eqb (length stk) 0) then Some false
        else _isSkippedLocal_loop cs ers target rest
  end.

Definition _isSkippedLocal (this : Ref) (st : State) : option bool :=
  x ← heap st !! this;
  target ← closureLexicalEnvironment (contexts st) (_closure x);
  _isSkippedLocal_loop (contexts st) (envRecs st) target (rev (getContextStack st)).

(** The [while] loop of [_updateClosure]: is the target among the lexical
    environments from [lex] outwards? *)
Fixpoint _updateClosure_loop (target : option LexicalEnvironment)
    (lex : LexicalEnvironment) : bool :=
  match lex with
  | mkLexicalEnvironment _ _ out =>
      if same_lex (Some lex) target then true
      else match out with
           | Some o => _updateClosure_loop target o
           | None => false
           end
  end.

Definition _updateClosure (this : Ref) (targetClosure : Closure) : M bool :=
  x <- read (fun st => heap st !! this) ;;
  lex <- read (fun st => closureLexicalEnvironment (contexts st) (_closure x)) ;;
  target <- read (fun st => closureLexicalEnvironment (contexts st) targetClosure) ;;
  match lex with
  | Some l =>
      if _updateClosure_loop target l then
        modify (fun st => set_heap (<[this := set_closure targetClosure x]> (heap st)) st) ;;
        ret true
      else ret false
  | None => ret false
  end.

(** The first entry of [_properties] named [p]. *)
Fixpoint lookupEntry (p : string) (ps : list Property) : option Property :=
  match ps with
  | [] => None
  | e :: rest => if String.eqb (p_name e) p then Some e else lookupEntry p rest
  end.

Fixpoint updateEntry (p : string) (f : Property -> Property) (ps : list Property)
  : list Property :=
  match ps with
  | [] => []
  | e :: rest => if String.eqb (p_name e) p then f e :: rest else e :: updateEntry p f rest
  end.

Fixpoint removeEntry (p : string) (ps : list Property) : list Property :=
  match ps with
  | [] => []
  | e :: rest => if String.eqb (p_name e) p then rest else e :: removeEntry p rest
  end.

(** [this._properties], a TypeError on an instance without the field. *)
Definition propertiesOf (this : Ref) (st : State) : option (list Property) :=
  x ← heap st !! this; _properties x.

Definition setProperties (this : Ref) (ps : list Property) : M unit :=
  x <- read (fun st => heap st !! this) ;;
  modify (fun st => set_heap (<[this := set_properties ps x]> (heap st)) st).

(** [_lookupProperty(p)] (primary value). *)
Definition _lookupProperty (this : Ref) (p : string) (st : State)
  : option (option Descriptor) :=
  ps ← propertiesOf this st; Some (p_value <$> lookupEntry p ps).

(** [_addProperty(p, desc)].  A fresh entry starts with an [UndefinedType]
    instance as its value; read as a descriptor, that instance has none of
    the six fields. *)
Definition _addProperty (this : Ref) (p : string) (desc : Descriptor) : M unit :=
  ps <- read (propertiesOf this) ;;
  (match lookupEntry p ps with
   | Some _ => ret tt
   | None =>
       _ <- UndefinedType ;;
       setProperties this (ps ++ [mkProperty p emptyDescriptor ∅])
   end) ;;
  local <- read isLocalSkippedMode ;;
  diverted <- (if local then ret true
               else l <- read (_isSkippedLocal this) ;; ret (negb l)) ;;
  if (diverted : bool) then
    section <- read getSkippedSection ;;
    ps' <- read (propertiesOf this) ;;
    setProperties this
      (updateEntry p (fun e => mkProperty (p_name e) (p_value e)
                                 (<[section := desc]> (p_alternateValues e))) ps')
  else
    ps' <- read (propertiesOf this) ;;
    setProperties this
      (updateEntry p (fun e => mkProperty (p_name e) desc (p_alternateValues e)) ps').

Definition _removeProperty (this : Ref) (p : string) : M unit :=
  ps <- read (propertiesOf this) ;;
  setProperties this (removeEntry p ps).

(** ** Property descriptors (base/types/object) *)

Definition isSome {A} (o : option A) : bool :=
  match o with Some _ => true | None => false end.

(** Truthiness of an optional boolean field. *)
Definition truthy (o : option bool) : bool :=
  match o with Some b => b | None => false end.

Definition isDataDescriptor (desc : option Descriptor) : bool :=
  match desc with
  | None => false
  | Some d => negb (negb (isSome (d_value d)) && negb (isSome (d_writable d)))
  end.

Definition isAccessorDescriptor (desc : option Descriptor) : bool :=
  match desc with
  | None => false
  | Some d => negb (negb (isSome (d_get d)) && negb (isSome (d_set d)))
  end.

Definition isGenericDescriptor (desc : option Descriptor) : bool :=
  match desc with
  | None => false
  | Some _ => negb (isAccessorDescriptor desc) && negb (isDataDescriptor desc)
  end.

(** [new DataPropertyDescriptor()]: its value is a new [UndefinedType]. *)
Definition DataPropertyDescriptor : M Descriptor :=
  u <- UndefinedType ;;
  ret (mkDescriptor (Some u) (Some false) None None (Some false) (Some false)).

(** [new AccessorPropertyDescriptor()] *)
Definition AccessorPropertyDescriptor : Descriptor :=
  mkDescriptor None None None None (Some false) (Some false).

(** [a === b] on host values. *)
Definition raw_strict_eq (a b : Raw) : bool :=
  match a, b with
  | RUndefined, RUndefined => true
  | RNull, RNull => true
  | RBool x, RBool y => Bool.eqb x y
  | RNum x, RNum y => Number.strict_eq x y
  | RStr x, RStr y => String.eqb x y
  | _, _ => false
  end.

(** [a === b] on optional booleans and on optional instances. *)
Definition flag_eq (a b : option bool) : bool :=
  match a, b with
  | Some x, Some y => Bool.eqb x y
  | None, None => true
  | _, _ => false
  end.

(** [sameValue(x, y)]; an argument is [None] when it is undefined. *)
Definition sameValue (x y : option Ref) (st : State) : option bool :=
  match x, y with
  | None, None => Some true
  | None, _ | _, None => Some false
  | Some a, Some b =>
      xa ← heap st !! a;
      xb ← heap st !! b;
      if negb (type_eqb (type xa) (type xb)) then Some false
      else match type xa with
           | TUndefined | TNull => Some true
           | TBoolean | TNumber | TString => Some (raw_strict_eq (value xa) (value xb))
           | _ => Some (Nat.eqb a b)
           end
  end.

(** [sameDesc(x, y)]: the accessor branch evaluates its comparison and
    falls off the end of the function, so the result is [undefined]
    ([Some None]). *)
Definition sameDesc (x y : option Descriptor) (st : State) : option (option bool) :=
  if isDataDescriptor x && isDataDescriptor y then
    match x, y with
    | Some dx, Some dy =>
        if flag_eq (d_configurable dx) (d_configurable dy)
           && flag_eq (d_enumerable dx) (d_enumerable dy)
           && flag_eq (d_writable dx) (d_writable dy)
        then b ← sameValue (d_value dx) (d_value dy) st; Some (Some b)
        else Some (Some false)
    | _, _ => Some (Some false)
    end
  else if isAccessorDescriptor x && isAccessorDescriptor y then
    match x, y with
    | Some dx, Some dy =>
        if flag_eq (d_configurable dx) (d_configurable dy)
           && flag_eq (d_enumerable dx) (d_enumerable dy)
        then
          g ← sameValue (d_get dx) (d_get dy) st;
          if (g : bool) then
            match sameValue (match d_set dx with Some _ => d_set dy | None => None end) None st with
            | Some _ => Some None
            | None => None
            end
          else Some None
        else Some None
    | _, _ => Some None
    end
  else Some (Some false).

(** The keys of a descriptor, and the loop
    [for (i in descKeys) current[descKeys[i]] = desc[descKeys[i]]]. *)
Definition descKeysLength (d : Descriptor) : nat :=
  (if isSome (d_value d) then 1 else 0) + (if isSome (d_writable d) then 1 else 0)
  + (if isSome (d_get d) then 1 else 0) + (if isSome (d_set d) then 1 else 0)
  + (if isSome (d_enumerable d) then 1 else 0) + (if isSome (d_configurable d) then 1 else 0).

Definition orElse {A} (a b : option A) : option A :=
  match a with Some _ => a | None => b end.

Definition assignDescKeys (current desc : Descriptor) : Descriptor :=
  mkDescriptor (orElse (d_value desc) (d_value current))
    (orElse (d_writable desc) (d_writable current))
    (orElse (d_get desc) (d_get current))
    (orElse (d_set desc) (d_set current))
    (orElse (d_enumerable desc) (d_enumerable current))
    (orElse (d_configurable desc) (d_configurable current)).

(** [copyDescriptor] of [getOwnProperty]. *)
Definition copyDescriptor (desc : Descriptor) : Descriptor :=
  if isDataDescriptor (Some desc) then
    mkDescriptor (d_value desc) (d_writable desc) None None (d_enumerable desc) (d_configurable desc)
  else
    mkDescriptor None None (d_get desc) (d_set desc) (d_enumerable desc) (d_configurable desc).

(** The [objectPrototype] accessor: [proto || !dontCreatePrototype &&
    prototypes.Object] and its analogues in the subclasses. *)
Definition objectPrototype (this : Ref) (st : State) : option (option Ref) :=
  x ← heap st !! this;
  Some (match proto x with
        | Some r => Some r
        | None =>
            match protoName x with
            | Some k => if dontCreatePrototype x then None else prototypes st !! k
            | None => None
            end
        end).

(** ** Objects (base/types/object)

    Reads are the ones with [alternate] false, the only ones the operations
    below perform. *)

Definition ObjectType_getOwnProperty (this : Ref) (p : string) : M (option Descriptor) :=
  ty <- read (typeOf this) ;;
  if type_eqb ty TUnknown then
    u <- UnknownType ;;
    ret (Some (mkDescriptor (Some u) (Some false) None None (Some true) (Some false)))
  else
    x <- read (_lookupProperty this p) ;;
    ret (copyDescriptor <$> x).

Fixpoint ObjectType_getProperty_loop (fuel : nat) (this : Ref) (p : string)
  : M (option Descriptor) :=
  match fuel with
  | O => fun _ => Unfinished
  | S fuel' =>
      prop <- ObjectType_getOwnProperty this p ;;
      match prop with
      | Some d => ret (Some d)
      | None =>
          pr <- read (objectPrototype this) ;;
          match pr with
          | None => ret None
          | Some o =>
              ty <- read (typeOf o) ;;
              if negb (type_eqb ty TNull) && negb (Nat.eqb o this)
              then ObjectType_getProperty_loop fuel' o p
              else ret None
          end
      end
  end.

(** A chain of distinct prototypes has at most as many links as the heap
    has instances. *)
Definition ObjectType_getProperty (this : Ref) (p : string) : M (option Descriptor) :=
  fun st => ObjectType_getProperty_loop (S (length (heap st))) this p st.

Definition ObjectType_hasProperty (this : Ref) (p : string) : M bool :=
  d <- ObjectType_getProperty this p ;; ret (isSome d).

(** The result of [canPut]: the string ['Unknown'] or a value used for its
    truthiness. *)
Inductive CanPut :=
| CanPutUnknown
| CanPutValue (b : bool).

(** [f && f.className != 'Undefined'] for an optional function [f]. *)
Definition definedFunction (f : option Ref) (st : State) : option bool :=
  match f with
  | None => Some false
  | Some r => x ← heap st !! r; Some (negb (String.eqb (className x) "Undefined"))
  end.

Definition ObjectType_canPut (this : Ref) (p : string) : M CanPut :=
  desc <- ObjectType_getOwnProperty this p ;;
  match desc with
  | Some d =>
      if isAccessorDescriptor desc then
        b <- read (definedFunction (d_set d)) ;; ret (CanPutValue b)
      else ret (CanPutValue (truthy (d_writable d)))
  | None =>
      x <- read (fun st => heap st !! this) ;;
      pr <- read (objectPrototype this) ;;
      match pr with
      | None => ret (CanPutValue (extensible x))
      | Some o =>
          ty <- read (typeOf o) ;;
          if type_eqb ty TUnknown then ret CanPutUnknown
          else if type_eqb ty TNull then ret (CanPutValue (extensible x))
          else
            inherited <- ObjectType_getProperty o p ;;
            match inherited with
            | None => ret (CanPutValue (extensible x))
            | Some i =>
                if isAccessorDescriptor inherited then
                  b <- read (definedFunction (d_set i)) ;; ret (CanPutValue b)
                else ret (CanPutValue (extensible x && truthy (d_writable i)))
            end
      end
  end.

(** [delete(p, throwFlag)] *)
Definition ObjectType_delete (this : Ref) (p : string) (throwFlag : bool) : M bool :=
  desc <- ObjectType_getOwnProperty this p ;;
  fireEvent (propertyDeleted this p) ;;
  match desc with
  | None => ret true
  | Some d =>
      if truthy (d_configurable d) then
        _removeProperty this p ;;
        ret true
      else
        (if throwFlag
         then throwNativeException "TypeError" ("Unable to delete " +:+ quoted p) ;; ret tt
         else ret tt) ;;
        ret false
  end.

(** [value._updateClosure(this._closure)] *)
Definition updateClosureOf (this value : Ref) : M bool :=
  x <- read (fun st => heap st !! this) ;;
  _updateClosure value (_closure x).

(** A rejected [defineOwnProperty]: report when [throwFlag] is set, then
    [return false]. *)
Definition reject (throwFlag : bool) (message : string) : M bool :=
  (if throwFlag then handleRecoverableNativeException "TypeError" message else ret tt) ;;
  ret false.

(** The condition [type(desc.value) === 'Unknown' || !desc.value._isLocal()
    || isAmbiguousBlock()], evaluated left to right. *)
Definition storesUnknown (v : Ref) : M bool :=
  ty <- read (typeOf v) ;;
  if type_eqb ty TUnknown then ret true
  else
    loc <- read (_isLocal v) ;;
    if negb loc then ret true else read isAmbiguousBlock.

(** The part of [defineOwnProperty] after the test for a new property on a
    non-extensible object and the event: [desc] is the descriptor with its
    value filled in, [keys] the descriptor as it was passed. *)
Definition defineOwnProperty_existing (this : Ref) (p : string)
    (current desc keys : Descriptor) (throwFlag : bool) : M bool :=
  let prefix := "Could not define property " +:+ p in
  if Nat.eqb (descKeysLength keys) 0 then ret true
  else
    same <- read (sameDesc (Some current) (Some desc)) ;;
    if match same with Some b => b | None => false end then ret true
    else if negb (truthy (d_configurable current))
            && (truthy (d_configurable desc)
                || (isSome (d_enumerable desc)
                    && negb (flag_eq (d_enumerable desc) (d_enumerable current))))
    then reject throwFlag (prefix +:+ ": existing property is not configurable and writable mismatch between existing and new property")
    else
      let finish (current : Descriptor) : M bool :=
        _addProperty this p (assignDescKeys current keys) ;;
        ret true in
      if isGenericDescriptor (Some desc) then finish desc
      else if negb (Bool.eqb (isDataDescriptor (Some desc)) (isDataDescriptor (Some current))) then
        if negb (truthy (d_configurable current)) then
          reject throwFlag (prefix +:+ ": descriptor type mismatch between existing and new property")
        else if isDataDescriptor (Some current) then
          finish (mkDescriptor None None None None (d_enumerable current) (d_configurable current))
        else
          newProp <- DataPropertyDescriptor ;;
          finish (mkDescriptor (d_value newProp) (d_writable newProp) None None
                    (d_enumerable current) (d_configurable current))
      else if isDataDescriptor (Some desc) && isDataDescriptor (Some current) then
        if negb (truthy (d_configurable current)) && negb (truthy (d_writable current)) then
          if truthy (d_writable desc) then
            reject throwFlag (prefix +:+ ": existing property is not configurable and writable mismatch between existing and new property")
          else
            differs <- (if isSome (d_value desc) then
                          same' <- read (sameDesc (Some desc) (Some current)) ;;
                          ret (negb (match same' with Some b => b | None => false end))
                        else ret false) ;;
            if (differs : bool) then
              reject throwFlag (prefix +:+ ": existing property is not configurable and value mismatch between existing and new property")
            else finish current
        else finish current
      else if isAccessorDescriptor (Some desc) && isAccessorDescriptor (Some current) then
        if negb (truthy (d_configurable current)) && isSome (d_set desc) then
          sameSet <- read (sameValue (d_set desc) (d_set current)) ;;
          if negb sameSet then
            reject throwFlag (prefix +:+ ": existing property is not configurable and set mismatch between existing and new property")
          else
            sameGet <- read (sameValue (d_get desc) (d_get current)) ;;
            if negb sameGet then
              reject throwFlag (prefix +:+ ": existing property is not configurable and get mismatch between existing and new property")
            else finish current
        else finish current
      else finish current.

(** [ObjectType.prototype.defineOwnProperty(p, desc, throwFlag, suppressEvent)] *)
Definition ObjectType_defineOwnProperty (this : Ref) (p : string) (desc : Descriptor)
    (throwFlag suppressEvent : bool) : M bool :=
  current <- ObjectType_getOwnProperty this p ;;
  let keys := desc in
  let continue (desc : Descriptor) : M bool :=
    x <- read (fun st => heap st !! this) ;;
    if negb (isSome current) && negb (extensible x) then
      reject throwFlag ("Could not define property " +:+ p +:+ ": object is not extensible")
    else
      (if negb suppressEvent then fireEvent (propertyDefined this p) else ret tt) ;;
      match current with
      | None =>
          (* [typeof current == 'undefined' && this.extensible] *)
          if isAccessorDescriptor (Some desc) then
            _addProperty this p
              (mkDescriptor None None (d_get desc) (d_set desc)
                 (orElse (d_enumerable desc) (Some false))
                 (orElse (d_configurable desc) (Some false))) ;;
            ret true
          else
            newProp <- DataPropertyDescriptor ;;
            _addProperty this p
              (mkDescriptor (orElse (d_value desc) (d_value newProp))
                 (orElse (d_writable desc) (Some false)) None None
                 (orElse (d_enumerable desc) (Some false))
                 (orElse (d_configurable desc) (Some false))) ;;
            ret true
      | Some cur => defineOwnProperty_existing this p cur desc keys throwFlag
      end in
  if isDataDescriptor (Some desc) then
    v <- (match d_value desc with Some v => ret v | None => UndefinedType end) ;;
    let desc := mkDescriptor (Some v) (d_writable desc) (d_get desc) (d_set desc)
                  (d_enumerable desc) (d_configurable desc) in
    updateClosureOf this v ;;
    unknown <- storesUnknown v ;;
    if (unknown : bool) then
      newProp <- DataPropertyDescriptor ;;
      u <- UnknownType ;;
      _addProperty this p
        (mkDescriptor (Some u) (orElse (d_writable desc) (d_writable newProp)) None None
           (orElse (d_enumerable desc) (d_enumerable newProp))
           (orElse (d_configurable desc) (d_configurable newProp))) ;;
      ret true
    else continue desc
  else continue desc.

(** ** Declarative environment records (base/context) *)

Definition set_bindings (bs : gmap string Binding) (r : EnvironmentRecord) : EnvironmentRecord :=
  mkEnvironmentRecord bs (_bindingObject r) (_ambiguousContext r) (_skippedModeStack r).

Definition set_skippedModeStack (s : list nat) (r : EnvironmentRecord) : EnvironmentRecord :=
  mkEnvironmentRecord (_bindings r) (_bindingObject r) (_ambiguousContext r) s.

Definition bindingOf (this : EnvRef) (n : string) (st : State) : option (option Binding) :=
  r ← envRecs st !! this; Some (_bindings r !! n).

(** [bindings[n] = b] *)
Definition setBinding (this : EnvRef) (n : string) (b : Binding) : M unit :=
  r <- read (fun st => envRecs st !! this) ;;
  modify (fun st => set_envRecs (<[this := set_bindings (<[n := b]> (_bindings r)) r]> (envRecs st)) st).

(** [getBindingValue(n, s)] *)
Definition DeclarativeEnvironmentRecord_getBindingValue (this : EnvRef) (n : string)
    (s : bool) : M Ref :=
  binding <- read (bindingOf this n) ;;
  match binding with
  | None => throw (InternalError ("Could not get value: binding " +:+ quoted n +:+ " does not exist"))
  | Some b =>
      if s && negb (isMutable b) && negb (truthy (isInitialized b)) then
        handleRecoverableNativeException "ReferenceError"
          ("Could not get value: binding " +:+ quoted n +:+ " has not been initialized") ;;
        UnknownType
      else ret (b_value b)
  end.

(** [type(v) === 'Unknown' || !this.getBindingValue(n)._isLocal() ||
    isAmbiguousBlock()], evaluated left to right. *)
Definition bindsUnknown (this : EnvRef) (n : string) (v : Ref) : M bool :=
  ty <- read (typeOf v) ;;
  if type_eqb ty TUnknown then ret true
  else
    cur <- DeclarativeEnvironmentRecord_getBindingValue this n false ;;
    loc <- read (_isLocal cur) ;;
    if negb loc then ret true else read isAmbiguousBlock.

(** [setMutableBinding(n, v, s)] *)
Definition DeclarativeEnvironmentRecord_setMutableBinding (this : EnvRef) (n : string)
    (v : Ref) (s : bool) : M unit :=
  binding <- read (bindingOf this n) ;;
  match binding with
  | None => throw (InternalError ("Could not set mutable binding: binding " +:+ quoted n +:+ " does not exist"))
  | Some b =>
      proceed <- (if negb (isMutable b) then
                    if s then
                      handleRecoverableNativeException "TypeError"
                        ("Could not set binding: binding " +:+ quoted n +:+ " is not mutable") ;;
                      u <- UnknownType ;;
                      setBinding this n (mkBinding u (b_alternateValues b) (isDeletable b)
                                           (isMutable b) (isInitialized b)) ;;
                      ret true
                    else ret false
                  else ret true) ;;
      if (proceed : bool) then
        local <- read isLocalSkippedMode ;;
        diverted <- (if local then ret true
                     else
                       cur <- DeclarativeEnvironmentRecord_getBindingValue this n false ;;
                       l <- read (_isSkippedLocal cur) ;;
                       ret (negb l)) ;;
        unknown <- bindsUnknown this n v ;;
        if (diverted : bool) then
          section <- read getSkippedSection ;;
          x <- (if (unknown : bool) then UnknownType else ret v) ;;
          b' <- read (fun st => o ← bindingOf this n st; o) ;;
          setBinding this n (mkBinding (b_value b') (<[section := x]> (b_alternateValues b'))
                               (isDeletable b') (isMutable b') (isInitialized b'))
        else
          x <- (if (unknown : bool) then UnknownType else ret v) ;;
          b' <- read (fun st => o ← bindingOf this n st; o) ;;
          setBinding this n (mkBinding x (b_alternateValues b') (isDeletable b')
                               (isMutable b') (isInitialized b'))
      else ret tt
  end.

(** ** Host conversions *)

(** [positiveIntegerRegEx.test(p)], the expression [/^\d*$/]: [p] consists
    of decimal digits only (and may be empty). *)
Definition positiveIntegerRegEx_test (p : string) : bool :=
  isSome (DecimalString.NilEmpty.uint_of_string p).

(** [parseInt(p, 10)] on a string of decimal digits ([NaN] on the empty
    string): the double nearest to the integer written. *)
Definition parseInt10 (p : string) : number :=
  match DecimalString.NilEmpty.uint_of_string p with
  | Some Decimal.Nil => NaN
  | Some d => Number.round (Number.of_N (N.of_uint d))
  | None => NaN
  end.

Section Engine.

(** [f.callFunction(thisVal, args)] runs the body of [f] through the rule
    processor, which is not part of the sources at hand.  [thisVal] is
    [None] when the call site passes something that is not an engine
    value, and so is an [undefined] result. *)
Variable callFunction : Ref -> option Ref -> list Ref -> M (option Ref).

(** The host conversion of a string to a number ([+s]). *)
Variable StringToNumber : string -> number.

(** The inline [put] that [putValue] builds for a reference with a
    primitive base; it goes through [toObject], whose wrappers are not
    represented. *)
Variable putPrimitiveBase : Ref -> string -> Ref -> bool -> M unit.

(** Host [ToNumber] and [ToBoolean] of the content of a [value] field. *)
Definition raw_to_number (r : Raw) : number :=
  match r with
  | RUndefined => NaN
  | RNull => Number.zero
  | RBool b => if b then Number.one else Number.zero
  | RNum n => n
  | RStr s => StringToNumber s
  end.

Definition raw_truthy (r : Raw) : bool :=
  match r with
  | RUndefined | RNull => false
  | RBool b => b
  | RNum n => negb (Number.isNaN n) && negb (Number.strict_eq n Number.zero)
  | RStr s => negb (String.eqb s EmptyString)
  end.

Definition valueOf (r : Ref) (st : State) : option Raw :=
  x ← heap st !! r; Some (value x).

(** [get(p)] *)
Definition ObjectType_get (this : Ref) (p : string) : M Ref :=
  desc <- ObjectType_getProperty this p ;;
  result <- (match desc with
             | None => ret None
             | Some d =>
                 if isDataDescriptor desc then ret (d_value d)
                 else
                   defined <- read (definedFunction (d_get d)) ;;
                   r <- (match d_get d with
                         | Some getter =>
                             if (defined : bool) then callFunction getter None [] else ret None
                         | None => ret None
                         end) ;;
                   match r with
                   | Some v => ret (Some v)
                   | None => u <- UndefinedType ;; ret (Some u)
                   end
             end) ;;
  fireEvent (propertyReferenced this p desc) ;;
  match result with
  | Some r => ret r
  | None => UndefinedType
  end.

(** [ArrayType.prototype.defineOwnProperty]; it has no [return]. *)
Definition ArrayType_defineOwnProperty (this : Ref) (p : string) (desc : Descriptor)
    (throwFlag suppressEvent : bool) : M unit :=
  ObjectType_defineOwnProperty this p desc throwFlag suppressEvent ;;
  if positiveIntegerRegEx_test p then
    let parsedP := parseInt10 p in
    len <- ObjectType_get this "length" ;;
    l <- read (valueOf len) ;;
    if Number.ge parsedP (raw_to_number l) then
      n <- NumberType (RNum (Number.add parsedP Number.one)) ;;
      _addProperty this "length" (dataDescriptor n true false false)
    else ret tt
  else ret tt.

(** [this.defineOwnProperty(...)] as a statement: the method of the
    receiver's class, its result dropped. *)
Definition defineOwnProperty_ (this : Ref) (p : string) (desc : Descriptor)
    (throwFlag suppressEvent : bool) : M unit :=
  x <- read (fun st => heap st !! this) ;;
  if isArrayType x then ArrayType_defineOwnProperty this p desc throwFlag suppressEvent
  else ObjectType_defineOwnProperty this p desc throwFlag suppressEvent ;; ret tt.

(** [put(p, v, throwFlag, suppressEvent)] *)
Definition ObjectType_put (this : Ref) (p : string) (v : Ref)
    (throwFlag suppressEvent : bool) : M unit :=
  canPutP <- ObjectType_canPut this p ;;
  match canPutP with
  | CanPutUnknown => ret tt
  | CanPutValue b =>
      proceed <- (if negb b then
                    if throwFlag then
                      handleRecoverableNativeException "TypeError" "Cannot put argument" ;;
                      u <- UnknownType ;;
                      defineOwnProperty_ this p
                        (mkDescriptor (Some u) None None None None None)
                        throwFlag suppressEvent ;;
                      ret true
                    else ret false
                  else ret true) ;;
      if (proceed : bool) then
        (if negb suppressEvent then fireEvent (propertySet this p v) else ret tt) ;;
        ownDesc <- ObjectType_getOwnProperty this p ;;
        if isDataDescriptor ownDesc then
          defineOwnProperty_ this p (mkDescriptor (Some v) None None None None None)
            throwFlag suppressEvent
        else
          desc <- ObjectType_getProperty this p ;;
          if isAccessorDescriptor desc then
            match desc ≫= d_set with
            | Some setter => callFunction setter (Some this) [v] ;; ret tt
            | None => throw HostTypeError
            end
          else
            defineOwnProperty_ this p (dataDescriptor v true true true)
              throwFlag suppressEvent
      else ret tt
  end.

(** [ObjectEnvironmentRecord.prototype.setMutableBinding(n, v, s)] *)
Definition ObjectEnvironmentRecord_setMutableBinding (this : EnvRef) (n : string)
    (v : Ref) (s : bool) : M unit :=
  o <- read (fun st => r ← envRecs st !! this; _bindingObject r) ;;
  ObjectType_put o n v s false.

(** ** References (base/types/reference) *)

(** [type(getBase(v)) === 'Undefined']; an environment record has no
    [type]. *)
Definition isUnresolvableReference (v : Ref) (st : State) : option bool :=
  x ← heap st !! v;
  match baseValue x with
  | Some (BaseValue b) => t ← typeOf b st; Some (type_eqb t TUndefined)
  | Some (BaseEnvRec _) => Some false
  | None => None
  end.

Definition hasPrimitiveBase (v : Ref) (st : State) : option bool :=
  x ← heap st !! v;
  match baseValue x with
  | Some (BaseValue b) =>
      t ← typeOf b st;
      Some (type_eqb t TNumber || type_eqb t TString || type_eqb t TBoolean)
  | Some (BaseEnvRec _) => Some false
  | None => None
  end.

Definition isPropertyReference (v : Ref) (st : State) : option bool :=
  prim ← hasPrimitiveBase v st;
  if (prim : bool) then Some true
  else
    x ← heap st !! v;
    match baseValue x with
    | Some (BaseValue b) => t ← typeOf b st; Some (type_eqb t TObject)
    | _ => Some false
    end.

(** [putValue(v, w)] *)
Definition putValue (v w : Ref) : M unit :=
  ty <- read (typeOf v) ;;
  (if negb (type_eqb ty TReference)
   then throwNativeException "ReferenceError" "Attempted to put a value to a non-reference" ;;
        ret tt
   else ret tt) ;;
  x <- read (fun st => heap st !! v) ;;
  unresolvable <- read (isUnresolvableReference v) ;;
  if (unresolvable : bool) then
    (if strictReference x
     then throwNativeException "ReferenceError" (referencedName x +:+ " is not resolvable") ;;
          ret tt
     else ret tt) ;;
    g <- read getGlobalObject ;;
    ObjectType_put g (referencedName x) w false false ;;
    fireEvent (undeclaredGlobalVariableCreated (referencedName x))
  else
    property <- read (isPropertyReference v) ;;
    if (property : bool) then
      prim <- read (hasPrimitiveBase v) ;;
      match baseValue x with
      | Some (BaseValue b) =>
          if (prim : bool) then putPrimitiveBase b (referencedName x) w (strictReference x)
          else ObjectType_put b (referencedName x) w (strictReference x) false
      | _ => throw HostTypeError
      end
    else
      match baseValue x with
      | Some (BaseEnvRec e) =>
          r <- read (fun st => envRecs st !! e) ;;
          match _bindingObject r with
          | Some _ =>
              ObjectEnvironmentRecord_setMutableBinding e (referencedName x) w (strictReference x)
          | None =>
              DeclarativeEnvironmentRecord_setMutableBinding e (referencedName x) w (strictReference x)
          end
      | _ => throw HostTypeError
      end.

(** ** Conversions (base/conversion) *)

Definition setValue (r : Ref) (v : Raw) : M unit :=
  x <- read (fun st => heap st !! r) ;;
  modify (fun st => set_heap (<[r := set_value v x]> (heap st)) st).

(** [isPrimitive(o)] looks at the class name. *)
Definition isPrimitive (o : Ref) (st : State) : option bool :=
  x ← heap st !! o;
  Some (bool_decide (className x ∈ ["Number"; "String"; "Boolean"; "Undefined"; "Null"])).

Definition isCallable (input : Ref) (st : State) : option bool :=
  x ← heap st !! input;
  Some (type_eqb (type x) TObject && callable x).

(** [defaultToString] and [defaultValueOf] of [defaultValue]; the result
    is [None] when the function falls off its end. *)
Definition defaultBy (this : Ref) (method : string) : M (option Ref) :=
  f <- ObjectType_get this method ;;
  ty <- read (typeOf f) ;;
  if type_eqb ty TUnknown then u <- UnknownType ;; ret (Some u)
  else
    call <- read (isCallable f) ;;
    if (call : bool) then
      r <- callFunction f (Some this) [] ;;
      match r with
      | None => throw HostTypeError
      | Some s =>
          ts <- read (typeOf s) ;;
          prim <- read (isPrimitive s) ;;
          if type_eqb ts TUnknown || prim then ret (Some s) else ret None
      end
    else ret None.

Definition ObjectType_defaultValue (this : Ref) (hint : string) : M Ref :=
  let first := if String.eqb hint "String" then "toString" else "valueOf" in
  let second := if String.eqb hint "String" then "valueOf" else "toString" in
  r1 <- defaultBy this first ;;
  match r1 with
  | Some r => ret r
  | None =>
      r2 <- defaultBy this second ;;
      match r2 with
      | Some r => ret r
      | None =>
          handleRecoverableNativeException "TypeError"
            (if String.eqb hint "String" then "Could not get the default string value"
             else "Could not get the default number value") ;;
          UnknownType
      end
  end.

(** [input || new UndefinedType()] *)
Definition orUndefined (input : option Ref) : M Ref :=
  match input with Some i => ret i | None => UndefinedType end.

Definition toPrimitive (input : option Ref) (preferredType : string) : M Ref :=
  i <- orUndefined input ;;
  ty <- read (typeOf i) ;;
  match ty with
  | TObject => ObjectType_defaultValue i preferredType
  | TUnknown => UnknownType
  | _ => ret i
  end.

(** [toNumber]; [fuel] bounds the conversions of objects to primitives,
    each of which runs code of the analysed program. *)
Fixpoint toNumber (fuel : nat) (input : option Ref) : M Ref :=
  newNumber <- NumberType (RNum Number.zero) ;;
  i <- orUndefined input ;;
  ty <- read (typeOf i) ;;
  v <- read (valueOf i) ;;
  match ty with
  | TUndefined => setValue newNumber (RNum NaN) ;; ret newNumber
  | TNull => setValue newNumber (RNum Number.zero) ;; ret newNumber
  | TBoolean =>
      setValue newNumber (RNum (if raw_truthy v then Number.one else Number.zero)) ;;
      ret newNumber
  | TNumber => setValue newNumber v ;; ret newNumber
  | TString => setValue newNumber (RNum (raw_to_number v)) ;; ret newNumber
  | TObject =>
      match fuel with
      | O => fun _ => Unfinished
      | S fuel' => prim <- toPrimitive (Some i) "Number" ;; toNumber fuel' (Some prim)
      end
  | TUnknown => UnknownType
  | TReference => ret newNumber
  end.

(** The arithmetic of [toInt32] on the content of [newNumber.value]. *)
Definition toInt32_value (v : Raw) : number :=
  if Number.isNaN (raw_to_number v)
     || raw_strict_eq v (RNum (Infinity false))
     || raw_strict_eq v (RNum (Infinity true))
  then Number.zero
  else
    let sign := if Number.lt (raw_to_number v) Number.zero then Number.neg_one else Number.one in
    let x := Number.rem_pow2 (Number.mul sign (Number.floor (Number.abs (raw_to_number v)))) 32 in
    if Number.ge x (Number.pow2 31) then Number.sub x (Number.pow2 32) else x.

Definition toInt32 (fuel : nat) (input : option Ref) : M Ref :=
  newNumber <- toNumber fuel input ;;
  ty <- read (typeOf newNumber) ;;
  if type_eqb ty TUnknown then UnknownType
  else
    v <- read (valueOf newNumber) ;;
    setValue newNumber (RNum (toInt32_value v)) ;;
    ret newNumber.

(** [strictEquals(x, y)]: the [switch] has no case for Unknown and
    Reference, for which the function returns [undefined] ([Some None]). *)
Definition strictEquals (x y : Ref) (st : State) : option (option bool) :=
  typeX ← typeOf x st;
  typeY ← typeOf y st;
  if negb (type_eqb typeX typeY) then Some (Some false)
  else match typeX with
       | TUndefined | TNull => Some (Some true)
       | TBoolean | TNumber | TString =>
           vx ← valueOf x st; vy ← valueOf y st; Some (Some (raw_strict_eq vx vy))
       | TObject => Some (Some (Nat.eqb x y))
       | TUnknown | TReference => Some None
       end.

(** ** Skipped mode (base/context) *)

(** [getCurrentContext().lexicalEnvironment.envRec] *)
Definition currentEnvRec (st : State) : option EnvRef :=
  ctx ← currentContext st; Some (envRec (lexicalEnvironment ctx)).

(** [..._skippedModeStack.push(++skippedModeCounter)] *)
Definition enterSkippedMode : M unit :=
  e <- read currentEnvRec ;;
  r <- read (fun st => envRecs st !! e) ;;
  modify (fun st => set_skippedModeCounter (S (skippedModeCounter st)) st) ;;
  n <- read (fun st => Some (skippedModeCounter st)) ;;
  modify (fun st => set_envRecs
                      (<[e := set_skippedModeStack (_skippedModeStack r ++ [n]) r]> (envRecs st)) st).

(** [..._skippedModeStack.pop()] *)
Definition exitSkippedMode : M unit :=
  e <- read currentEnvRec ;;
  r <- read (fun st => envRecs st !! e) ;;
  modify (fun st => set_envRecs
                      (<[e := set_skippedModeStack (removelast (_skippedModeStack r)) r]> (envRecs st)) st).

(** The body of the [try] block: how far the closures got. *)
Inductive TryResult (A : Type) :=
| Completed (result : option A) (st : State)
| Thrown (result : option A) (e : HostError) (st : State)
| TryUnfinished.
Arguments Completed {A} result st.
Arguments Thrown {A} result e st.
Arguments TryUnfinished {A}.

Fixpoint runClosures {A} (closures : list (M A)) (result : option A) (st : State)
  : TryResult A :=
  match closures with
  | [] => Completed result st
  | c :: rest =>
      match c st with
      | Normal a st' => runClosures rest (Some a) st'
      | Abrupt e st' => Thrown result e st'
      | Unfinished => TryUnfinished
      end
  end.

(** [finally { pop }] followed by what the [try] and [catch] blocks left. *)
Definition finallyExit {A} (after : State -> Completion A) (st : State) : Completion A :=
  match exitSkippedMode st with
  | Normal _ st' => after st'
  | Abrupt e st' => Abrupt e st'
  | Unfinished => Unfinished
  end.

(** [processInSkippedMode(...closures)]; the result is the one of the
    last closure that returned. *)
Definition processInSkippedMode {A} (closures : list (M A)) : M (option A) :=
  fun st =>
    if currentFileBlacklisted st then Normal None st
    else
      match enterSkippedMode st with
      | Normal _ st1 =>
          match runClosures closures None st1 with
          | Completed result st2 => finallyExit (Normal result) st2
          | Thrown result e st2 =>
              if inRecursionUnroll st2 || negb (isCodeProcessorException e)
              then finallyExit (Abrupt e) st2
              else finallyExit (Normal result) st2
          | TryUnfinished => Unfinished
          end
      | Abrupt e st1 => Abrupt e st1
      | Unfinished => Unfinished
      end.

End Engine.

End Operations.

Arguments Completed {A} result st.
Arguments Thrown {A} result e st.
Arguments TryUnfinished {A}.

(** * More of the value layer

    The operations below complete the parts of Base.js that the previous
    sections model: property names, the array and string constructors, the
    remaining conversions, the binding operations of environment records,
    identifier resolution, [getValue] and [throwNativeException]. *)

(** [_getPropertyNames()]: the names of [_properties], in order. *)
Definition _getPropertyNames (this : Ref) (st : State) : option (list string) :=
  ps ← propertiesOf this st; Some (fmap (M := list) p_name ps).

(** [areAnyUnknown(values)] *)
Fixpoint areAnyUnknown (values : list Ref) (st : State) : option bool :=
  match values with
  | [] => Some false
  | v :: rest =>
      ty ← typeOf v st;
      if type_eqb ty TUnknown then Some true else areAnyUnknown rest st
  end.


(** [new StringType(initialValue)]: an object of class String whose
    prototype is [prototypes.String]; the setter of [value] stores the
    string and adds the property [length] (the number of characters, all of
    them single code units here). *)
Definition StringType (initialValue : string) : M Ref :=
  s <- alloc (fun cl => mkBaseType false false "String" TString cl RUndefined (Some []) true None
                          false (Some "String") None EmptyString false) ;;
  setValue s (RStr initialValue) ;;
  n <- NumberType (RNum (Number.of_N (N.of_nat (String.length initialValue)))) ;;
  _addProperty s "length" (mkDescriptor (Some n) None None None None None) ;;
  ret s.

Section Conversions.

Context {nativeExceptions : NativeExceptions}.

(** As in the first part: the call of a function of the analysed program
    and the host conversion of a string to a number. *)
Variable callFunction : Ref -> option Ref -> list Ref -> M (option Ref).
Variable StringToNumber : string -> number.

(** [addReadOnlyProperty(obj, name, value)] *)
Definition addReadOnlyProperty (obj : Ref) (name : string) (value : Ref) : M unit :=
  defineOwnProperty_ callFunction StringToNumber obj name
    (mkDescriptor (Some value) None None None None None) false true.

(** [addNonEnumerableProperty(obj, name, value)] *)
Definition addNonEnumerableProperty (obj : Ref) (name : string) (value : Ref) : M unit :=
  defineOwnProperty_ callFunction StringToNumber obj name
    (dataDescriptor value true false true) false true.

(** [toBoolean(input)] *)
Definition toBoolean (input : option Ref) : M Ref :=
  newBoolean <- BooleanType (RBool false) ;;
  i <- orUndefined input ;;
  ty <- read (typeOf i) ;;
  v <- read (valueOf i) ;;
  match ty with
  | TUndefined => setValue newBoolean (RBool false) ;; ret newBoolean
  | TNull => setValue newBoolean (RBool false) ;; ret newBoolean
  | TBoolean => setValue newBoolean v ;; ret newBoolean
  | TNumber => setValue newBoolean (RBool (raw_truthy v)) ;; ret newBoolean
  | TString => setValue newBoolean (RBool (raw_truthy v)) ;; ret newBoolean
  | TObject => setValue newBoolean (RBool true) ;; ret newBoolean
  | TUnknown => UnknownType
  | TReference => ret newBoolean
  end.

(** The arithmetic of [toInteger] on the content of [newNumber.value]. *)
Definition toInteger_value (v : Raw) : number :=
  let x := raw_to_number StringToNumber v in
  if Number.isNaN x then Number.zero
  else
    let sign := if Number.lt x Number.zero then Number.neg_one else Number.one in
    Number.mul sign (Number.floor (Number.abs x)).

Definition toInteger (fuel : nat) (input : option Ref) : M Ref :=
  newNumber <- toNumber callFunction StringToNumber fuel input ;;
  ty <- read (typeOf newNumber) ;;
  if type_eqb ty TUnknown then UnknownType
  else
    v <- read (valueOf newNumber) ;;
    setValue newNumber (RNum (toInteger_value v)) ;;
    ret newNumber.

(** The arithmetic of [toUint32]: the remainder keeps the sign of the
    dividend, and nothing is added to a negative one. *)
Definition toUint32_value (v : Raw) : number :=
  let x := raw_to_number StringToNumber v in
  if Number.isNaN x
     || raw_strict_eq v (RNum (Infinity false))
     || raw_strict_eq v (RNum (Infinity true))
  then Number.zero
  else
    let sign := if Number.lt x Number.zero then Number.neg_one else Number.one in
    Number.rem_pow2 (Number.mul sign (Number.floor (Number.abs x))) 32.

Definition toUint32 (fuel : nat) (input : option Ref) : M Ref :=
  newNumber <- toNumber callFunction StringToNumber fuel input ;;
  ty <- read (typeOf newNumber) ;;
  if type_eqb ty TUnknown then UnknownType
  else
    v <- read (valueOf newNumber) ;;
    setValue newNumber (RNum (toUint32_value v)) ;;
    ret newNumber.

(** The arithmetic of [toUint16]. *)
Definition toUint16_value (v : Raw) : number :=
  let x := raw_to_number StringToNumber v in
  if Number.isNaN x
     || raw_strict_eq v (RNum (Infinity false))
     || raw_strict_eq v (RNum (Infinity true))
  then Number.zero
  else
    let sign := if Number.lt x Number.zero then Number.neg_one else Number.one in
    Number.rem_pow2 (Number.mul sign (Number.floor (Number.abs x))) 16.

Definition toUint16 (fuel : nat) (input : option Ref) : M Ref :=
  newNumber <- toNumber callFunction StringToNumber fuel input ;;
  ty <- read (typeOf newNumber) ;;
  if type_eqb ty TUnknown then UnknownType
  else
    v <- read (valueOf newNumber) ;;
    setValue newNumber (RNum (toUint16_value v)) ;;
    ret newNumber.

End Conversions.

(** ** Environment records (base/context) *)

Section EnvironmentRecords.

Context {nativeExceptions : NativeExceptions}.

Variable callFunction : Ref -> option Ref -> list Ref -> M (option Ref).
Variable StringToNumber : string -> number.

(** [_bindings] is a plain host object, so [this._bindings[n]] also finds
    what [Object.prototype] of the host defines ([toString],
    [constructor], ...), each of them a function or an object without the
    fields of a binding.  [objectPrototypeHas n] tells whether [n] is such
    a name.  (An assignment to [__proto__] would replace that prototype,
    which the records do not represent; the properties below leave this
    name out.) *)
Variable objectPrototypeHas : string -> bool.

(** [bindingExists(bindings, name)]: an own property. *)
Definition bindingExists (bindings : gmap string Binding) (name : string) : bool :=
  isSome (bindings !! name).

(** [hasBinding(n)] *)
Definition DeclarativeEnvironmentRecord_hasBinding (this : EnvRef) (n : string) (st : State)
  : option bool :=
  r ← envRecs st !! this; Some (bindingExists (_bindings r) n).

(** [bindings[n] = b]: a new own property, except under the name
    [__proto__]. *)
Definition assignBinding (this : EnvRef) (n : string) (b : Binding) : M unit :=
  if String.eqb n "__proto__" then ret tt else setBinding this n b.

(** [createMutableBinding(n, d)] *)
Definition DeclarativeEnvironmentRecord_createMutableBinding (this : EnvRef) (n : string)
    (d : bool) : M unit :=
  r <- read (fun st => envRecs st !! this) ;;
  if bindingExists (_bindings r) n then
    throw (InternalError ("Could not create mutable binding: binding " +:+ quoted n
                          +:+ " already exists"))
  else
    u <- UndefinedType ;;
    assignBinding this n (mkBinding u ∅ d true None).

(** [deleteBinding(n)] *)
Definition DeclarativeEnvironmentRecord_deleteBinding (this : EnvRef) (n : string) : M bool :=
  r <- read (fun st => envRecs st !! this) ;;
  match _bindings r !! n with
  | Some b =>
      if negb (isDeletable b) then ret false
      else
        modify (fun st => set_envRecs
                            (<[this := set_bindings (delete n (_bindings r)) r]> (envRecs st)) st) ;;
        ret true
  | None =>
      (* an inherited value is truthy and has no [isDeletable] *)
      if objectPrototypeHas n then ret false else ret true
  end.

(** [implicitThisValue()] *)
Definition DeclarativeEnvironmentRecord_implicitThisValue : M Ref := UndefinedType.

(** [createImmutableBinding(n)] *)
Definition DeclarativeEnvironmentRecord_createImmutableBinding (this : EnvRef) (n : string)
  : M unit :=
  r <- read (fun st => envRecs st !! this) ;;
  if bindingExists (_bindings r) n then
    throw (InternalError ("Could not create immutable binding: binding " +:+ quoted n
                          +:+ " already exists"))
  else
    u <- UndefinedType ;;
    assignBinding this n (mkBinding u ∅ false false (Some false)).

(** [initializeImmutableBinding(n, v)] *)
Definition DeclarativeEnvironmentRecord_initializeImmutableBinding (this : EnvRef)
    (n : string) (v : Ref) : M unit :=
  r <- read (fun st => envRecs st !! this) ;;
  let uninitialized :=
    InternalError ("Could not initialize immutable value: binding " +:+ quoted n
                   +:+ " has either been initialized already or is not an immutable value") in
  match _bindings r !! n with
  | Some b =>
      if negb (flag_eq (isInitialized b) (Some false)) then throw uninitialized
      else setBinding this n (mkBinding v (b_alternateValues b) (isDeletable b)
                                (isMutable b) (Some true))
  | None =>
      if objectPrototypeHas n then throw uninitialized
      else throw (InternalError ("Could not initialize immutable value: binding "
                                 +:+ quoted n +:+ " does not exist"))
  end.

(** [ObjectEnvironmentRecord.prototype.hasBinding(n)] *)
Definition ObjectEnvironmentRecord_hasBinding (this : EnvRef) (n : string) : M bool :=
  o <- read (fun st => r ← envRecs st !! this; _bindingObject r) ;;
  ObjectType_hasProperty o n.

(** [ObjectEnvironmentRecord.prototype.createMutableBinding(n, d,
    suppressEvent)] *)
Definition ObjectEnvironmentRecord_createMutableBinding (this : EnvRef) (n : string)
    (d suppressEvent : bool) : M unit :=
  o <- read (fun st => r ← envRecs st !! this; _bindingObject r) ;;
  has <- ObjectType_hasProperty o n ;;
  if (has : bool) then
    throw (InternalError ("Internal Error: could not create mutable binding: binding "
                          +:+ quoted n +:+ " already exists"))
  else
    u <- UndefinedType ;;
    defineOwnProperty_ callFunction StringToNumber o n (dataDescriptor u true true d)
      true suppressEvent.

(** [ObjectEnvironmentRecord.prototype.getBindingValue(n, s)] *)
Definition ObjectEnvironmentRecord_getBindingValue (this : EnvRef) (n : string) (s : bool)
  : M Ref :=
  o <- read (fun st => r ← envRecs st !! this; _bindingObject r) ;;
  has <- ObjectType_hasProperty o n ;;
  if negb has then
    if s then
      handleRecoverableNativeException "ReferenceError" ("Property " +:+ n +:+ " does not exist") ;;
      UnknownType
    else UndefinedType
  else ObjectType_get callFunction o n.

(** [ObjectEnvironmentRecord.prototype.deleteBinding(n)] *)
Definition ObjectEnvironmentRecord_deleteBinding (this : EnvRef) (n : string) : M bool :=
  o <- read (fun st => r ← envRecs st !! this; _bindingObject r) ;;
  ObjectType_delete o n false.

(** [envRec.hasBinding(n)], by the class of the record. *)
Definition EnvironmentRecord_hasBinding (e : EnvRef) (n : string) : M bool :=
  r <- read (fun st => envRecs st !! e) ;;
  match _bindingObject r with
  | Some _ => ObjectEnvironmentRecord_hasBinding e n
  | None => read (DeclarativeEnvironmentRecord_hasBinding e n)
  end.

(** [new ReferenceType()] followed by the three assignments of
    [getIdentifierReference]. *)
Definition set_reference (b : Base) (name : string) (strictRef : bool) (x : BaseType)
  : BaseType :=
  mkBaseType (isArrayType x) (callable x) (className x) (type x) (_closure x) (value x)
    (_properties x) (extensible x) (proto x) (dontCreatePrototype x) (protoName x)
    (Some b) name strictRef.

Definition setReference (r : Ref) (b : Base) (name : string) (strictRef : bool) : M unit :=
  x <- read (fun st => heap st !! r) ;;
  modify (fun st => set_heap (<[r := set_reference b name strictRef x]> (heap st)) st).

(** [getIdentifierReference(lex, name, strict)] for a defined [lex]. *)
Fixpoint getIdentifierReference_from (lex : LexicalEnvironment) (name : string)
    (strict : bool) : M Ref :=
  match lex with
  | mkLexicalEnvironment _ e out =>
      has <- EnvironmentRecord_hasBinding e name ;;
      if (has : bool) then
        newRef <- ReferenceType None EmptyString false ;;
        setReference newRef (BaseEnvRec e) name strict ;;
        ret newRef
      else
        match out with
        | Some o => getIdentifierReference_from o name strict
        | None =>
            newRef <- ReferenceType None EmptyString false ;;
            u <- UndefinedType ;;
            setReference newRef (BaseValue u) name strict ;;
            ret newRef
        end
  end.

Definition getIdentifierReference (lex : option LexicalEnvironment) (name : string)
    (strict : bool) : M Ref :=
  match lex with
  | Some l => getIdentifierReference_from l name strict
  | None =>
      newRef <- ReferenceType None EmptyString false ;;
      u <- UndefinedType ;;
      setReference newRef (BaseValue u) name strict ;;
      ret newRef
  end.

(** ** getValue (base/types/reference) *)

(** The inline [get] that [getValue] builds for a reference with a
    primitive base; it goes through [toObject], whose wrappers are not
    represented. *)
Variable getPrimitiveBase : Ref -> string -> M Ref.

(** [v.strict] for a function value [v]: whether its code is strict; the
    field belongs to [FunctionType]. *)
Variable strictFunction : Ref -> State -> option bool.

(** [FunctionTypeBase.prototype.get(p)] *)
Definition FunctionTypeBase_get (this : Ref) (p : string) : M Ref :=
  v <- ObjectType_get callFunction this p ;;
  x <- read (fun st => heap st !! v) ;;
  forbidden <- (if String.eqb p "caller" && String.eqb (className x) "Function"
                then read (strictFunction v) else ret false) ;;
  if (forbidden : bool) then
    handleRecoverableNativeException "TypeError" ("Invalid identifier " +:+ p) ;;
    UnknownType
  else ret v.

(** [getValue(v)] *)
Definition getValue (v : Ref) : M Ref :=
  ty <- read (typeOf v) ;;
  if negb (type_eqb ty TReference) then ret v
  else
    x <- read (fun st => heap st !! v) ;;
    unresolvable <- read (isUnresolvableReference v) ;;
    if (unresolvable : bool) then
      handleRecoverableNativeException "ReferenceError"
        (quoted (referencedName x) +:+ " is not defined") ;;
      UnknownType
    else
      property <- read (isPropertyReference v) ;;
      if (property : bool) then
        prim <- read (hasPrimitiveBase v) ;;
        match baseValue x with
        | Some (BaseValue b) =>
            if (prim : bool) then getPrimitiveBase b (referencedName x)
            else
              bx <- read (fun st => heap st !! b) ;;
              if callable bx then FunctionTypeBase_get b (referencedName x)
              else ObjectType_get callFunction b (referencedName x)
        | _ => throw HostTypeError
        end
      else
        match baseValue x with
        | Some (BaseEnvRec e) =>
            r <- read (fun st => envRecs st !! e) ;;
            match _bindingObject r with
            | Some _ => ObjectEnvironmentRecord_getBindingValue e (referencedName x)
                          (strictReference x)
            | None => DeclarativeEnvironmentRecord_getBindingValue e (referencedName x)
                        (strictReference x)
            end
        | _ => throw HostTypeError
        end.

End EnvironmentRecords.

(** ** throwNativeException (base/exceptions) *)

Section Throwing.

Variable callFunction : Ref -> option Ref -> list Ref -> M (option Ref).
Variable getPrimitiveBase : Ref -> string -> M Ref.
Variable strictFunction : Ref -> State -> option bool.

(** [exc.construct(args)]: the [construct] method of the value found, which
    like [callFunction] runs code that is not represented here; a host
    TypeError when the value has no such method, [None] when the method
    returns [undefined]. *)
Variable construct : Ref -> list Ref -> M (option Ref).

(** [throwNativeException(exceptionType, message)].  [fuel] bounds the
    calls of [throwNativeException] that the lookup of the constructor
    makes in turn. *)
Fixpoint throwNativeException_at (fuel : nat) : NativeExceptions :=
  fun exceptionType message =>
    match fuel with
    | O => fun _ => Unfinished
    | S fuel' =>
        g <- read getGlobalContext ;;
        ctx <- read (fun st => contexts st !! g) ;;
        ref <- getIdentifierReference (Some (variableEnvironment ctx)) exceptionType false ;;
        exc <- getValue (nativeExceptions := throwNativeException_at fuel')
                 callFunction getPrimitiveBase strictFunction ref ;;
        s <- StringType message ;;
        e <- construct exc [s] ;;
        throwException e
    end.

End Throwing.
(** ** Sample values and states *)

Definition sampleOptions : Options := mkOptions false true true.

Definition sampleLocation : Location := mkLocation "app.js" 1.

Definition objectCell (cl : Closure) (ext : bool) (ps : list Property) : BaseType :=
  mkBaseType false false "Object" TObject cl RUndefined (Some ps) ext None false
    (Some "Object") None EmptyString false.

Definition arrayCell (cl : Closure) (ext : bool) (ps : list Property) : BaseType :=
  mkBaseType true false "Array" TObject cl RUndefined (Some ps) ext None false
    (Some "Array") None EmptyString false.

Definition numberCell (cl : Closure) (n : number) : BaseType :=
  mkBaseType false false "Number" TNumber cl (RNum n) None false None false
    (Some "Number") None EmptyString false.

Definition unknownCell (cl : Closure) : BaseType :=
  mkBaseType false false "Unknown" TUnknown cl RUndefined None false None false None
    None EmptyString false.

Definition undefinedCell (cl : Closure) : BaseType :=
  mkBaseType false false "Undefined" TUndefined cl RUndefined None false None false None
    None EmptyString false.

Definition referenceCell (cl : Closure) (b : Base) (name : string) (strictRef : bool) : BaseType :=
  mkBaseType false false "Reference" TReference cl RUndefined None false None false None
    (Some b) name strictRef.

Definition declarativeRecord (bs : gmap string Binding) (skipped : list nat) : EnvironmentRecord :=
  mkEnvironmentRecord bs None false skipped.

(** A context whose scope chain is the single lexical environment [id] over
    the environment record [er]. *)
Definition contextOver (id : nat) (er : EnvRef) (ambiguousBlock : Z) : ExecutionContext :=
  let lex := mkLexicalEnvironment id er None in
  mkExecutionContext lex lex None false ambiguousBlock false.

Definition stateOf (h : list BaseType) (cs : list ExecutionContext)
    (ers : list EnvironmentRecord) (stack : list CtxRef) (g : option Ref) (tc : Z) : State :=
  mkState h cs ers stack 0 g ∅ tc 0 sampleOptions [] None false false sampleLocation.

(** Functions are never called in the sample runs. *)
Definition noCall : Ref -> option Ref -> list Ref -> M (option Ref) :=
  fun _ _ _ => throw HostTypeError.
Definition noPrimitivePut : Ref -> string -> Ref -> bool -> M unit :=
  fun _ _ _ _ => throw HostTypeError.
Definition noStrings : string -> number := fun _ => NaN.
Definition noPrimitiveGet : Ref -> string -> M Ref := fun _ _ => throw HostTypeError.
Definition noStrictFunctions : Ref -> State -> option bool := fun _ _ => Some false.
Definition noConstruct : Ref -> list Ref -> M (option Ref) := fun _ _ => throw HostTypeError.

(** [throwNativeException] in the sample runs. *)
#[global] Instance sampleExceptions : NativeExceptions :=
  throwNativeException_at noCall noPrimitiveGet noStrictFunctions noConstruct 2.

(** The completion of an operation that fires [e] once the call that
    completed as [c] has returned, and passes its exception on otherwise. *)
Definition followedBy (c : Completion unit) (e : Event) : Completion unit :=
  match c with
  | Normal _ st => Normal tt (set_events (events st ++ [e]) st)
  | Abrupt err st => Abrupt err st
  | Unfinished => Unfinished
  end.

(** The completion of a call that does not return, as that of its caller. *)
Definition thrown {A} (c : Completion Empty_set) : Completion A :=
  match c with
  | Normal a _ => match a with end
  | Abrupt e st => Abrupt e st
  | Unfinished => Unfinished
  end.

(** Two zeros of opposite sign and two NaNs. *)
Definition zerosAndNaNs : State :=
  stateOf [numberCell NoClosure Number.zero; numberCell NoClosure Number.neg_zero;
           numberCell NoClosure NaN; numberCell NoClosure NaN] [] [] [] None 0.

(** One context, not in skipped mode, inside a [try] block. *)
Definition insideTry : State :=
  stateOf [] [contextOver 0 0 0] [declarativeRecord ∅ []] [0%nat] None 1.

(** A non-extensible object without properties (0), an Unknown value (1)
    and the number 7 (2), all created in the only context. *)
Definition frozenHeap : list BaseType :=
  [objectCell (ContextClosure 0) false []; unknownCell (ContextClosure 0);
   numberCell (ContextClosure 0) (Number.of_N 7)].

Definition frozenObject : State :=
  stateOf frozenHeap [contextOver 0 0 0] [declarativeRecord ∅ []] [0%nat] None 0.

(** The same, inside an ambiguous block. *)
Definition frozenObjectAmbiguous : State :=
  stateOf frozenHeap [contextOver 0 0 1] [declarativeRecord ∅ []] [0%nat] None 0.

(** An Unknown value and a Reference. *)
Definition unknownAndReference : State :=
  stateOf [unknownCell NoClosure; undefinedCell NoClosure;
           referenceCell NoClosure (BaseValue 1) "x" false] [] [] [] None 0.

(** The integer that a finite number with a non-negative exponent denotes,
    sign apart. *)
Definition magnitude (m : N) (e : Z) : Z := Z.of_N m * 2 ^ e.

(** The integers that [toInt32] produces: below [2^32] in absolute value
    and below [2^31]. *)
Definition small (x : number) : Prop :=
  match x with
  | Finite s m e => 0 <= e /\ magnitude m e < 2 ^ 32 /\ (s = false -> magnitude m e < 2 ^ 31)
  | _ => False
  end.

(** The number -5 * 2^31. *)
Definition bigNegative : State :=
  stateOf [numberCell NoClosure (Finite true 5 31)] [] [] [] None 0.

(** [e._skippedModeStack] for the environment record [e]. *)
Definition skippedModeStack (e : EnvRef) (st : State) : option (list nat) :=
  r ← envRecs st !! e; Some (_skippedModeStack r).

(** A closure run in skipped mode is an engine operation that pairs what it
    enters with what it leaves: however it ends, the current context still
    has the same environment record, with the same skipped-mode stack. *)
Definition balanced {A} (c : M A) : Prop :=
  forall (st : State) (e : EnvRef) (stack : list nat),
    currentEnvRec st = Some e ->
    skippedModeStack e st = Some stack ->
    match c st with
    | Normal _ st' | Abrupt _ st' =>
        currentEnvRec st' = Some e /\ skippedModeStack e st' = Some stack
    | Unfinished => True
    end.

(** A closure that throws an engine exception. *)
Definition throwing : M unit := throw VMException.

(** A global context (0), current, and a second context (1) over a record
    of its own that has not been entered; neither is in skipped mode. *)
Definition beforeCall : State :=
  stateOf [] [contextOver 0 0 0; contextOver 1 1 0]
    [declarativeRecord ∅ []; declarativeRecord ∅ []] [0%nat] None 0.

(** The binding [n] of the declarative record [e]. *)
Definition bindingIn (e : EnvRef) (n : string) (st : State) : option Binding :=
  o ← bindingOf e n st; o.

(** A function context (1) entered from a global context (0) that is in
    skipped mode; the variable [x] of the function holds the value 0 and is
    assigned the number 7 (value 1), both created in the function. *)
Definition calledWhileSkipped : State :=
  stateOf [undefinedCell (ContextClosure 1); numberCell (ContextClosure 1) (Number.of_N 7)]
    [contextOver 0 0 0; contextOver 1 1 0]
    [declarativeRecord ∅ [1%nat];
     declarativeRecord {[ "x" := mkBinding 0%nat ∅ false true None ]} []]
    [0%nat; 1%nat] None 0.

(** The host values a well-formed instance of the three primitive value
    types holds. *)
Definition wellTyped (x : BaseType) : Prop :=
  match type x with
  | TBoolean => exists b, value x = RBool b
  | TNumber => exists n, value x = RNum n
  | TString => exists s, value x = RStr s
  | _ => True
  end.

(** The primary descriptor of the own property [p] of [o]. *)
Definition ownProperty (o : Ref) (p : string) (st : State) : option Descriptor :=
  match _lookupProperty o p st with
  | Some d => d
  | None => None
  end.

(** Neither [o] nor an object on its prototype chain, none of which is
    Unknown, has a property [p]; [fuel] bounds the length of the chain. *)
Fixpoint lacksProperty (fuel : nat) (o : Ref) (p : string) (st : State) : bool :=
  match fuel with
  | O => false
  | S fuel' =>
      match heap st !! o with
      | None => false
      | Some x =>
          negb (type_eqb (type x) TUnknown)
          && match _properties x with
             | Some ps => negb (isSome (lookupEntry p ps))
             | None => false
             end
          && match objectPrototype o st with
             | Some (Some pr) =>
                 match typeOf pr st with
                 | Some t =>
                     if negb (type_eqb t TNull) && negb (Nat.eqb pr o)
                     then lacksProperty fuel' pr p st
                     else true
                 | None => false
                 end
             | Some None => true
             | None => false
             end
      end
  end.


(** A global context over the global object (0), an Undefined value (1), the
    unresolvable reference to [x] (2, strict or not) and the number 7 (3). *)
Definition globalHeap (strictRef : bool) : list BaseType :=
  [objectCell (ObjectClosure 0) true []; undefinedCell (ContextClosure 0);
   referenceCell (ContextClosure 0) (BaseValue 1) "x" strictRef;
   numberCell (ContextClosure 0) (Number.of_N 7)].

Definition globalState (strictRef : bool) (ambiguousBlock : Z) : State :=
  stateOf (globalHeap strictRef) [contextOver 0 0 ambiguousBlock]
    [mkEnvironmentRecord ∅ (Some 0%nat) false []] [0%nat] (Some 0%nat) 0.

(** A state that differs in nothing the prototype walk reads. *)
Definition sameObjects (st st' : State) : Prop :=
  heap st' = heap st /\ prototypes st' = prototypes st.

(** ** What [defineOwnProperty] leaves as it was *)

(** The instance [c] at [r] and what became of it, [c']: the type and the
    value are the same; for the object [this] whose property [p] is being
    defined so are the closure and the entries of every other property. *)
Definition sameCell (this : Ref) (p : string) (r : Ref) (c c' : BaseType) : Prop :=
  type c' = type c
  /\ value c' = value c
  /\ (r = this ->
      _closure c' = _closure c
      /\ forall ps, _properties c = Some ps ->
           exists ps', _properties c' = Some ps'
                       /\ forall q, q <> p -> lookupEntry q ps' = lookupEntry q ps).

Record preserved (this : Ref) (p : string) (st st' : State) : Prop := mkPreserved {
  preserved_contexts : contexts st' = contexts st;
  preserved_envRecs : envRecs st' = envRecs st;
  preserved_contextStack : contextStack st' = contextStack st;
  preserved_cells :
    forall r c, heap st !! r = Some c ->
      exists c', heap st' !! r = Some c' /\ sameCell this p r c c'
}.

(** An operation that, when it returns, has changed nothing of the above. *)
Definition preserves {A} (this : Ref) (p : string) (c : M A) : Prop :=
  forall st a st', c st = Normal a st' -> preserved this p st st'.

(** An empty array (0) with its length, the number 0 (1), and the number 7
    (2), all created in the only context; [ext] is the [extensible] flag of
    the array and [skipped] the skipped-mode stack of the context. *)
Definition arrayHeap (ext : bool) : list BaseType :=
  [arrayCell (ContextClosure 0) ext [mkProperty "length" (dataDescriptor 1%nat true false false) ∅];
   numberCell (ContextClosure 0) Number.zero;
   numberCell (ContextClosure 0) (Number.of_N 7)].

Definition emptyArray (ext : bool) (skipped : list nat) : State :=
  stateOf (arrayHeap ext) [contextOver 0 0 0] [declarativeRecord ∅ skipped] [0%nat] None 0.

(** An extensible object without properties (0) and the number 7 (1), both
    created in the only context, which is not in skipped mode. *)
Definition plainObject : State :=
  stateOf [objectCell (ContextClosure 0) true []; numberCell (ContextClosure 0) (Number.of_N 7)]
    [contextOver 0 0 0] [declarativeRecord ∅ []] [0%nat] None 0.

(** An object (0) whose property [x] holds the number 7 (1) and is neither
    writable nor configurable, and the number 8 (2). *)
Definition readOnlyProperty : State :=
  stateOf [objectCell (ContextClosure 0) true
             [mkProperty "x" (dataDescriptor 1%nat false true false) ∅];
           numberCell (ContextClosure 0) (Number.of_N 7);
           numberCell (ContextClosure 0) (Number.of_N 8)]
    [contextOver 0 0 0] [declarativeRecord ∅ []] [0%nat] None 0.

(** An object (0) with a configurable property [length] that holds the
    number 0 (1); [skipped] is the skipped-mode stack of the only context. *)
Definition configurableLength (skipped : list nat) : State :=
  stateOf [objectCell (ContextClosure 0) true
             [mkProperty "length" (dataDescriptor 1%nat true false true) ∅];
           numberCell (ContextClosure 0) Number.zero]
    [contextOver 0 0 0] [declarativeRecord ∅ skipped] [0%nat] None 0.

(** The integer that a finite number with a non-negative exponent is. *)
Definition integerOf (x : number) : option Z :=
  match x with
  | Finite s m e =>
      if 0 <=? e then Some ((if s then -1 else 1) * magnitude m e) else None
  | _ => None
  end.

(** No name is inherited by the bindings objects. *)
Definition noInheritedNames : string -> bool := fun _ => false.

(** A record whose immutable binding [f] has not been initialised. *)
Definition uninitializedBinding : State :=
  stateOf [undefinedCell (ContextClosure 0)] [contextOver 0 0 0]
    [declarativeRecord {[ "f" := mkBinding 0%nat ∅ false false (Some false) ]} []]
    [0%nat] None 0.

(** The environment records of a scope chain, innermost first. *)
Fixpoint scopeChain (lex : LexicalEnvironment) : list EnvRef :=
  match lex with
  | mkLexicalEnvironment _ e out =>
      e :: match out with Some o => scopeChain o | None => [] end
  end.

(** [e] is a declarative environment record. *)
Definition declarative (st : State) (e : EnvRef) : bool :=
  match envRecs st !! e with
  | Some r => negb (isSome (_bindingObject r))
  | None => false
  end.

(** The record [e] has a binding of its own for [n]. *)
Definition binds (st : State) (n : string) (e : EnvRef) : bool :=
  match envRecs st !! e with
  | Some r => isSome (_bindings r !! n)
  | None => false
  end.

(** A function scope (record 1, binding [x] to the number 7) inside a
    global scope (record 0, binding [y]). *)
Definition nestedScope : LexicalEnvironment :=
  mkLexicalEnvironment 1 1 (Some (mkLexicalEnvironment 0 0 None)).

Definition nestedScopes : State :=
  stateOf [undefinedCell (ContextClosure 0); numberCell (ContextClosure 1) (Number.of_N 7)]
    [contextOver 0 0 0; mkExecutionContext nestedScope nestedScope None false 0 true]
    [declarativeRecord {[ "y" := mkBinding 0%nat ∅ false true None ]} [];
     declarativeRecord {[ "x" := mkBinding 1%nat ∅ false true None ]} []]
    [0%nat; 1%nat] None 0.

(** A scope whose environment record (0) is an object environment record
    over an empty object (0), as a [with] statement makes it. *)
Definition withScope : State :=
  stateOf [objectCell (ContextClosure 0) true []]
    [contextOver 0 0 0] [mkEnvironmentRecord ∅ (Some 0%nat) false []] [0%nat] None 0.

(** How [throwException] completes on what [construct] gave. *)
Definition raises (c : Completion (option Ref)) : Completion Empty_set :=
  match c with
  | Normal (Some e) st => Abrupt VMException (set_exception (Some e) st)
  | Normal None st => Abrupt HostTypeError st
  | Abrupt err st => Abrupt err st
  | Unfinished => Unfinished
  end.

(** A global context whose variable environment is an object environment
    record over the global object (0); the global object binds [TypeError]
    to the value 1, which stands for the constructor. *)
Definition globalScope : State :=
  stateOf [objectCell (ObjectClosure 0) true
             [mkProperty "TypeError" (dataDescriptor 1%nat true false true) ∅];
           objectCell (ContextClosure 0) true []]
    [contextOver 0 0 0] [mkEnvironmentRecord ∅ (Some 0%nat) false []] [0%nat] (Some 0%nat) 0.

(** A constructor that returns the value 1 whatever it is given. *)
Definition constantConstruct : Ref -> list Ref -> M (option Ref) :=
  fun _ _ => ret (Some 1%nat).

(** An operation that fires events and does nothing else to the trace:
    however it ends, the events fired before it are still there, in order,
    followed by its own. *)
Definition appends {A} (c : M A) : Prop :=
  forall st : State,
    match c st with
    | Normal _ st' | Abrupt _ st' => exists fired, events st' = events st ++ fired
    | Unfinished => True
    end.
(** * Properties *)

(** ** Symbolic execution *)

Ltac len := rewrite ?length_insert, ?length_app; cbn [length]; lia.

Ltac heap_step :=
  first
    [ rewrite list_lookup_insert_eq by len
    | rewrite list_lookup_insert_ne by len
    | rewrite lookup_app_l by len
    | rewrite list_lookup_middle by len ].

Ltac exec_step :=
  first
    [ progress unfold bind, read, ret, modify, throw
    | progress cbn -[lookup insert]
    | match goal with
      | H : ?l = _ |- context [?l] => rewrite H
      end
    | heap_step ].

Ltac exec := repeat exec_step; try reflexivity.

(** The readers, unfolded down to the fields of the state. *)
Ltac unfold_readers :=
  unfold typeOf, valueOf, propertiesOf, _lookupProperty, _isLocal, _isSkippedLocal,
    isAmbiguousBlock, isLocalSkippedMode, getSkippedSection, isSkippedMode, currentContext,
    getCurrentContext, getContextStack, currentEnvRec, getGlobalObject, objectPrototype,
    bindingOf, definedFunction in *.

(** Name the intermediate results of a successful read. *)
Ltac split_reads :=
  repeat match goal with
         | H : ?o ≫= _ = Some _ |- _ =>
             let E := fresh "E" in
             destruct o eqn:E; [cbn -[lookup insert] in H | discriminate H]
         | H : Some _ = Some _ |- _ => injection H as H
         end;
  subst.

Ltac run_step :=
  first
    [ progress unfold bind, read, ret, modify, throw
    | progress unfold_readers
    | progress cbn -[lookup insert]
    | match goal with
      | H : ?l = _ |- context [?l] => rewrite H
      end
    | heap_step ].

Ltac run := repeat run_step; try reflexivity.

Lemma bind_Normal {A B} (c : M A) (k : A -> M B) (st st1 : State) (a : A) :
  c st = Normal a st1 -> bind c k st = k a st1.
Proof. intros H. unfold bind. rewrite H. reflexivity. Qed.

Lemma bind_read {A B} (f : State -> option A) (k : A -> M B) (st : State) (a : A) :
  f st = Some a -> bind (read f) k st = k a st.
Proof. intros H. unfold bind, read. rewrite H. reflexivity. Qed.

(** A call that does not return ends the operation that makes it. *)
Lemma bind_thrown {B} (c : M Empty_set) (k : Empty_set -> M B) (st : State) :
  bind c k st = thrown (c st).
Proof. unfold bind, thrown. destruct (c st) as [[] | |]; reflexivity. Qed.

(** Rewrite the first operation of the goal with its known result. *)
Ltac step_with H := rewrite (bind_Normal _ _ _ _ _ H); cbn -[lookup insert].
Ltac read_with H := rewrite (bind_read _ _ _ _ H); cbn -[lookup insert].

Lemma typeOf_Some (st : State) (o : Ref) (cell : BaseType) :
  heap st !! o = Some cell -> typeOf o st = Some (type cell).
Proof. intros H. unfold typeOf. rewrite H. reflexivity. Qed.

(** ** sameValue *)

(** C7: on Number values [sameValue] is the host [===]: it returns [true]
    for [+0] and [-0] and [false] for two NaNs. *)
Theorem sameValue_signed_zero_and_NaN :
  sameValue (Some 0%nat) (Some 1%nat) zerosAndNaNs = Some true
  /\ sameValue (Some 1%nat) (Some 0%nat) zerosAndNaNs = Some true
  /\ sameValue (Some 2%nat) (Some 3%nat) zerosAndNaNs = Some false.
Proof. repeat split. Qed.

(** ** strictEquals *)

Lemma strict_eq_refl (n : number) : Number.strict_eq n n = negb (Number.isNaN n).
Proof.
  destruct n as [|s|s m e]; cbn.
  - reflexivity.
  - destruct s; reflexivity.
  - unfold Number.strict_eq. cbn. rewrite Z.compare_refl. reflexivity.
Qed.


(** C8, as the code has it: on the six types the [switch] handles,
    [strictEquals(x, x)] is [true] exactly when [x] is not a NaN Number; on
    Unknown and Reference it is [undefined]. *)
Theorem strictEquals_reflexive (st : State) (x : Ref) (cell : BaseType) :
  heap st !! x = Some cell ->
  wellTyped cell ->
  match type cell with
  | TUnknown | TReference => strictEquals x x st = Some None
  | _ => strictEquals x x st = Some (Some true)
         <-> (type cell <> TNumber \/ value cell <> RNum NaN)
  end.
Proof.
  intros Hcell Hwt. unfold strictEquals, typeOf, valueOf. rewrite Hcell. cbn.
  unfold wellTyped in Hwt.
  destruct (type cell) eqn:Hty; cbn; try reflexivity.
  - split; [intros _; left; discriminate | reflexivity].
  - split; [intros _; left; discriminate | reflexivity].
  - destruct Hwt as [b ->]. cbn. rewrite eqb_reflx.
    split; [intros _; left; discriminate | reflexivity].
  - destruct Hwt as [n ->]. cbn. rewrite strict_eq_refl.
    destruct n; cbn; split; intros H; try reflexivity; try discriminate;
      try (right; discriminate).
    destruct H as [H|H]; congruence.
  - destruct Hwt as [s ->]. cbn. rewrite String.eqb_refl.
    split; [intros _; left; discriminate | reflexivity].
  - rewrite Nat.eqb_refl. split; [intros _; left; discriminate | reflexivity].
Qed.

Lemma strictEquals_reflexive_witness :
  heap zerosAndNaNs !! 2%nat = Some (numberCell NoClosure NaN)
  /\ wellTyped (numberCell NoClosure NaN)
  /\ (strictEquals 2%nat 2%nat zerosAndNaNs = Some (Some true)
      <-> (TNumber <> TNumber \/ RNum NaN <> RNum NaN)).
Proof.
  split; [reflexivity | split; [exists NaN; reflexivity |]].
  exact (strictEquals_reflexive zerosAndNaNs 2%nat (numberCell NoClosure NaN) eq_refl
           (ex_intro _ NaN eq_refl)).
Defined.

(** C8 as stated fails on an Unknown value, which is not a Number, and on a
    Reference: the answer is [undefined], not [true]. *)
Lemma strictEquals_unknown_counterexample :
  typeOf 0%nat unknownAndReference = Some TUnknown
  /\ typeOf 2%nat unknownAndReference = Some TReference
  /\ strictEquals 0%nat 0%nat unknownAndReference <> Some (Some true)
  /\ strictEquals 2%nat 2%nat unknownAndReference <> Some (Some true).
Proof. repeat split; discriminate. Qed.

(** ** delete *)

(** C10: [delete] fires [propertyDeleted] before it looks at the property:
    when there is no own property [p] (it returns [true] and removes
    nothing), when the property is removed, and when the property is not
    configurable and the deletion fails, by returning [false] or, with
    [throwFlag], by throwing: [throwNativeException] is called in the state
    in which the event has been fired, and the call ends the deletion. *)
Theorem ObjectType_delete_fires_propertyDeleted `{NativeExceptions} (st : State) (o : Ref)
    (cell : BaseType) (ps : list Property) (p : string) (throwFlag : bool) :
  heap st !! o = Some cell ->
  type cell = TObject ->
  _properties cell = Some ps ->
  let fired := set_events (events st ++ [propertyDeleted o p]) st in
  match lookupEntry p ps with
  | None => ObjectType_delete o p throwFlag st = Normal true fired
  | Some e =>
      if truthy (d_configurable (p_value e)) then
        ObjectType_delete o p throwFlag st
        = Normal true (set_heap (<[o := set_properties (removeEntry p ps) cell]> (heap st)) fired)
      else if throwFlag then
        ObjectType_delete o p throwFlag st
        = thrown (throwNativeException "TypeError" ("Unable to delete " +:+ quoted p) fired)
      else ObjectType_delete o p throwFlag st = Normal false fired
  end.
Proof.
  intros Hcell Hty Hps fired. subst fired.
  unfold ObjectType_delete, ObjectType_getOwnProperty, _lookupProperty, _removeProperty,
    setProperties, propertiesOf, typeOf, fireEvent.
  destruct (lookupEntry p ps) as [e|] eqn:He.
  - replace (d_configurable (p_value e)) with (d_configurable (copyDescriptor (p_value e)))
      by (unfold copyDescriptor; destruct (isDataDescriptor _); reflexivity).
    destruct (truthy (d_configurable (copyDescriptor (p_value e)))) eqn:Hc.
    + exec.
    + destruct throwFlag; exec.
      unfold thrown. destruct (throwNativeException _ _ _) as [[] | |]; reflexivity.
  - exec.
Qed.

Lemma ObjectType_delete_fires_propertyDeleted_witness :
  heap frozenObject !! 0%nat = Some (objectCell (ContextClosure 0) false [])
  /\ ObjectType_delete 0%nat "p" true frozenObject
     = Normal true (set_events [propertyDeleted 0%nat "p"] frozenObject).
Proof.
  split; [reflexivity |].
  exact (ObjectType_delete_fires_propertyDeleted frozenObject 0%nat
           (objectCell (ContextClosure 0) false []) [] "p" true eq_refl eq_refl eq_refl).
Defined.

(** ** handleRecoverableNativeException *)

(** C4: outside skipped mode, with recovery enabled and exact mode
    disabled, [handleRecoverableNativeException] reports the error and
    returns, whatever the try-catch counter is. *)
Theorem handleRecoverableNativeException_ignores_tryCatch `{NativeExceptions} (st : State)
    (exceptionType message : string) :
  isSkippedMode st = Some false ->
  nativeExceptionRecovery (options st) = true ->
  exactMode (options st) = false ->
  handleRecoverableNativeException exceptionType message st
  = Normal tt (set_events (events st ++ [errorReported exceptionType message]) st).
Proof.
  intros Hskipped Hrecovery Hexact.
  unfold handleRecoverableNativeException, reportError, fireEvent. exec.
Qed.

Lemma handleRecoverableNativeException_ignores_tryCatch_witness :
  inTryCatch insideTry = true
  /\ handleRecoverableNativeException "TypeError" "m" insideTry
     = Normal tt (set_events [errorReported "TypeError" "m"] insideTry).
Proof.
  split; [reflexivity |].
  exact (handleRecoverableNativeException_ignores_tryCatch insideTry "TypeError" "m"
           eq_refl eq_refl eq_refl).
Defined.

(** ** defineOwnProperty on a non-extensible object *)


(** C1: on a non-extensible object without a property [p],
    [defineOwnProperty] returns [true] and adds [p] when the value is
    Unknown, and also when the current block is ambiguous. *)
Theorem defineOwnProperty_non_extensible_unknown `{NativeExceptions} :
  extensible (objectCell (ContextClosure 0) false []) = false
  /\ ownProperty 0%nat "p" frozenObject = None
  /\ (exists st',
        ObjectType_defineOwnProperty 0%nat "p" (dataDescriptor 1%nat true true true) false false
          frozenObject = Normal true st'
        /\ isSome (ownProperty 0%nat "p" st') = true)
  /\ isAmbiguousBlock frozenObjectAmbiguous = Some true
  /\ (exists st',
        ObjectType_defineOwnProperty 0%nat "p" (dataDescriptor 2%nat true true true) false false
          frozenObjectAmbiguous = Normal true st'
        /\ isSome (ownProperty 0%nat "p" st') = true).
Proof.
  split; [reflexivity | split; [reflexivity | split; [| split; [reflexivity |]]]].
  - eexists. split; [vm_compute; reflexivity | vm_compute; reflexivity].
  - eexists. split; [vm_compute; reflexivity | vm_compute; reflexivity].
Qed.

(** ** toInt32 *)

Lemma scaled_shift (e0 : Z) (s : bool) (m : N) (e : Z) :
  e0 <= e -> 0 <= e0 ->
  scaled e0 s m e * 2 ^ e0 = (if s then -1 else 1) * magnitude m e.
Proof.
  intros H1 H2. unfold scaled, magnitude.
  replace e with ((e - e0) + e0) at 2 by lia.
  rewrite Z.pow_add_r by lia. ring.
Qed.

Lemma compare_scale (a b c : Z) : 0 < c -> (a ?= b) = (a * c ?= b * c).
Proof.
  intros H. destruct (Z.compare_spec a b); symmetry;
    [apply Z.compare_eq_iff; subst; reflexivity
    | apply Z.compare_lt_iff; nia
    | apply Z.compare_gt_iff; nia].
Qed.

Lemma compare_Finite (s1 : bool) (m1 : N) (e1 : Z) (s2 : bool) (m2 : N) (e2 : Z) :
  0 <= e1 -> 0 <= e2 ->
  compare (Finite s1 m1 e1) (Finite s2 m2 e2)
  = Some ((if s1 then -1 else 1) * magnitude m1 e1 ?= (if s2 then -1 else 1) * magnitude m2 e2).
Proof.
  intros H1 H2. unfold compare. f_equal.
  rewrite (compare_scale _ _ (2 ^ Z.min e1 e2)) by (apply Z.pow_pos_nonneg; lia).
  rewrite !scaled_shift by lia. reflexivity.
Qed.


Lemma magnitude_nonneg m e : 0 <= magnitude m e.
Proof. unfold magnitude. apply Z.mul_nonneg_nonneg; [lia | apply Z.pow_nonneg; lia]. Qed.

Lemma magnitude_mod (m : N) (e k : Z) :
  0 <= e -> 0 < k - e -> magnitude (m mod 2 ^ Z.to_N (k - e)) e < 2 ^ k.
Proof.
  intros He Hk. unfold magnitude.
  assert (Hlt : (m mod 2 ^ Z.to_N (k - e) < 2 ^ Z.to_N (k - e))%N).
  { apply N.mod_lt. apply N.pow_nonzero. discriminate. }
  assert (Hz : Z.of_N (m mod 2 ^ Z.to_N (k - e)) < 2 ^ (k - e)).
  { apply N2Z.inj_lt in Hlt. rewrite N2Z.inj_pow in Hlt. rewrite Z2N.id in Hlt by lia. exact Hlt. }
  replace k with ((k - e) + e) at 2 by lia. rewrite Z.pow_add_r by lia.
  apply Z.mul_lt_mono_pos_r; [apply Z.pow_pos_nonneg; lia | exact Hz].
Qed.

Lemma magnitude_small_mod (m : N) (e k : Z) :
  0 <= e -> 0 < k - e -> magnitude m e < 2 ^ k -> (m mod 2 ^ Z.to_N (k - e))%N = m.
Proof.
  intros He Hk H. apply N.mod_small. unfold magnitude in H.
  replace k with ((k - e) + e) in H at 1 by lia. rewrite Z.pow_add_r in H by lia.
  apply Z.mul_lt_mono_pos_r in H; [| apply Z.pow_pos_nonneg; lia].
  apply N2Z.inj_lt. rewrite N2Z.inj_pow. rewrite Z2N.id by lia. exact H.
Qed.

Lemma magnitude_zero_of_large (m : N) (e k : Z) :
  0 <= k -> k <= e -> magnitude m e < 2 ^ k -> m = 0%N.
Proof.
  intros Hk He H. unfold magnitude in H.
  destruct (N.eq_dec m 0%N) as [->|Hm]; [reflexivity|exfalso].
  assert (2 ^ k <= 2 ^ e) by (apply Z.pow_le_mono_r; lia).
  assert (1 <= Z.of_N m) by lia.
  assert (0 < 2 ^ e) by (apply Z.pow_pos_nonneg; lia).
  nia.
Qed.

Lemma magnitude_pow2 k : magnitude 1 k = 2 ^ k.
Proof. unfold magnitude. change (Z.of_N 1) with 1. ring. Qed.

Lemma ge_pow2 (sg : bool) (m : N) (e k : Z) :
  0 <= e -> 0 <= k ->
  ge (Finite sg m e) (pow2 k) = true <-> sg = false /\ 2 ^ k <= magnitude m e.
Proof.
  intros He Hk. unfold ge, pow2. rewrite compare_Finite by lia.
  rewrite magnitude_pow2. pose proof (magnitude_nonneg m e) as Hm.
  assert (Hp : 0 < 2 ^ k) by (apply Z.pow_pos_nonneg; lia).
  destruct sg.
  - assert (Hc : (-1 * magnitude m e ?= 1 * 2 ^ k) = Lt) by (apply Z.compare_lt_iff; lia).
    rewrite Hc. split; [discriminate | intros [H' _]; discriminate].
  - destruct (Z.compare_spec (1 * magnitude m e) (1 * 2 ^ k)); split;
      try discriminate; try (intros _; split; [reflexivity | lia]); try reflexivity.
    intros [_ H']. lia.
Qed.

(** A significand of at most 53 bits is not rounded. *)
Lemma size_small (m : N) : (m < 2 ^ 53)%N -> (N.size m <= 53)%N.
Proof.
  intros Hm. pose proof (N.size_le m) as Hle.
  destruct (N.le_gt_cases (N.size m) 53) as [H | H]; [exact H | exfalso].
  assert (Hpow : (2 ^ 54 <= 2 ^ N.size m)%N) by (apply N.pow_le_mono_r; lia).
  rewrite N.succ_double_spec in Hle. change (2 ^ 54)%N with (2 * 2 ^ 53)%N in Hpow. lia.
Qed.

Lemma round_small (s : bool) (m : N) (e : Z) :
  (m < 2 ^ 53)%N -> e <= 971 -> round (Finite s m e) = Finite s m e.
Proof.
  intros Hm He. pose proof (size_small m Hm) as Hsize. unfold round.
  replace (Z.to_N (Z.of_N (N.size m) - 53)) with 0%N by lia.
  change (2 ^ 0)%N with 1%N. rewrite N.div_1_r, N.mod_1_r. cbn [N.mul N.ltb N.compare].
  change (2 * 0 <? 1)%N with true. cbn beta iota.
  destruct (Z.gtb_spec (Z.of_N (N.size m) + e + Z.of_N 0) 1024) as [H | H]; [lia |].
  reflexivity.
Qed.

(** Shape of the value before the final range adjustment. *)
Lemma floor_abs_shape (s : bool) (m : N) (e : Z) :
  exists m1 e1, floor (abs (Finite s m e)) = Finite false m1 e1 /\ 0 <= e1
                /\ (m = 0%N -> m1 = 0%N).
Proof.
  unfold abs, floor. destruct (0 <=? e) eqn:He.
  - exists m, e. split; [reflexivity | split; [lia | auto]].
  - exists (m / 2 ^ Z.to_N (- e))%N, 0. split; [reflexivity | split; [lia |]].
    intros ->. apply N.Div0.div_0_l.
Qed.

Lemma toInt32_value_small (s2n : string -> number) (d : number) :
  isFinite d = true -> small (toInt32_value s2n (RNum d)).
Proof.
  destruct d as [| |s m e]; try discriminate. intros _.
  unfold toInt32_value. cbn [raw_to_number isNaN raw_strict_eq orb strict_eq compare].
  destruct (floor_abs_shape s m e) as (m1 & e1 & -> & He1 & _).
  set (sign := if lt _ _ then neg_one else one).
  assert (Hsign : exists sg, sign = Finite sg 1 0) by (subst sign; destruct (lt _ _); eexists; reflexivity).
  destruct Hsign as [sg ->].
  cbn [mul]. rewrite xorb_false_r, N.mul_1_l, Z.add_0_l.
  unfold rem_pow2.
  destruct (32 - e1 <=? 0) eqn:Hk.
  - (* the remainder is a zero *)
    assert (Hge : ge (Finite sg 0 0) (pow2 31) = false).
    { destruct sg; reflexivity. }
    rewrite Hge. cbn. unfold magnitude. cbn. split; [lia | split; [reflexivity | intros _; reflexivity]].
  - apply Z.leb_gt in Hk.
    pose proof (magnitude_mod m1 e1 32 He1 Hk) as Hlt.
    set (m2 := (m1 mod 2 ^ Z.to_N (32 - e1))%N) in *.
    destruct (ge (Finite sg m2 e1) (pow2 31)) eqn:Hge.
    + apply ge_pow2 in Hge; [| lia | lia]. destruct Hge as [-> Hlow].
      unfold sub, opp, pow2, add. cbn [negb].
      assert (Hmin : Z.min e1 32 = e1) by lia. rewrite Hmin.
      unfold scaled. rewrite Z.sub_diag. change (2 ^ 0) with 1.
      set (z := 1 * (Z.of_N m2 * 1) + -1 * (Z.of_N 1 * 2 ^ (32 - e1))).
      assert (Hz : z * 2 ^ e1 = magnitude m2 e1 - 2 ^ 32).
      { subst z. unfold magnitude. replace 32 with ((32 - e1) + e1) at 2 by lia.
        rewrite Z.pow_add_r by lia. change (Z.of_N 1) with 1. ring. }
      assert (Hpos : 0 < 2 ^ e1) by (apply Z.pow_pos_nonneg; lia).
      assert (Hneg : z < 0) by nia.
      destruct (z =? 0) eqn:Hz0; [apply Z.eqb_eq in Hz0; lia|].
      assert (H31 : 2 ^ 32 - 2 ^ 31 = 2 ^ 31) by reflexivity.
      assert (Hone : 1 <= 2 ^ e1) by lia.
      rewrite round_small by (try lia; apply N2Z.inj_lt; rewrite Z2N.id by lia;
                              change (Z.of_N (2 ^ 53)) with (2 ^ 53); nia).
      cbn. split; [lia | split].
      * unfold magnitude. rewrite Z2N.id by lia.
        replace (Z.abs z) with (- z) by lia. nia.
      * assert ((z <? 0) = true) by (apply Z.ltb_lt; lia). congruence.
    + cbn. split; [lia | split; [exact Hlt |]]. intros ->.
      destruct (Z_lt_le_dec (magnitude m2 e1) (2 ^ 31)) as [Hc|Hc]; [exact Hc|].
      assert (Hge' : ge (Finite false m2 e1) (pow2 31) = true) by (apply ge_pow2; [lia | lia | auto]).
      congruence.
Qed.

Lemma lt_zero (s : bool) (m : N) (e : Z) :
  0 <= e -> lt (Finite s m e) zero = (s && negb (magnitude m e =? 0)).
Proof.
  intros He. unfold lt, zero. rewrite compare_Finite by lia.
  pose proof (magnitude_nonneg m e) as Hm.
  change (magnitude 0 0) with 0. rewrite Z.mul_0_r.
  destruct s; cbn [andb].
  - destruct (Z.eqb_spec (magnitude m e) 0) as [->|Hne]; [reflexivity|].
    assert (Hc : (-1 * magnitude m e ?= 0) = Lt) by (apply Z.compare_lt_iff; lia).
    rewrite Hc. reflexivity.
  - destruct (Z.compare_spec (1 * magnitude m e) 0); try reflexivity. lia.
Qed.

Lemma strict_eq_Finite (s1 s2 : bool) (m1 m2 : N) (e1 e2 : Z) :
  0 <= e1 -> 0 <= e2 ->
  (if s1 then -1 else 1) * magnitude m1 e1 = (if s2 then -1 else 1) * magnitude m2 e2 ->
  strict_eq (Finite s1 m1 e1) (Finite s2 m2 e2) = true.
Proof.
  intros H1 H2 H. unfold strict_eq. rewrite compare_Finite by lia.
  rewrite H, Z.compare_refl. reflexivity.
Qed.

Lemma toInt32_value_fixed (s2n : string -> number) (x : number) :
  small x -> strict_eq (toInt32_value s2n (RNum x)) x = true.
Proof.
  destruct x as [| |s m e]; try contradiction. intros (He & H32 & H31).
  unfold toInt32_value. cbn [raw_to_number isNaN raw_strict_eq orb strict_eq compare].
  rewrite lt_zero by exact He.
  unfold abs, floor. assert (Hle : (0 <=? e) = true) by (apply Z.leb_le; exact He). rewrite Hle.
  set (sg := s && negb (magnitude m e =? 0)).
  assert (Hsign : (if sg then neg_one else one) = Finite sg 1 0) by (destruct sg; reflexivity).
  rewrite Hsign. cbn [mul]. rewrite xorb_false_r, N.mul_1_l, Z.add_0_l.
  pose proof (magnitude_nonneg m e) as Hm.
  assert (Hsg : (if sg then -1 else 1) * magnitude m e = (if s then -1 else 1) * magnitude m e).
  { subst sg. destruct s; cbn [andb]; [|reflexivity].
    destruct (Z.eqb_spec (magnitude m e) 0) as [->|Hne]; reflexivity. }
  unfold rem_pow2. destruct (32 - e <=? 0) eqn:Hk.
  - apply Z.leb_le in Hk.
    assert (Hm0 : m = 0%N) by (apply (magnitude_zero_of_large m e 32); lia).
    subst m. replace (ge (Finite sg 0 0) (pow2 31)) with false by (destruct sg; reflexivity).
    apply strict_eq_Finite; [lia | lia |]. unfold magnitude. cbn. destruct sg, s; reflexivity.
  - apply Z.leb_gt in Hk. rewrite magnitude_small_mod by (try exact H32; lia).
    destruct (ge (Finite sg m e) (pow2 31)) eqn:Hge.
    + apply ge_pow2 in Hge; [| lia | lia]. destruct Hge as [Hs Hlow]. exfalso.
      subst sg. destruct s; [|specialize (H31 eq_refl); lia].
      cbn [andb] in Hs. apply negb_false_iff, Z.eqb_eq in Hs. 
      assert (0 < 2 ^ 31) by (apply Z.pow_pos_nonneg; lia). lia.
    + apply strict_eq_Finite; [lia | lia | exact Hsg].
Qed.

Theorem toInt32_value_idempotent (s2n : string -> number) (d : number) :
  isFinite d = true ->
  strict_eq (toInt32_value s2n (RNum (toInt32_value s2n (RNum d)))) (toInt32_value s2n (RNum d)) = true.
Proof. intros H. apply toInt32_value_fixed, toInt32_value_small, H. Qed.

Lemma toInt32_Number `{NativeExceptions} cf s2n fuel st n cell :
  heap st !! n = Some cell -> type cell = TNumber ->
  exists st',
    toInt32 cf s2n fuel (Some n) st = Normal (length (heap st)) st'
    /\ typeOf (length (heap st)) st' = Some TNumber
    /\ valueOf (length (heap st)) st' = Some (RNum (toInt32_value s2n (value cell))).
Proof.
  intros Hcell Hty. pose proof (lookup_lt_Some _ _ _ Hcell) as Hlt.
  unfold toInt32.
  assert (HtoNumber : exists st1 c1,
             toNumber cf s2n fuel (Some n) st = Normal (length (heap st)) st1
             /\ heap st1 !! length (heap st) = Some c1
             /\ type c1 = TNumber /\ value c1 = value cell).
  { destruct fuel; unfold toNumber, NumberType, alloc, orUndefined, setValue, typeOf, valueOf;
      exec.
    all: eexists _, _; split; [reflexivity|]; exec.
    all: split; [reflexivity|split; reflexivity]. }
  destruct HtoNumber as (st1 & c1 & Hrun & Hc1 & Hty1 & Hv1).
  pose proof (lookup_lt_Some _ _ _ Hc1) as Hlt1.
  unfold bind at 1. rewrite Hrun. unfold typeOf, valueOf, setValue. exec.
  eexists. split; [reflexivity|]. exec. split; reflexivity.
Qed.

(** C9: on a Number whose value is finite, converting the result of
    [toInt32] again yields a Number with an equal ([===]) value. *)
Theorem toInt32_idempotent `{NativeExceptions} cf s2n fuel (st : State) (n : Ref) (cell : BaseType) (d : number) :
  heap st !! n = Some cell ->
  type cell = TNumber ->
  value cell = RNum d ->
  isFinite d = true ->
  exists r1 st1 d1 r2 st2 d2,
    toInt32 cf s2n fuel (Some n) st = Normal r1 st1
    /\ typeOf r1 st1 = Some TNumber /\ valueOf r1 st1 = Some (RNum d1)
    /\ toInt32 cf s2n fuel (Some r1) st1 = Normal r2 st2
    /\ typeOf r2 st2 = Some TNumber /\ valueOf r2 st2 = Some (RNum d2)
    /\ Number.strict_eq d2 d1 = true.
Proof.
  intros Hcell Hty Hval Hfin.
  destruct (toInt32_Number cf s2n fuel st n cell Hcell Hty) as (st1 & Hrun1 & Hty1 & Hval1).
  rewrite Hval in Hval1.
  assert (Hcell1 : exists c1, heap st1 !! length (heap st) = Some c1
                              /\ type c1 = TNumber
                              /\ value c1 = RNum (toInt32_value s2n (RNum d))).
  { unfold typeOf, valueOf in Hty1, Hval1.
    destruct (heap st1 !! length (heap st)) as [c1|]; [|discriminate].
    exists c1. cbn in Hty1, Hval1. split; [reflexivity | split; congruence]. }
  destruct Hcell1 as (c1 & Hc1 & Htc1 & Hvc1).
  destruct (toInt32_Number cf s2n fuel st1 _ c1 Hc1 Htc1) as (st2 & Hrun2 & Hty2 & Hval2).
  rewrite Hvc1 in Hval2.
  exists (length (heap st)), st1, (toInt32_value s2n (RNum d)),
    (length (heap st1)), st2, (toInt32_value s2n (RNum (toInt32_value s2n (RNum d)))).
  repeat (split; [assumption|]).
  apply toInt32_value_idempotent, Hfin.
Qed.

Lemma toInt32_idempotent_witness :
  heap bigNegative !! 0%nat = Some (numberCell NoClosure (Finite true 5 31))
  /\ isFinite (Finite true 5 31) = true
  /\ exists r1 st1 d1 r2 st2 d2,
       toInt32 noCall noStrings 0 (Some 0%nat) bigNegative = Normal r1 st1
       /\ typeOf r1 st1 = Some TNumber /\ valueOf r1 st1 = Some (RNum d1)
       /\ toInt32 noCall noStrings 0 (Some r1) st1 = Normal r2 st2
       /\ typeOf r2 st2 = Some TNumber /\ valueOf r2 st2 = Some (RNum d2)
       /\ Number.strict_eq d2 d1 = true.
Proof.
  split; [reflexivity | split; [reflexivity |]].
  exact (toInt32_idempotent noCall noStrings 0 bigNegative 0%nat
           (numberCell NoClosure (Finite true 5 31)) (Finite true 5 31)
           eq_refl eq_refl eq_refl eq_refl).
Defined.

(** ** processInSkippedMode *)

Lemma enterSkippedMode_spec (st : State) (e : EnvRef) (stack : list nat) :
  currentEnvRec st = Some e ->
  skippedModeStack e st = Some stack ->
  exists st1,
    enterSkippedMode st = Normal tt st1
    /\ currentEnvRec st1 = Some e
    /\ skippedModeStack e st1 = Some (stack ++ [S (skippedModeCounter st)])
    /\ inRecursionUnroll st1 = inRecursionUnroll st.
Proof.
  intros He Hstack. unfold skippedModeStack in Hstack.
  destruct (envRecs st !! e) as [r|] eqn:Hr; [|discriminate].
  cbn in Hstack. injection Hstack as Hstack.
  pose proof (lookup_lt_Some _ _ _ Hr) as Hlt.
  unfold enterSkippedMode. exec. eexists. split; [reflexivity|].
  unfold currentEnvRec, currentContext, getCurrentContext, skippedModeStack in *.
  exec. repeat split; congruence.
Qed.

Lemma exitSkippedMode_spec (st : State) (e : EnvRef) (stack : list nat) (n : nat) :
  currentEnvRec st = Some e ->
  skippedModeStack e st = Some (stack ++ [n]) ->
  exists st',
    exitSkippedMode st = Normal tt st'
    /\ currentEnvRec st' = Some e
    /\ skippedModeStack e st' = Some stack.
Proof.
  intros He Hstack. unfold skippedModeStack in Hstack.
  destruct (envRecs st !! e) as [r|] eqn:Hr; [|discriminate].
  cbn in Hstack. injection Hstack as Hstack.
  pose proof (lookup_lt_Some _ _ _ Hr) as Hlt.
  unfold exitSkippedMode. exec. eexists. split; [reflexivity|].
  unfold currentEnvRec, currentContext, getCurrentContext, skippedModeStack in *.
  exec. rewrite removelast_last. split; reflexivity.
Qed.

Lemma runClosures_balanced {A} (closures : list (M A)) :
  Forall balanced closures ->
  forall (result : option A) (st : State) (e : EnvRef) (stack : list nat),
    currentEnvRec st = Some e ->
    skippedModeStack e st = Some stack ->
    match runClosures closures result st with
    | Completed _ st' | Thrown _ _ st' =>
        currentEnvRec st' = Some e /\ skippedModeStack e st' = Some stack
    | TryUnfinished => True
    end.
Proof.
  induction 1 as [|c rest Hc Hrest IH]; intros result st e stack He Hstack; cbn.
  - split; assumption.
  - specialize (Hc st e stack He Hstack).
    destruct (c st) as [a st'|err st'|]; [|exact Hc|exact I].
    destruct Hc as [He' Hstack']. apply IH; assumption.
Qed.

(** C3, as the code has it: in a file that is not blacklisted, with
    closures that are balanced (each leaves the current context with the
    environment record and the skipped-mode stack it found), the
    exception of a closure is swallowed exactly when it carries
    [isCodeProcessorException] and the engine is not unrolling recursion, and
    whether the closures complete, throw a swallowed exception or throw one
    that is propagated, the skipped-mode stack of the current environment
    record is the one from before the call. *)
Theorem processInSkippedMode_restores_stack {A} (closures : list (M A)) (st : State)
    (e : EnvRef) (stack : list nat) :
  Forall balanced closures ->
  currentFileBlacklisted st = false ->
  currentEnvRec st = Some e ->
  skippedModeStack e st = Some stack ->
  exists st1,
    enterSkippedMode st = Normal tt st1
    /\ skippedModeStack e st1 = Some (stack ++ [S (skippedModeCounter st)])
    /\ match runClosures closures None st1 with
       | Completed result _ =>
           exists st3, processInSkippedMode closures st = Normal result st3
                       /\ currentEnvRec st3 = Some e
                       /\ skippedModeStack e st3 = Some stack
       | Thrown result err st2 =>
           exists st3, processInSkippedMode closures st
                       = (if inRecursionUnroll st2 || negb (isCodeProcessorException err)
                          then Abrupt err st3 else Normal result st3)
                       /\ currentEnvRec st3 = Some e
                       /\ skippedModeStack e st3 = Some stack
       | TryUnfinished => processInSkippedMode closures st = Unfinished
       end.
Proof.
  intros Hbalanced Hfile He Hstack.
  destruct (enterSkippedMode_spec st e stack He Hstack) as (st1 & Henter & He1 & Hstack1 & _).
  exists st1. split; [exact Henter | split; [exact Hstack1 |]].
  pose proof (runClosures_balanced closures Hbalanced None st1 e _ He1 Hstack1) as Hrun.
  unfold processInSkippedMode. rewrite Hfile, Henter.
  destruct (runClosures closures None st1) as [result st2|result err st2|]; [| |reflexivity].
  - destruct Hrun as [He2 Hstack2].
    destruct (exitSkippedMode_spec st2 e stack _ He2 Hstack2) as (st3 & Hexit & He3 & Hstack3).
    exists st3. unfold finallyExit. rewrite Hexit. repeat split; assumption.
  - destruct Hrun as [He2 Hstack2].
    destruct (exitSkippedMode_spec st2 e stack _ He2 Hstack2) as (st3 & Hexit & He3 & Hstack3).
    exists st3. unfold finallyExit.
    destruct (inRecursionUnroll st2 || negb (isCodeProcessorException err));
      rewrite Hexit; repeat split; assumption.
Qed.

Lemma throwing_balanced : balanced throwing.
Proof. intros st e stack He Hstack. split; assumption. Qed.

Lemma processInSkippedMode_restores_stack_witness :
  currentFileBlacklisted insideTry = false
  /\ currentEnvRec insideTry = Some 0%nat
  /\ skippedModeStack 0%nat insideTry = Some []
  /\ exists st1,
      enterSkippedMode insideTry = Normal tt st1
      /\ skippedModeStack 0%nat st1 = Some ([] ++ [S (skippedModeCounter insideTry)])
      /\ match runClosures [throwing] None st1 with
         | Completed result _ =>
             exists st3, processInSkippedMode [throwing] insideTry = Normal result st3
                         /\ currentEnvRec st3 = Some 0%nat
                         /\ skippedModeStack 0%nat st3 = Some []
         | Thrown result err st2 =>
             exists st3, processInSkippedMode [throwing] insideTry
                         = (if inRecursionUnroll st2 || negb (isCodeProcessorException err)
                            then Abrupt err st3 else Normal result st3)
                         /\ currentEnvRec st3 = Some 0%nat
                         /\ skippedModeStack 0%nat st3 = Some []
         | TryUnfinished => processInSkippedMode [throwing] insideTry = Unfinished
         end.
Proof.
  split; [reflexivity | split; [reflexivity | split; [reflexivity |]]].
  exact (processInSkippedMode_restores_stack [throwing] insideTry 0%nat []
           (Forall_cons_2 _ _ _ throwing_balanced (Forall_nil_2 _)) eq_refl eq_refl eq_refl).
Defined.

(** C3 as stated fails for a closure that leaves another context current,
    here one that enters the context 1 and does not leave it: the [finally]
    block pops the stack of the record of that context, and the id pushed on
    entry stays on the stack of the record it was pushed on. *)
Lemma processInSkippedMode_unbalanced_counterexample :
  currentFileBlacklisted beforeCall = false
  /\ currentEnvRec beforeCall = Some 0%nat
  /\ skippedModeStack 0%nat beforeCall = Some []
  /\ exists st3,
      processInSkippedMode [enterContext 1%nat] beforeCall = Normal (Some tt) st3
      /\ skippedModeStack 0%nat st3 = Some [1%nat].
Proof.
  split; [reflexivity | split; [reflexivity | split; [reflexivity |]]].
  eexists. split; vm_compute; reflexivity.
Qed.

(** ** setMutableBinding *)

Lemma isSkippedMode_loop_false cs ers (stack : list CtxRef) :
  isSkippedMode_loop cs ers stack = Some false ->
  forall c, c ∈ stack -> skippedModeStackOf cs ers c = Some [].
Proof.
  induction stack as [|c0 rest IH]; cbn; intros H c Hc.
  - inversion Hc.
  - destruct (skippedModeStackOf cs ers c0) as [stk|] eqn:Hstk; [|discriminate]. cbn in H.
    destruct stk as [|x stk]; cbn in H; [|discriminate].
    apply elem_of_cons in Hc as [->|Hc]; [exact Hstk | apply IH; assumption].
Qed.

Lemma isLocalSkippedMode_of_isSkippedMode (st : State) (local : bool) :
  isSkippedMode st = Some false -> isLocalSkippedMode st = Some local -> local = false.
Proof.
  unfold isSkippedMode, isLocalSkippedMode, getCurrentContext, getContextStack.
  intros Hall Hlocal.
  destruct (last (contextStack st)) as [c|] eqn:Hlast; [|discriminate]. cbn in Hlocal.
  assert (Hin : c ∈ contextStack st).
  { apply last_Some in Hlast as [l' ->]. apply elem_of_app. right. apply list_elem_of_singleton. reflexivity. }
  rewrite (isSkippedMode_loop_false _ _ _ Hall c Hin) in Hlocal. cbn in Hlocal. congruence.
Qed.

Lemma _isSkippedLocal_loop_true cs ers (target : option LexicalEnvironment)
    (stack : list CtxRef) (l : bool) :
  (forall c, c ∈ stack -> skippedModeStackOf cs ers c = Some []) ->
  _isSkippedLocal_loop cs ers target stack = Some l -> l = true.
Proof.
  induction stack as [|c rest IH]; cbn; intros Hall H.
  - congruence.
  - destruct (cs !! c) as [ctx|]; [|discriminate]. cbn in H.
    destruct (same_lex target (Some (lexicalEnvironment ctx))); [congruence|].
    rewrite (Hall c) in H by (apply elem_of_cons; left; reflexivity). cbn in H.
    apply IH; [|exact H]. intros c' Hc'. apply Hall. apply elem_of_cons. right. exact Hc'.
Qed.

Lemma _isSkippedLocal_of_isSkippedMode (st : State) (this : Ref) (l : bool) :
  isSkippedMode st = Some false -> _isSkippedLocal this st = Some l -> l = true.
Proof.
  unfold isSkippedMode, _isSkippedLocal, getContextStack. intros Hall H.
  destruct (heap st !! this) as [x|]; [|discriminate]. cbn in H.
  destruct (closureLexicalEnvironment (contexts st) (_closure x)) as [target|]; [|discriminate].
  cbn in H. eapply _isSkippedLocal_loop_true; [|exact H].
  intros c Hc. apply (isSkippedMode_loop_false _ _ _ Hall).
  apply list_elem_of_In, in_rev, list_elem_of_In. exact Hc.
Qed.

(** C2, as the code has it: the write goes to [alternateValues], under the
    current skipped-section id, when the current context is in skipped mode
    or the value the binding holds is not skipped-local, and to the primary
    slot otherwise, in particular whenever no context is in skipped mode.
    What is written is a new Unknown if [v] is Unknown, the held value is not
    local to its closure or the block is ambiguous, and [v] otherwise; in
    exact mode, which refuses to create an Unknown, the call throws in
    the first case and writes nothing. *)
Theorem setMutableBinding_routes `{NativeExceptions} (st : State) (e : EnvRef) (n : string)
    (b : Binding) (v : Ref) (s : bool) (tv : TypeName) (local skl loc amb : bool)
    (section : option nat) :
  bindingIn e n st = Some b ->
  isMutable b = true ->
  typeOf v st = Some tv ->
  isLocalSkippedMode st = Some local ->
  _isSkippedLocal (b_value b) st = Some skl ->
  _isLocal (b_value b) st = Some loc ->
  isAmbiguousBlock st = Some amb ->
  getSkippedSection st = Some section ->
  let diverted := local || negb skl in
  let unknown := type_eqb tv TUnknown || negb loc || amb in
  let x := if unknown then length (heap st) else v in
  (isSkippedMode st = Some false -> diverted = false)
  /\ if unknown && exactMode (options st) then
       exists message,
         DeclarativeEnvironmentRecord_setMutableBinding e n v s st
         = Abrupt (InternalError message) st
     else
       exists st',
         DeclarativeEnvironmentRecord_setMutableBinding e n v s st = Normal tt st'
         /\ bindingIn e n st'
            = Some (if diverted
                    then mkBinding (b_value b) (<[section := x]> (b_alternateValues b))
                           (isDeletable b) (isMutable b) (isInitialized b)
                    else mkBinding x (b_alternateValues b)
                           (isDeletable b) (isMutable b) (isInitialized b))
         /\ (unknown = true -> typeOf x st' = Some TUnknown).
Proof.
  intros Hb Hmut Htv Hlocal Hskl Hloc Hamb Hsec diverted unknown x.
  unfold bindingIn in Hb.
  destruct (bindingOf e n st) as [[b0|]|] eqn:Hbo; try discriminate.
  cbn in Hb. injection Hb as ->.
  assert (Hrec : exists r, envRecs st !! e = Some r /\ _bindings r !! n = Some b).
  { unfold bindingOf in Hbo. destruct (envRecs st !! e) as [r|]; [|discriminate].
    exists r. cbn in Hbo. split; congruence. }
  destruct Hrec as (r & Hr & Hrn).
  pose proof (lookup_lt_Some _ _ _ Hr) as Hlt.
  split.
  { intros Hall. subst diverted.
    rewrite (isLocalSkippedMode_of_isSkippedMode st local Hall Hlocal).
    rewrite (_isSkippedLocal_of_isSkippedMode st _ skl Hall Hskl). reflexivity. }
  subst diverted unknown x.
  unfold DeclarativeEnvironmentRecord_setMutableBinding, bindsUnknown,
    DeclarativeEnvironmentRecord_getBindingValue, UnknownType, alloc, setBinding,
    bindingIn, bindingOf in *.
  destruct (exactMode (options st)) eqn:Hexact;
    destruct local, skl, (type_eqb tv TUnknown) eqn:Htu, loc, amb; cbn [orb andb negb];
    lazymatch goal with
    | |- exists message, _ = Abrupt _ _ => eexists; exec
    | |- _ =>
        exec; (eexists; split; [reflexivity |]); exec; rewrite lookup_insert_eq;
        (split; [reflexivity
                | intros Hu; cbn in Hu; try discriminate Hu; unfold typeOf; exec])
    end.
Qed.

Lemma setMutableBinding_routes_witness :
  bindingIn 1%nat "x" calledWhileSkipped = Some (mkBinding 0%nat ∅ false true None)
  /\ isLocalSkippedMode calledWhileSkipped = Some false
  /\ _isSkippedLocal 0%nat calledWhileSkipped = Some true
  /\ (isSkippedMode calledWhileSkipped = Some false -> false = false)
  /\ exists st',
      DeclarativeEnvironmentRecord_setMutableBinding 1%nat "x" 1%nat false calledWhileSkipped
      = Normal tt st'
      /\ bindingIn 1%nat "x" st' = Some (mkBinding 1%nat ∅ false true None)
      /\ (false = true -> typeOf 1%nat st' = Some TUnknown).
Proof.
  split; [reflexivity | split; [reflexivity | split; [reflexivity |]]].
  exact (setMutableBinding_routes calledWhileSkipped 1%nat "x"
           (mkBinding 0%nat ∅ false true None) 1%nat false TNumber false true true false
           (Some 1%nat) eq_refl eq_refl eq_refl eq_refl eq_refl eq_refl eq_refl eq_refl).
Defined.

(** C2 as stated fails in a function called while an outer context is in
    skipped mode: skipped mode is active, and assigning to a variable of the
    function replaces the primary value and leaves [alternateValues] empty. *)
Lemma setMutableBinding_skipped_counterexample :
  isSkippedMode calledWhileSkipped = Some true
  /\ bindingIn 1%nat "x" calledWhileSkipped = Some (mkBinding 0%nat ∅ false true None)
  /\ exists st',
      DeclarativeEnvironmentRecord_setMutableBinding 1%nat "x" 1%nat false calledWhileSkipped
      = Normal tt st'
      /\ b_value <$> bindingIn 1%nat "x" st' = Some 1%nat
      /\ b_alternateValues <$> bindingIn 1%nat "x" st' = Some ∅.
Proof.
  split; [reflexivity | split; [reflexivity |]].
  eexists. split; [vm_compute; reflexivity | split; vm_compute; reflexivity].
Qed.


(** ** putValue on an unresolvable reference *)


Lemma _updateClosure_loop_undefined (l : LexicalEnvironment) :
  _updateClosure_loop None l = false.
Proof.
  revert l. fix IH 1. intros [id er [o|]]; cbn; [apply IH | reflexivity].
Qed.

Lemma ObjectType_getOwnProperty_absent (o : Ref) (p : string) (st : State) (x : BaseType)
    (ps : list Property) :
  heap st !! o = Some x ->
  type_eqb (type x) TUnknown = false ->
  _properties x = Some ps ->
  lookupEntry p ps = None ->
  ObjectType_getOwnProperty o p st = Normal None st.
Proof.
  intros Hx Hty Hps Hp.
  unfold ObjectType_getOwnProperty, typeOf, _lookupProperty, propertiesOf. exec.
Qed.

Lemma lacksProperty_unfold (fuel : nat) (o : Ref) (p : string) (st : State) :
  lacksProperty (S fuel) o p st = true ->
  exists x ps,
    heap st !! o = Some x
    /\ type_eqb (type x) TUnknown = false
    /\ _properties x = Some ps
    /\ lookupEntry p ps = None
    /\ match objectPrototype o st with
       | Some (Some pr) =>
           exists t, typeOf pr st = Some t
                     /\ (negb (type_eqb t TNull) && negb (Nat.eqb pr o) = true ->
                         lacksProperty fuel pr p st = true)
       | Some None => True
       | None => False
       end.
Proof.
  cbn. destruct (heap st !! o) as [x|] eqn:Hx; [|discriminate].
  intros H. apply andb_prop in H as [H Hproto]. apply andb_prop in H as [Hty Hps].
  destruct (_properties x) as [ps|] eqn:Hpsx; [|discriminate].
  exists x, ps. split; [reflexivity | split; [apply negb_true_iff; exact Hty | split; [exact Hpsx |]]].
  split; [destruct (lookupEntry p ps); [discriminate | reflexivity] |].
  destruct (objectPrototype o st) as [[pr|]|]; [| exact I | discriminate].
  destruct (typeOf pr st) as [t|]; [|discriminate].
  exists t. split; [reflexivity |]. intros Hc. rewrite Hc in Hproto. exact Hproto.
Qed.


Lemma ObjectType_getProperty_loop_absent (n : nat) :
  forall (o : Ref) (p : string) (st : State),
    lacksProperty n o p st = true ->
    forall (m : nat) (st' : State),
      (n <= m)%nat -> sameObjects st st' ->
      ObjectType_getProperty_loop m o p st' = Normal None st'.
Proof.
  induction n as [|n IH]; intros o p st Hlacks m st' Hle [Hheap Hprotos]; [discriminate|].
  destruct m as [|m]; [lia|].
  destruct (lacksProperty_unfold n o p st Hlacks) as (x & ps & Hx & Hty & Hps & Hp & Hproto).
  cbn [ObjectType_getProperty_loop]. unfold bind at 1.
  rewrite (ObjectType_getOwnProperty_absent o p st' x ps) by (try rewrite Hheap; assumption).
  assert (Hop : objectPrototype o st' = objectPrototype o st)
    by (unfold objectPrototype; rewrite Hheap, Hprotos; reflexivity).
  unfold bind, read. rewrite Hop.
  destruct (objectPrototype o st) as [[pr|]|]; [| reflexivity | contradiction].
  destruct Hproto as (t & Ht & Hrec).
  assert (Ht' : typeOf pr st' = Some t) by (unfold typeOf in *; rewrite Hheap; exact Ht).
  rewrite Ht'.
  destruct (negb (type_eqb t TNull) && negb (Nat.eqb pr o)) eqn:Hc; [|reflexivity].
  apply (IH pr p st (Hrec eq_refl)); [lia | split; assumption].
Qed.

Lemma ObjectType_getProperty_absent (n : nat) (o : Ref) (p : string) (st st' : State) :
  lacksProperty n o p st = true ->
  (n <= S (length (heap st)))%nat ->
  sameObjects st st' ->
  ObjectType_getProperty o p st' = Normal None st'.
Proof.
  intros Hlacks Hle Hsame. unfold ObjectType_getProperty.
  apply (ObjectType_getProperty_loop_absent n o p st Hlacks); [|exact Hsame].
  destruct Hsame as [-> _]. exact Hle.
Qed.

Lemma ObjectType_canPut_absent (n : nat) (g : Ref) (p : string) (st st' : State)
    (x : BaseType) :
  lacksProperty (S n) g p st = true ->
  (n <= length (heap st))%nat ->
  sameObjects st st' ->
  heap st !! g = Some x ->
  extensible x = true ->
  ObjectType_canPut g p st' = Normal (CanPutValue true) st'.
Proof.
  intros Hlacks Hle Hsame Hx Hext.
  destruct (lacksProperty_unfold n g p st Hlacks) as (x' & ps & Hx' & Hty & Hps & Hp & Hproto).
  rewrite Hx in Hx'. injection Hx' as <-.
  pose proof Hsame as [Hheap Hprotos].
  unfold ObjectType_canPut. unfold bind at 1.
  rewrite (ObjectType_getOwnProperty_absent g p st' x ps) by (try rewrite Hheap; assumption).
  assert (Hop : objectPrototype g st' = objectPrototype g st)
    by (unfold objectPrototype; rewrite Hheap, Hprotos; reflexivity).
  unfold bind, read. rewrite Hheap, Hx, Hop.
  destruct (objectPrototype g st) as [[pr|]|]; [| rewrite Hext; reflexivity | contradiction].
  destruct Hproto as (t & Ht & Hrec).
  assert (Ht' : typeOf pr st' = Some t) by (unfold typeOf in *; rewrite Hheap; exact Ht).
  rewrite Ht'.
  destruct (type_eqb t TNull) eqn:Hnull.
  - destruct t; try discriminate. cbn. rewrite Hext. reflexivity.
  - destruct (Nat.eqb pr g) eqn:Hself.
    + apply Nat.eqb_eq in Hself. subst pr.
      assert (t = type x) by (unfold typeOf in Ht; rewrite Hx in Ht; cbn in Ht; congruence).
      subst t. rewrite Hty.
      rewrite (ObjectType_getProperty_absent (S n) g p st st' Hlacks) by (assumption || lia).
      rewrite Hext. reflexivity.
    + cbn in Hrec. specialize (Hrec eq_refl).
      destruct n as [|n]; [discriminate|].
      destruct (lacksProperty_unfold n pr p st Hrec) as (xp & _ & Hxp & Htyp & _).
      assert (t = type xp) by (unfold typeOf in Ht; rewrite Hxp in Ht; cbn in Ht; congruence).
      subst t. rewrite Htyp.
      rewrite (ObjectType_getProperty_absent (S n) pr p st st' Hrec) by (assumption || lia).
      rewrite Hext. reflexivity.
Qed.

Lemma lookupEntry_updateEntry_new (p : string) (f : Property -> Property)
    (ps : list Property) (e : Property) :
  lookupEntry p ps = None ->
  p_name e = p ->
  p_name (f e) = p ->
  lookupEntry p (updateEntry p f (ps ++ [e])) = Some (f e).
Proof.
  intros Hp He Hfe. induction ps as [|e0 rest IH]; cbn in *.
  - rewrite He, String.eqb_refl. cbn. rewrite Hfe, String.eqb_refl. reflexivity.
  - destruct (String.eqb (p_name e0) p) eqn:Hn; [discriminate|].
    cbn. rewrite Hn. apply IH. exact Hp.
Qed.

(** Defining a new data property on the global object, outside ambiguous
    and skipped mode. *)
Lemma ObjectType_defineOwnProperty_new `{NativeExceptions} (st : State) (g w : Ref) (name : string)
    (gcell wcell : BaseType) (ps : list Property) (lexw : option LexicalEnvironment)
    (throwFlag : bool) :
  heap st !! g = Some gcell ->
  type_eqb (type gcell) TUnknown = false ->
  _properties gcell = Some ps ->
  lookupEntry name ps = None ->
  extensible gcell = true ->
  _closure gcell = ObjectClosure g ->
  heap st !! w = Some wcell ->
  type_eqb (type wcell) TUnknown = false ->
  closureLexicalEnvironment (contexts st) (_closure wcell) = Some lexw ->
  _isLocal w st = Some true ->
  isAmbiguousBlock st = Some false ->
  isLocalSkippedMode st = Some false ->
  _isSkippedLocal g st = Some true ->
  exists st',
    ObjectType_defineOwnProperty g name (dataDescriptor w true true true) throwFlag false st
    = Normal true st'
    /\ ownProperty g name st' = Some (dataDescriptor w true true true)
    /\ events st' = events st ++ [propertyDefined g name].
Proof.
  intros Hg Htg Hps Hp Hext Hcl Hw Htw Hlexw Hloc Hamb Hlocal Hskl.
  pose proof (lookup_lt_Some _ _ _ Hg) as Hgl.
  pose proof (lookup_lt_Some _ _ _ Hw) as Hwl.
  unfold_readers. rewrite Hg, Hw in *. cbn -[lookup insert] in *.
  rewrite Hcl, Hlexw in *. cbn -[lookup insert] in *. split_reads.
  unfold ObjectType_defineOwnProperty, ObjectType_getOwnProperty, updateClosureOf,
    _updateClosure, storesUnknown, DataPropertyDescriptor, UndefinedType, alloc, fireEvent,
    _addProperty, setProperties, reject, ownProperty.
  run.
  destruct lexw as [l0|]; [rewrite _updateClosure_loop_undefined|]; run.
  all: eexists; split; [reflexivity|]; run.
  all: rewrite lookupEntry_updateEntry_new by (assumption || reflexivity).
  all: split; reflexivity.
Qed.

Lemma ObjectType_put_new `{NativeExceptions} cf s2n (st : State) (g w : Ref) (name : string)
    (gcell wcell : BaseType) (lexw : option LexicalEnvironment) :
  heap st !! g = Some gcell ->
  isArrayType gcell = false ->
  extensible gcell = true ->
  _closure gcell = ObjectClosure g ->
  lacksProperty (S (length (heap st))) g name st = true ->
  heap st !! w = Some wcell ->
  type_eqb (type wcell) TUnknown = false ->
  closureLexicalEnvironment (contexts st) (_closure wcell) = Some lexw ->
  _isLocal w st = Some true ->
  isAmbiguousBlock st = Some false ->
  isLocalSkippedMode st = Some false ->
  _isSkippedLocal g st = Some true ->
  exists st',
    ObjectType_put cf s2n g name w false false st = Normal tt st'
    /\ ownProperty g name st' = Some (dataDescriptor w true true true)
    /\ events st' = events st ++ [propertySet g name w; propertyDefined g name].
Proof.
  intros Hg Harr Hext Hcl Hlacks Hw Htw Hlexw Hloc Hamb Hlocal Hskl.
  destruct (lacksProperty_unfold _ g name st Hlacks) as (x' & ps & Hx' & Htg & Hps & Hp & _).
  rewrite Hg in Hx'. injection Hx' as <-.
  set (st1 := set_events (events st ++ [propertySet g name w]) st).
  assert (Hsame : sameObjects st st1) by (split; reflexivity).
  destruct (ObjectType_defineOwnProperty_new st1 g w name gcell wcell ps lexw false)
    as (st' & Hrun & Hown & Hev); try assumption.
  exists st'. split; [| split; [exact Hown |]].
  - unfold ObjectType_put, defineOwnProperty_, fireEvent.
    step_with (ObjectType_canPut_absent (length (heap st)) g name st st gcell Hlacks
                 (le_n _) (conj eq_refl eq_refl) Hg Hext).
    fold st1.
    step_with (ObjectType_getOwnProperty_absent g name st1 gcell ps Hg Htg Hps Hp).
    step_with (ObjectType_getProperty_absent _ g name st st1 Hlacks (le_n _) Hsame).
    read_with (Hg : (fun s => heap s !! g) st1 = Some gcell).
    rewrite Harr. step_with Hrun. reflexivity.
  - rewrite Hev. subst st1. cbn. rewrite <- app_assoc. reflexivity.
Qed.

(** C5, as the code has it: for every Reference whose base is Undefined
    and every value [w], [putValue] calls [throwNativeException] with a
    ReferenceError, a call that ends it, when the reference is strict;
    otherwise it puts the value on the global object and, when [put]
    returns, fires [undeclaredGlobalVariableCreated], an exception of [put]
    being passed on.  When moreover the global object is extensible and its
    own closure, neither it nor its prototype chain has the property, the
    value [w] is not Unknown and is local, the block is not ambiguous and
    no context is in skipped mode, the global object ends with the data
    property [{value: w, writable: true, enumerable: true, configurable:
    true}], after the events [propertySet], [propertyDefined] and
    [undeclaredGlobalVariableCreated]. *)
Theorem putValue_unresolvable `{NativeExceptions} cf s2n ppb (st : State) (v w b g : Ref)
    (vcell : BaseType) :
  heap st !! v = Some vcell ->
  type vcell = TReference ->
  baseValue vcell = Some (BaseValue b) ->
  typeOf b st = Some TUndefined ->
  getGlobalObject st = Some g ->
  let name := referencedName vcell in
  (if strictReference vcell then
     putValue cf s2n ppb v w st
     = thrown (throwNativeException "ReferenceError" (name +:+ " is not resolvable") st)
   else
     putValue cf s2n ppb v w st
     = followedBy (ObjectType_put cf s2n g name w false false st)
         (undeclaredGlobalVariableCreated name))
  /\ forall (gcell wcell : BaseType) (lexw : option LexicalEnvironment) (local skl : bool),
       strictReference vcell = false ->
       heap st !! g = Some gcell ->
       isArrayType gcell = false ->
       extensible gcell = true ->
       _closure gcell = ObjectClosure g ->
       lacksProperty (S (length (heap st))) g name st = true ->
       heap st !! w = Some wcell ->
       type_eqb (type wcell) TUnknown = false ->
       closureLexicalEnvironment (contexts st) (_closure wcell) = Some lexw ->
       _isLocal w st = Some true ->
       isAmbiguousBlock st = Some false ->
       isSkippedMode st = Some false ->
       isLocalSkippedMode st = Some local ->
       _isSkippedLocal g st = Some skl ->
       exists st',
         putValue cf s2n ppb v w st = Normal tt st'
         /\ ownProperty g name st' = Some (dataDescriptor w true true true)
         /\ events st' = events st ++ [propertySet g name w; propertyDefined g name;
                                       undeclaredGlobalVariableCreated name].
Proof.
  intros Hv Htv Hbase Hb Hglobal name.
  assert (Hunres : (fun st0 : State =>
                      heap st0 !! v ≫= fun x : BaseType =>
                        match baseValue x with
                        | Some (BaseValue b1) =>
                            typeOf b1 st0 ≫= fun t : TypeName => Some (type_eqb t TUndefined)
                        | Some (BaseEnvRec _) => Some false
                        | None => None
                        end) st = Some true)
    by (cbn -[lookup insert]; rewrite Hv; cbn -[lookup insert]; rewrite Hbase, Hb; reflexivity).
  assert (Hgeneral :
            strictReference vcell = false ->
            putValue cf s2n ppb v w st
            = bind (ObjectType_put cf s2n g name w false false)
                (fun _ => fireEvent (undeclaredGlobalVariableCreated name)) st).
  { intros Hstrict. unfold putValue, isUnresolvableReference.
    read_with (typeOf_Some _ _ _ Hv). rewrite Htv. cbn -[lookup insert].
    read_with (Hv : (fun s => heap s !! v) st = Some vcell).
    read_with Hunres. rewrite Hstrict. cbn -[lookup insert].
    read_with Hglobal. reflexivity. }
  split.
  - destruct (strictReference vcell) eqn:Hstrict.
    + unfold putValue, isUnresolvableReference.
      read_with (typeOf_Some _ _ _ Hv). rewrite Htv. cbn -[lookup insert].
      read_with (Hv : (fun s => heap s !! v) st = Some vcell).
      read_with Hunres. rewrite Hstrict. cbn -[lookup insert].
      unfold bind, thrown. subst name.
      destruct (throwNativeException _ _ _) as [[] | |]; reflexivity.
    + rewrite (Hgeneral eq_refl). unfold bind, fireEvent, modify, followedBy.
      destruct (ObjectType_put cf s2n g name w false false st) as [[] | |]; reflexivity.
  - intros gcell wcell lexw local skl Hstrict Hg Harr Hext Hcl Hlacks Hw Htw Hlexw Hloc Hamb
      Hskipped Hlocal Hskl.
    pose proof (isLocalSkippedMode_of_isSkippedMode st local Hskipped Hlocal) as ->.
    pose proof (_isSkippedLocal_of_isSkippedMode st g skl Hskipped Hskl) as ->.
    destruct (ObjectType_put_new cf s2n st g w name gcell wcell lexw)
      as (st' & Hrun & Hown & Hev); try assumption.
    exists (set_events (events st' ++ [undeclaredGlobalVariableCreated name]) st').
    split; [| split].
    + rewrite (Hgeneral Hstrict). unfold fireEvent. step_with Hrun. reflexivity.
    + exact Hown.
    + cbn. rewrite Hev, <- app_assoc. reflexivity.
Qed.

Lemma putValue_unresolvable_witness :
  isUnresolvableReference 2%nat (globalState false 0) = Some true
  /\ isAmbiguousBlock (globalState false 0) = Some false
  /\ isSkippedMode (globalState false 0) = Some false
  /\ exists st',
      putValue noCall noStrings noPrimitivePut 2%nat 3%nat (globalState false 0) = Normal tt st'
      /\ ownProperty 0%nat "x" st' = Some (dataDescriptor 3%nat true true true)
      /\ events st' = [] ++ [propertySet 0%nat "x" 3%nat; propertyDefined 0%nat "x";
                             undeclaredGlobalVariableCreated "x"].
Proof.
  split; [reflexivity | split; [reflexivity | split; [reflexivity |]]].
  exact (proj2 (putValue_unresolvable noCall noStrings noPrimitivePut (globalState false 0)
                  2%nat 3%nat 1%nat 0%nat
                  (referenceCell (ContextClosure 0) (BaseValue 1) "x" false)
                  eq_refl eq_refl eq_refl eq_refl eq_refl)
           (objectCell (ObjectClosure 0) true [])
           (numberCell (ContextClosure 0) (Number.of_N 7))
           (Some (mkLexicalEnvironment 0 0 None)) false true
           eq_refl eq_refl eq_refl eq_refl eq_refl eq_refl eq_refl eq_refl eq_refl eq_refl
           eq_refl eq_refl eq_refl eq_refl).
Defined.

(** C5 as stated fails inside an ambiguous block: the binding created on
    the global object holds a new Unknown value, not [w]. *)
Lemma putValue_ambiguous_counterexample :
  isUnresolvableReference 2%nat (globalState false 1) = Some true
  /\ isAmbiguousBlock (globalState false 1) = Some true
  /\ exists st' u,
      putValue noCall noStrings noPrimitivePut 2%nat 3%nat (globalState false 1) = Normal tt st'
      /\ d_value <$> ownProperty 0%nat "x" st' = Some (Some u)
      /\ u <> 3%nat
      /\ typeOf u st' = Some TUnknown.
Proof.
  split; [reflexivity | split; [reflexivity |]].
  eexists _, _. split; [vm_compute; reflexivity |].
  split; [vm_compute; reflexivity | split; [discriminate | vm_compute; reflexivity]].
Qed.

(** ** The frame of [defineOwnProperty] *)

Lemma sameCell_refl this p r c : sameCell this p r c c.
Proof.
  split; [reflexivity | split; [reflexivity |]].
  intros _. split; [reflexivity |]. intros ps Hps. exists ps. split; [exact Hps | reflexivity].
Qed.

Lemma sameCell_trans this p r c1 c2 c3 :
  sameCell this p r c1 c2 -> sameCell this p r c2 c3 -> sameCell this p r c1 c3.
Proof.
  intros (Ht & Hv & H12) (Ht' & Hv' & H23).
  split; [congruence | split; [congruence |]].
  intros Hr. destruct (H12 Hr) as [Hc Hp], (H23 Hr) as [Hc' Hp'].
  split; [congruence |].
  intros ps Hps. destruct (Hp ps Hps) as (ps2 & Hps2 & Hq).
  destruct (Hp' ps2 Hps2) as (ps3 & Hps3 & Hq').
  exists ps3. split; [exact Hps3 |]. intros q Hne. rewrite Hq', Hq by exact Hne. reflexivity.
Qed.

Lemma preserved_refl this p st : preserved this p st st.
Proof.
  split; try reflexivity. intros r c Hr. exists c. split; [exact Hr | apply sameCell_refl].
Qed.

Lemma preserved_trans this p st1 st2 st3 :
  preserved this p st1 st2 -> preserved this p st2 st3 -> preserved this p st1 st3.
Proof.
  intros [Hc He Hs Hh] [Hc' He' Hs' Hh'].
  split; try congruence.
  intros r c Hr. destruct (Hh r c Hr) as (c2 & Hr2 & H12).
  destruct (Hh' r c2 Hr2) as (c3 & Hr3 & H23).
  exists c3. split; [exact Hr3 | eapply sameCell_trans; eassumption].
Qed.

Lemma preserved_events this p st es : preserved this p st (set_events es st).
Proof.
  split; try reflexivity. intros r c Hr. exists c. split; [exact Hr | apply sameCell_refl].
Qed.

Lemma preserved_alloc this p st x : preserved this p st (set_heap (heap st ++ [x]) st).
Proof.
  split; try reflexivity. intros r c Hr. exists c. split; [| apply sameCell_refl].
  cbn. apply lookup_app_l_Some, Hr.
Qed.

Lemma preserved_insert this p st r c c' :
  heap st !! r = Some c -> sameCell this p r c c' ->
  preserved this p st (set_heap (<[r := c']> (heap st)) st).
Proof.
  intros Hr Hsame. split; try reflexivity. intros r' x Hr'. cbn.
  destruct (decide (r' = r)) as [-> | Hne].
  - exists c'. split.
    + apply list_lookup_insert_eq. eapply lookup_lt_Some, Hr.
    + rewrite Hr in Hr'. injection Hr' as <-. exact Hsame.
  - exists x. split; [| apply sameCell_refl].
    rewrite list_lookup_insert_ne by congruence. exact Hr'.
Qed.

Lemma preserves_ret {A} this p (a : A) : preserves this p (ret a).
Proof. intros st b st' H. injection H as _ <-. apply preserved_refl. Qed.

Lemma preserves_read {A} this p (f : State -> option A) : preserves this p (read f).
Proof.
  intros st b st' H. unfold read in H. destruct (f st); [| discriminate H].
  injection H as _ <-. apply preserved_refl.
Qed.

Lemma preserves_throw {A} this p (e : HostError) : preserves this p (throw e : M A).
Proof. intros st b st' H. discriminate H. Qed.

Lemma preserves_bind {A B} this p (c : M A) (k : A -> M B) :
  preserves this p c -> (forall a, preserves this p (k a)) -> preserves this p (bind c k).
Proof.
  intros Hc Hk st b st' H. unfold bind in H.
  destruct (c st) as [a st1 | |] eqn:E; try discriminate H.
  eapply preserved_trans; [eapply Hc, E | eapply Hk, H].
Qed.

Lemma preserves_fireEvent this p (e : Event) : preserves this p (fireEvent e).
Proof. intros st b st' H. injection H as _ <-. apply preserved_events. Qed.

Lemma preserves_alloc this p (mk : Closure -> BaseType) : preserves this p (alloc mk).
Proof. intros st b st' H. injection H as _ <-. apply preserved_alloc. Qed.

Create HintDb frame.

(** Goals of the form [preserves this p c], by the structure of [c]. *)
Ltac frame_step :=
  first
    [ apply preserves_ret
    | apply preserves_read
    | apply preserves_throw
    | apply preserves_fireEvent
    | apply preserves_alloc
    | solve [auto 1 with frame nocore]
    | apply preserves_bind; [| intros ?]
    | match goal with
      | |- preserves _ _ (if ?b then _ else _) => destruct b
      | |- preserves _ _ (match ?x with _ => _ end) => destruct x
      end ].

Ltac frame := repeat frame_step.

Lemma preserves_UndefinedType this p : preserves this p UndefinedType.
Proof. apply preserves_alloc. Qed.

#[local] Hint Resolve preserves_UndefinedType : frame.

Lemma preserves_UnknownType this p : preserves this p UnknownType.
Proof. unfold UnknownType. frame. Qed.

#[local] Hint Resolve preserves_UnknownType : frame.

Lemma preserves_DataPropertyDescriptor this p : preserves this p DataPropertyDescriptor.
Proof. unfold DataPropertyDescriptor. frame. Qed.

#[local] Hint Resolve preserves_DataPropertyDescriptor : frame.

(** An operation that does not return preserves whatever one likes. *)
Lemma preserves_thrown this p (c : M Empty_set) : preserves this p c.
Proof. intros st a. destruct a. Qed.

#[local] Hint Resolve preserves_thrown : frame.

Lemma preserves_handleRecoverableNativeException `{NativeExceptions} this p
    (kind message : string) :
  preserves this p (handleRecoverableNativeException kind message).
Proof.
  unfold handleRecoverableNativeException, reportError. frame.
Qed.

#[local] Hint Resolve preserves_handleRecoverableNativeException : frame.

Lemma preserves_reject `{NativeExceptions} this p (throwFlag : bool) (message : string) :
  preserves this p (reject throwFlag message).
Proof.
  unfold reject. frame.
Qed.

#[local] Hint Resolve preserves_reject : frame.

Lemma preserves_updateClosureOf this p (v : Ref) : preserves this p (updateClosureOf this v).
Proof.
  unfold updateClosureOf, _updateClosure.
  intros st b st' H. unfold bind, read, modify, ret in H.
  destruct (heap st !! this) as [x |] eqn:Hx; [| discriminate H].
  destruct (heap st !! v) as [y |] eqn:Hy; [| discriminate H].
  destruct (closureLexicalEnvironment (contexts st) (_closure y)) as [lex |]; [| discriminate H].
  destruct (closureLexicalEnvironment (contexts st) (_closure x)) as [target |]; [| discriminate H].
  destruct lex as [l |].
  - destruct (_updateClosure_loop target l); injection H as _ <-.
    + eapply preserved_insert; [exact Hy |].
      split; [reflexivity | split; [reflexivity |]].
      intros ->. rewrite Hx in Hy. injection Hy as <-.
      split; [reflexivity |]. intros ps Hps. exists ps. split; [exact Hps | reflexivity].
    + apply preserved_refl.
  - injection H as _ <-. apply preserved_refl.
Qed.

#[local] Hint Resolve preserves_updateClosureOf : frame.

Lemma preserves_storesUnknown this p (v : Ref) : preserves this p (storesUnknown v).
Proof. unfold storesUnknown. frame. Qed.

#[local] Hint Resolve preserves_storesUnknown : frame.

Lemma preserves_getOwnProperty this p (o : Ref) (q : string) :
  preserves this p (ObjectType_getOwnProperty o q).
Proof.
  unfold ObjectType_getOwnProperty. frame.
Qed.

#[local] Hint Resolve preserves_getOwnProperty : frame.

Lemma lookupEntry_app_other (q p : string) (ps : list Property) (e : Property) :
  p_name e = p -> q <> p -> lookupEntry q (ps ++ [e]) = lookupEntry q ps.
Proof.
  intros He Hne. induction ps as [| x ps IH]; cbn.
  - rewrite He. destruct (String.eqb_spec p q); [congruence | reflexivity].
  - destruct (String.eqb (p_name x) q); [reflexivity | exact IH].
Qed.

Lemma lookupEntry_updateEntry_other (q p : string) (f : Property -> Property)
    (ps : list Property) :
  (forall e, p_name (f e) = p_name e) -> q <> p ->
  lookupEntry q (updateEntry p f ps) = lookupEntry q ps.
Proof.
  intros Hf Hne. induction ps as [| x ps IH]; cbn; [reflexivity |].
  destruct (String.eqb_spec (p_name x) p) as [Hx | Hx]; cbn.
  - rewrite Hf. destruct (String.eqb_spec (p_name x) q); [congruence | reflexivity].
  - destruct (String.eqb (p_name x) q); [reflexivity | exact IH].
Qed.

Lemma bind_inv {A B} (c : M A) (k : A -> M B) (st st' : State) (b : B) :
  bind c k st = Normal b st' -> exists a st1, c st = Normal a st1 /\ k a st1 = Normal b st'.
Proof.
  unfold bind. destruct (c st) as [a st1 | |]; try discriminate.
  intros H. exists a, st1. split; [reflexivity | exact H].
Qed.

Lemma read_inv {A} (f : State -> option A) (st st' : State) (a : A) :
  read f st = Normal a st' -> f st = Some a /\ st' = st.
Proof.
  unfold read. destruct (f st); [| discriminate].
  intros H. injection H as -> ->. split; reflexivity.
Qed.

Lemma setProperties_preserved this p (ps ps' : list Property) (st st' : State) (b : unit) :
  propertiesOf this st = Some ps ->
  (forall q, q <> p -> lookupEntry q ps' = lookupEntry q ps) ->
  setProperties this ps' st = Normal b st' ->
  preserved this p st st'.
Proof.
  intros Hps Hq H. unfold setProperties, bind, read, modify in H.
  unfold propertiesOf in Hps.
  destruct (heap st !! this) as [x |] eqn:Hx; [| discriminate H].
  injection H as _ <-. cbn in Hps.
  eapply preserved_insert; [exact Hx |].
  split; [reflexivity | split; [reflexivity |]].
  intros _. split; [reflexivity |]. intros ps0 Hx'. exists ps'. split; [reflexivity |].
  rewrite Hx' in Hps. injection Hps as ->. exact Hq.
Qed.

(** [this._properties] rewritten by a function that leaves the entries of
    the properties other than [p] alone. *)
Lemma preserves_rewriteProperties this p (g : list Property -> list Property) :
  (forall ps q, q <> p -> lookupEntry q (g ps) = lookupEntry q ps) ->
  preserves this p (ps <- read (propertiesOf this) ;; setProperties this (g ps)).
Proof.
  intros Hg st b st' H.
  apply bind_inv in H as (ps & st1 & Hread & H). apply read_inv in Hread as [Hps ->].
  eapply setProperties_preserved; [exact Hps | apply Hg | exact H].
Qed.

Lemma preserves__addProperty this p (desc : Descriptor) :
  preserves this p (_addProperty this p desc).
Proof.
  intros st b st' H. unfold _addProperty in H.
  apply bind_inv in H as (ps & st1 & Hread & H). apply read_inv in Hread as [Hps ->].
  apply bind_inv in H as ([] & st1 & Hnew & H).
  assert (Hfirst : preserved this p st st1).
  { destruct (lookupEntry p ps).
    - injection Hnew as <-. apply preserved_refl.
    - apply bind_inv in Hnew as (u & st0 & Halloc & Hset).
      injection Halloc as _ <-.
      eapply preserved_trans; [apply preserved_alloc |].
      eapply setProperties_preserved; [| | exact Hset].
      + unfold propertiesOf in *. cbn.
        destruct (heap st !! this) as [x |] eqn:Hx; [| discriminate Hps].
        erewrite lookup_app_l_Some by exact Hx. exact Hps.
      + intros q Hne. apply (lookupEntry_app_other q p); [reflexivity | exact Hne]. }
  eapply preserved_trans; [exact Hfirst |].
  refine ((_ : preserves this p _) st1 b st' H).
  repeat first
    [ apply preserves_rewriteProperties; intros ps0 q Hne;
      apply lookupEntry_updateEntry_other; (reflexivity || exact Hne)
    | frame_step ].
Qed.

#[local] Hint Resolve preserves__addProperty : frame.

Lemma preserves_defineOwnProperty_existing `{NativeExceptions} this p (current desc keys : Descriptor)
    (throwFlag : bool) :
  preserves this p (defineOwnProperty_existing this p current desc keys throwFlag).
Proof. unfold defineOwnProperty_existing. cbv zeta. frame. Qed.

#[local] Hint Resolve preserves_defineOwnProperty_existing : frame.

Lemma preserves_defineOwnProperty `{NativeExceptions} this p (desc : Descriptor) (throwFlag suppressEvent : bool) :
  preserves this p (ObjectType_defineOwnProperty this p desc throwFlag suppressEvent).
Proof. unfold ObjectType_defineOwnProperty. cbv zeta. frame. Qed.

(** ** Array indices and their decimal strings *)

Lemma positiveIntegerRegEx_test_String_of_N (i : N) :
  positiveIntegerRegEx_test (String_of_N i) = true.
Proof.
  unfold positiveIntegerRegEx_test, String_of_N. rewrite NilEmpty.usu. reflexivity.
Qed.

Lemma parseInt10_String_of_N (i : N) :
  (i < 2 ^ 53)%N -> parseInt10 (String_of_N i) = Number.of_N i.
Proof.
  intros Hi. unfold parseInt10, String_of_N. rewrite NilEmpty.usu.
  rewrite DecimalN.Unsigned.of_to.
  assert (Hround : Number.round (Number.of_N i) = Number.of_N i)
    by (apply round_small; [exact Hi | lia]).
  destruct i as [| q]; [reflexivity |].
  pose proof (DecimalPos.Unsigned.to_uint_nonnil q) as Hnil.
  cbn -[Number.round]. destruct (Pos.to_uint q); [contradiction | exact Hround ..].
Qed.

Lemma String_of_N_not_length (i : N) : "length"%string <> String_of_N i.
Proof.
  intros H. pose proof (positiveIntegerRegEx_test_String_of_N i) as Ht.
  rewrite <- H in Ht. discriminate Ht.
Qed.

Lemma add_one (i : N) :
  (i < 2 ^ 53)%N -> Number.add (Number.of_N i) Number.one = Number.of_N (i + 1).
Proof.
  intros Hi. unfold Number.add, Number.of_N, Number.one, scaled.
  rewrite Z.min_id. change (0 - 0) with 0. change (2 ^ 0) with 1.
  replace (1 * (Z.of_N i * 1) + 1 * (Z.of_N 1 * 1)) with (Z.of_N (i + 1)) by lia.
  destruct (Z.eqb_spec (Z.of_N (i + 1)) 0) as [H | _]; [lia |].
  destruct (Z.ltb_spec (Z.of_N (i + 1)) 0) as [H | _]; [lia |].
  replace (Z.to_N (Z.abs (Z.of_N (i + 1)))) with (i + 1)%N by lia.
  destruct (N.eq_dec (i + 1)%N (2 ^ 53)%N) as [-> | Hne]; [vm_compute; reflexivity |].
  apply round_small; lia.
Qed.

Lemma gt_succ (i : N) : Number.gt (Number.of_N (i + 1)) (Number.of_N i) = true.
Proof.
  unfold Number.gt, Number.compare, Number.of_N, scaled.
  rewrite Z.min_id. change (0 - 0) with 0. change (2 ^ 0) with 1.
  destruct (Z.compare_spec (1 * (Z.of_N (i + 1) * 1)) (1 * (Z.of_N i * 1)));
    [lia | lia | reflexivity].
Qed.

(** For numbers other than NaN, [!(x >= y)] is [y > x]. *)
Lemma gt_of_not_ge (x y : number) :
  Number.isNaN x = false -> Number.isNaN y = false ->
  Number.ge x y = false -> Number.gt y x = true.
Proof.
  unfold Number.ge, Number.gt, Number.compare.
  destruct x as [| s1 | s1 m1 e1], y as [| s2 | s2 m2 e2]; try discriminate; intros _ _.
  - destruct s1, s2; (discriminate || reflexivity).
  - destruct s1; (discriminate || reflexivity).
  - destruct s2; (discriminate || reflexivity).
  - rewrite (Z.min_comm e2 e1).
    rewrite (Z.compare_antisym (scaled (Z.min e1 e2) s1 m1 e1)).
    destruct (scaled (Z.min e1 e2) s1 m1 e1 ?= scaled (Z.min e1 e2) s2 m2 e2);
      (discriminate || reflexivity).
Qed.

(** ** Reading a data property *)

Lemma ObjectType_get_data cf (st : State) (o : Ref) (p : string) (c : BaseType)
    (ps : list Property) (e : Property) (r : Ref) :
  heap st !! o = Some c ->
  type_eqb (type c) TUnknown = false ->
  _properties c = Some ps ->
  lookupEntry p ps = Some e ->
  isDataDescriptor (Some (p_value e)) = true ->
  d_value (p_value e) = Some r ->
  ObjectType_get cf o p st
  = Normal r (set_events (events st ++ [propertyReferenced o p (Some (copyDescriptor (p_value e)))]) st).
Proof.
  intros Ho Hty Hps He Hdata Hr.
  unfold ObjectType_get, ObjectType_getProperty, ObjectType_getOwnProperty, fireEvent.
  unfold bind at 1. cbn [ObjectType_getProperty_loop].
  unfold ObjectType_getOwnProperty.
  run. unfold copyDescriptor. rewrite Hdata. cbn -[lookup insert]. rewrite Hr.
  reflexivity.
Qed.

(** ** Skipped mode reads only the contexts and the environment records *)

Lemma isLocalSkippedMode_preserved this p (st st' : State) :
  preserved this p st st' -> isLocalSkippedMode st' = isLocalSkippedMode st.
Proof.
  intros [Hc He Hs _]. unfold isLocalSkippedMode, getCurrentContext. rewrite Hc, He, Hs.
  reflexivity.
Qed.

Lemma _isSkippedLocal_preserved this p (st st' : State) :
  preserved this p st st' -> forall l, _isSkippedLocal this st = Some l ->
  _isSkippedLocal this st' = Some l.
Proof.
  intros [Hc He Hs Hcells] l. unfold _isSkippedLocal, getContextStack.
  destruct (heap st !! this) as [x |] eqn:Hx; [| discriminate].
  destruct (Hcells this x Hx) as (x' & Hx' & _ & _ & Hthis).
  destruct (Hthis eq_refl) as [Hcl _].
  rewrite Hx'. cbn. rewrite Hc, He, Hs, Hcl. trivial.
Qed.

(** ** The length of an array *)

Lemma lookupEntry_updateEntry_same (p : string) (f : Property -> Property)
    (ps : list Property) (e : Property) :
  (forall x, p_name (f x) = p_name x) ->
  lookupEntry p ps = Some e ->
  lookupEntry p (updateEntry p f ps) = Some (f e).
Proof.
  intros Hf. induction ps as [| x ps IH]; cbn; [discriminate |].
  destruct (String.eqb (p_name x) p) eqn:Hx; cbn.
  - intros H. injection H as <-. rewrite Hf, Hx. reflexivity.
  - rewrite Hx. exact IH.
Qed.

(** [_addProperty] on an existing property, outside skipped mode: the
    primary descriptor is replaced. *)
Lemma _addProperty_existing (st : State) (o : Ref) (p : string) (desc : Descriptor)
    (c : BaseType) (ps : list Property) (e : Property) :
  heap st !! o = Some c ->
  _properties c = Some ps ->
  lookupEntry p ps = Some e ->
  isLocalSkippedMode st = Some false ->
  _isSkippedLocal o st = Some true ->
  _addProperty o p desc st
  = Normal tt
      (set_heap
         (<[o := set_properties
                   (updateEntry p (fun x => mkProperty (p_name x) desc (p_alternateValues x)) ps)
                   c]> (heap st)) st).
Proof.
  intros Ho Hps He Hlocal Hskl. unfold _addProperty, setProperties.
  assert (Hprops : propertiesOf o st = Some ps) by (unfold propertiesOf; rewrite Ho; exact Hps).
  read_with Hprops. rewrite He.
  unfold bind, read, ret, modify. rewrite Hlocal, Hskl. cbn -[lookup insert].
  rewrite Hprops, Ho. reflexivity.
Qed.






(** The result of the base operation is not looked at: on a non-extensible
    array the property is rejected and the length grows all the same. *)
Remark ArrayType_defineOwnProperty_after_rejection `{NativeExceptions} :
  exists st1 st' st'' r,
    ObjectType_defineOwnProperty 0%nat (String_of_N 0)
      (dataDescriptor 2%nat true true true) false false (emptyArray false [])
    = Normal false st1
    /\ ArrayType_defineOwnProperty noCall noStrings 0%nat (String_of_N 0)
         (dataDescriptor 2%nat true true true) false false (emptyArray false [])
       = Normal tt st'
    /\ ownProperty 0%nat "0" st' = None
    /\ ObjectType_get noCall 0%nat "length" st' = Normal r st''
    /\ valueOf r st'' = Some (RNum (Number.of_N 1)).
Proof.
  eexists _, _, _, _.
  split; [vm_compute; reflexivity |].
  split; [vm_compute; reflexivity |].
  split; [vm_compute; reflexivity |].
  split; vm_compute; reflexivity.
Qed.

(** * Further properties *)

(** ** Skipped mode *)

(** X1: when the current context is in skipped mode, so is the engine:
    [isLocalSkippedMode()] implies [isSkippedMode()]. *)
Theorem isSkippedMode_of_isLocalSkippedMode (st : State) (b : bool) :
  isLocalSkippedMode st = Some true ->
  isSkippedMode st = Some b ->
  b = true.
Proof.
  intros Hlocal Hall. destruct b; [reflexivity |].
  pose proof (isLocalSkippedMode_of_isSkippedMode st true Hall Hlocal) as H. discriminate H.
Qed.

Lemma isSkippedMode_of_isLocalSkippedMode_witness :
  isLocalSkippedMode (emptyArray true [1%nat]) = Some true
  /\ isSkippedMode (emptyArray true [1%nat]) = Some true
  /\ true = true.
Proof.
  split; [reflexivity | split; [reflexivity |]].
  exact (isSkippedMode_of_isLocalSkippedMode (emptyArray true [1%nat]) true eq_refl eq_refl).
Defined.

Lemma getSkippedSection_loop_none cs ers (stack : list CtxRef) :
  (forall c, c ∈ stack -> skippedModeStackOf cs ers c = Some []) ->
  getSkippedSection_loop cs ers stack = Some None.
Proof.
  induction stack as [| c rest IH]; cbn; intros Hall; [reflexivity |].
  rewrite (Hall c) by (apply elem_of_cons; left; reflexivity). cbn.
  apply IH. intros c' Hc'. apply Hall, elem_of_cons. right. exact Hc'.
Qed.

Lemma isSkippedMode_loop_true cs ers (stack : list CtxRef) :
  isSkippedMode_loop cs ers stack = Some true ->
  exists c x stk, c ∈ stack /\ skippedModeStackOf cs ers c = Some (x :: stk).
Proof.
  induction stack as [| c0 rest IH]; cbn; [discriminate |].
  destruct (skippedModeStackOf cs ers c0) as [[| x stk] |] eqn:Hstk; cbn; try discriminate.
  - intros H. destruct (IH H) as (c & x & stk & Hc & Hs).
    exists c, x, stk. split; [apply elem_of_cons; right; exact Hc | exact Hs].
  - intros _. exists c0, x, stk. split; [apply elem_of_cons; left; reflexivity | exact Hstk].
Qed.

Lemma getSkippedSection_loop_some cs ers (stack : list CtxRef) (c : CtxRef) (x : nat)
    (stk : list nat) (s : option nat) :
  c ∈ stack -> skippedModeStackOf cs ers c = Some (x :: stk) ->
  getSkippedSection_loop cs ers stack = Some s -> s <> None.
Proof.
  induction stack as [| c0 rest IH]; cbn; intros Hc Hs; [inversion Hc |].
  destruct (skippedModeStackOf cs ers c0) as [[| x0 stk0] |] eqn:Hstk; cbn; try discriminate.
  - apply IH; [| exact Hs]. apply elem_of_cons in Hc as [-> | Hc]; [congruence | exact Hc].
  - intros H. injection H as <-.
    destruct (last_is_Some (x0 :: stk0)) as [_ Hlast].
    destruct (Hlast ltac:(discriminate)) as [y Hy]. rewrite Hy. discriminate.
Qed.

(** X2: [getSkippedSection()] is [undefined] exactly when
    [isSkippedMode()] is false. *)
Theorem getSkippedSection_undefined_iff (st : State) (b : bool) (s : option nat) :
  isSkippedMode st = Some b ->
  getSkippedSection st = Some s ->
  s = None <-> b = false.
Proof.
  unfold isSkippedMode, getSkippedSection, getContextStack. intros Hall Hsection.
  destruct b.
  - destruct (isSkippedMode_loop_true _ _ _ Hall) as (c & x & stk & Hc & Hs).
    split; [| discriminate]. intros Hnone. exfalso.
    refine (getSkippedSection_loop_some _ _ _ c x stk s _ Hs Hsection Hnone).
    apply list_elem_of_In, in_rev. rewrite rev_involutive. apply list_elem_of_In, Hc.
  - split; [reflexivity |]. intros _.
    rewrite getSkippedSection_loop_none in Hsection; [congruence |].
    intros c Hc. apply (isSkippedMode_loop_false _ _ _ Hall).
    apply list_elem_of_In, in_rev, list_elem_of_In. exact Hc.
Qed.

Lemma getSkippedSection_undefined_iff_witness :
  (Some 1%nat = None <-> true = false) /\ ((None : option nat) = None <-> false = false).
Proof.
  split.
  - exact (getSkippedSection_undefined_iff (emptyArray true [1%nat]) true (Some 1%nat)
             eq_refl eq_refl).
  - exact (getSkippedSection_undefined_iff (emptyArray true []) false None eq_refl eq_refl).
Defined.

(** X3: entering skipped mode (the push that opens [processInSkippedMode])
    takes a section id that is one above the counter; from then on the
    current context is in skipped mode and [getSkippedSection()] is the new
    id. *)
Theorem enterSkippedMode_section (st : State) (e : EnvRef) (stack : list nat) :
  currentEnvRec st = Some e ->
  skippedModeStack e st = Some stack ->
  exists st1,
    enterSkippedMode st = Normal tt st1
    /\ skippedModeCounter st1 = S (skippedModeCounter st)
    /\ isLocalSkippedMode st1 = Some true
    /\ getSkippedSection st1 = Some (Some (S (skippedModeCounter st))).
Proof.
  intros He Hstack. unfold skippedModeStack in Hstack.
  destruct (envRecs st !! e) as [r |] eqn:Hr; [| discriminate].
  cbn in Hstack. injection Hstack as Hstack.
  pose proof (lookup_lt_Some _ _ _ Hr) as Hlt.
  unfold currentEnvRec, currentContext, getCurrentContext in He.
  destruct (last (contextStack st)) as [c |] eqn:Hlast; [| discriminate]. cbn in He.
  destruct (contexts st !! c) as [ctx |] eqn:Hctx; [| discriminate]. cbn in He.
  injection He as He.
  unfold enterSkippedMode, currentEnvRec, currentContext, getCurrentContext.
  unfold bind, read, modify. rewrite Hlast. cbn -[lookup insert]. rewrite Hctx.
  cbn -[lookup insert]. rewrite He, Hr.
  eexists. split; [reflexivity |]. split; [reflexivity |].
  unfold isLocalSkippedMode, getSkippedSection, getCurrentContext, getContextStack,
    skippedModeStackOf.
  cbn -[lookup insert]. rewrite Hlast. cbn -[lookup insert].
  apply last_Some in Hlast as [l' Hl']. rewrite Hl', rev_app_distr. cbn -[lookup insert].
  rewrite Hctx. cbn -[lookup insert]. rewrite He.
  rewrite list_lookup_insert_eq by exact Hlt. cbn.
  rewrite length_app, Nat.add_comm. cbn. split; [reflexivity |].
  unfold skippedModeStackOf. rewrite Hctx. cbn -[lookup insert]. rewrite He.
  rewrite list_lookup_insert_eq by exact Hlt. cbn.
  rewrite length_app, Nat.add_comm. cbn. rewrite last_snoc. reflexivity.
Qed.

Lemma enterSkippedMode_section_witness :
  exists st1,
    enterSkippedMode insideTry = Normal tt st1
    /\ skippedModeCounter st1 = S (skippedModeCounter insideTry)
    /\ isLocalSkippedMode st1 = Some true
    /\ getSkippedSection st1 = Some (Some (S (skippedModeCounter insideTry))).
Proof. exact (enterSkippedMode_section insideTry 0%nat [] eq_refl eq_refl). Defined.

(** ** Equality *)

Lemma type_eqb_sym (a b : TypeName) : type_eqb a b = type_eqb b a.
Proof. destruct a, b; reflexivity. Qed.

Lemma strict_eq_sym (x y : number) : Number.strict_eq x y = Number.strict_eq y x.
Proof.
  unfold Number.strict_eq, Number.compare.
  destruct x as [| s1 | s1 m1 e1], y as [| s2 | s2 m2 e2]; try reflexivity.
  - destruct s1, s2; reflexivity.
  - destruct s1, s2; reflexivity.
  - destruct s1, s2; reflexivity.
  - rewrite (Z.min_comm e2 e1).
    rewrite (Z.compare_antisym (scaled (Z.min e1 e2) s1 m1 e1)).
    destruct (scaled (Z.min e1 e2) s1 m1 e1 ?= scaled (Z.min e1 e2) s2 m2 e2); reflexivity.
Qed.

Lemma raw_strict_eq_sym (a b : Raw) : raw_strict_eq a b = raw_strict_eq b a.
Proof.
  destruct a as [| | x | x | x], b as [| | y | y | y]; cbn; try reflexivity.
  - destruct x, y; reflexivity.
  - apply strict_eq_sym.
  - apply String.eqb_sym.
Qed.

(** X4: [strictEquals] is symmetric: [strictEquals(x, y)] and
    [strictEquals(y, x)] give the same answer (or both none, for two
    Unknown values or two References). *)
Theorem strictEquals_symmetric (st : State) (x y : Ref) :
  strictEquals x y st = strictEquals y x st.
Proof.
  unfold strictEquals, typeOf, valueOf.
  destruct (heap st !! x) as [cx |], (heap st !! y) as [cy |]; cbn; try reflexivity.
  rewrite (type_eqb_sym (type cy) (type cx)).
  destruct (type cx) eqn:Hx, (type cy) eqn:Hy; cbn; try reflexivity;
    try (rewrite raw_strict_eq_sym; reflexivity).
  rewrite Nat.eqb_sym. reflexivity.
Qed.

(** X5: on values of the six language types [sameValue] answers as
    [strictEquals] does; the two differ only on Unknown values and
    References, which [sameValue] compares by identity. *)
Theorem sameValue_as_strictEquals (st : State) (x y : Ref) (tx : TypeName) :
  typeOf x st = Some tx ->
  type_eqb tx TUnknown = false ->
  type_eqb tx TReference = false ->
  strictEquals x y st = (b ← sameValue (Some x) (Some y) st; Some (Some b)).
Proof.
  unfold strictEquals, sameValue, typeOf, valueOf. intros Hx Hu Hr.
  destruct (heap st !! x) as [cx |]; [| discriminate]. cbn in Hx. injection Hx as <-.
  destruct (heap st !! y) as [cy |]; cbn; [| reflexivity].
  destruct (type_eqb (type cx) (type cy)); cbn; [| reflexivity].
  destruct (type cx); cbn; (reflexivity || discriminate).
Qed.

Lemma sameValue_as_strictEquals_witness :
  strictEquals 0%nat 1%nat zerosAndNaNs
  = (b ← sameValue (Some 0%nat) (Some 1%nat) zerosAndNaNs; Some (Some b)).
Proof.
  exact (sameValue_as_strictEquals zerosAndNaNs 0%nat 1%nat TNumber eq_refl eq_refl eq_refl).
Defined.

(** ** Properties of objects *)

Lemma set_closure_same (x : BaseType) : set_closure (_closure x) x = x.
Proof. destruct x; reflexivity. Qed.

Lemma set_heap_same (st : State) : set_heap (heap st) st = st.
Proof. destruct st; reflexivity. Qed.

Lemma _updateClosure_loop_refl (l : LexicalEnvironment) :
  _updateClosure_loop (Some l) l = true.
Proof. destruct l as [id er out]. cbn. rewrite Nat.eqb_refl. reflexivity. Qed.

(** A value that has the closure of the object it is stored in keeps it. *)
Lemma updateClosureOf_same_closure (st : State) (o v : Ref) (ocell vcell : BaseType)
    (lex : option LexicalEnvironment) :
  heap st !! o = Some ocell ->
  heap st !! v = Some vcell ->
  _closure vcell = _closure ocell ->
  closureLexicalEnvironment (contexts st) (_closure ocell) = Some lex ->
  exists b, updateClosureOf o v st = Normal b st.
Proof.
  intros Ho Hv Hcl Hlex. unfold updateClosureOf, _updateClosure.
  unfold bind, read, modify, ret. rewrite Ho, Hv, Hcl, Hlex. cbn -[lookup insert].
  rewrite Hlex.
  destruct lex as [l |]; [| eexists; reflexivity].
  rewrite _updateClosure_loop_refl. eexists. f_equal.
  rewrite <- Hcl, set_closure_same, list_insert_id by exact Hv. apply set_heap_same.
Qed.

Lemma isLocalSkippedMode_outside (st : State) (ctx : ExecutionContext) :
  isSkippedMode st = Some false ->
  currentContext st = Some ctx ->
  isLocalSkippedMode st = Some false.
Proof.
  unfold isSkippedMode, currentContext, isLocalSkippedMode, getCurrentContext, getContextStack.
  intros Hall Hctx.
  destruct (last (contextStack st)) as [c |] eqn:Hlast; [| discriminate]. cbn.
  rewrite (isSkippedMode_loop_false _ _ _ Hall c); [reflexivity |].
  apply last_Some in Hlast as [l' ->]. apply elem_of_app. right.
  apply list_elem_of_singleton. reflexivity.
Qed.

Lemma _isSkippedLocal_loop_outside cs ers (target : option LexicalEnvironment)
    (stack : list CtxRef) :
  (forall c, c ∈ stack -> skippedModeStackOf cs ers c = Some []) ->
  _isSkippedLocal_loop cs ers target stack = Some true.
Proof.
  induction stack as [| c rest IH]; cbn; intros Hall; [reflexivity |].
  pose proof (Hall c ltac:(apply elem_of_cons; left; reflexivity)) as Hc.
  unfold skippedModeStackOf in Hc |- *.
  destruct (cs !! c) as [ctx |]; [| discriminate]. cbn in Hc |- *.
  destruct (same_lex target (Some (lexicalEnvironment ctx))); [reflexivity |].
  rewrite Hc. cbn. apply IH. intros c' Hc'. apply Hall, elem_of_cons. right. exact Hc'.
Qed.

Lemma _isSkippedLocal_outside (st : State) (o : Ref) (x : BaseType)
    (lex : option LexicalEnvironment) :
  isSkippedMode st = Some false ->
  heap st !! o = Some x ->
  closureLexicalEnvironment (contexts st) (_closure x) = Some lex ->
  _isSkippedLocal o st = Some true.
Proof.
  unfold isSkippedMode, _isSkippedLocal, getContextStack. intros Hall Ho Hlex.
  rewrite Ho. cbn. rewrite Hlex. cbn.
  apply _isSkippedLocal_loop_outside. intros c Hc.
  apply (isSkippedMode_loop_false _ _ _ Hall).
  apply list_elem_of_In, in_rev, list_elem_of_In. exact Hc.
Qed.

Lemma lookupEntry_app_new (p : string) (ps : list Property) (e : Property) :
  lookupEntry p ps = None -> p_name e = p -> lookupEntry p (ps ++ [e]) = Some e.
Proof.
  intros Hp He. induction ps as [| x ps IH]; cbn in *.
  - rewrite He, String.eqb_refl. reflexivity.
  - destruct (String.eqb (p_name x) p); [discriminate | apply IH, Hp].
Qed.

Lemma updateEntry_app_new (p : string) (f : Property -> Property) (ps : list Property)
    (e : Property) :
  lookupEntry p ps = None -> p_name e = p -> updateEntry p f (ps ++ [e]) = ps ++ [f e].
Proof.
  intros Hp He. induction ps as [| x ps IH]; cbn in *.
  - rewrite He, String.eqb_refl. reflexivity.
  - destruct (String.eqb (p_name x) p); [discriminate |]. f_equal. apply IH, Hp.
Qed.

(** [_addProperty] of a property the object does not have, outside skipped
    mode: a new entry at the end of [_properties]. *)
Lemma _addProperty_new (st : State) (o : Ref) (p : string) (desc : Descriptor)
    (c : BaseType) (ps : list Property) :
  heap st !! o = Some c ->
  _properties c = Some ps ->
  lookupEntry p ps = None ->
  isLocalSkippedMode st = Some false ->
  _isSkippedLocal o st = Some true ->
  _addProperty o p desc st
  = Normal tt
      (set_heap (<[o := set_properties (ps ++ [mkProperty p desc ∅]) c]>
                   (heap st ++ [undefinedCell (currentClosure st)])) st).
Proof.
  intros Ho Hps Hp Hlocal Hskl.
  pose proof (lookup_lt_Some _ _ _ Ho) as Hlt.
  assert (Hskl' : forall s c',
             contexts s = contexts st -> envRecs s = envRecs st ->
             contextStack s = contextStack st ->
             heap s !! o = Some c' -> _closure c' = _closure c ->
             _isSkippedLocal o s = Some true).
  { intros s c' Hc He Hs Ho' Hcl. unfold _isSkippedLocal, getContextStack in *.
    rewrite Ho'. rewrite Ho in Hskl. cbn in *. rewrite Hc, He, Hs, Hcl. exact Hskl. }
  unfold _addProperty, setProperties, UndefinedType, alloc.
  unfold bind, read, ret, modify, propertiesOf. rewrite Ho. cbn -[lookup insert]. rewrite Hps, Hp.
  cbn -[lookup insert]. rewrite (lookup_app_l_Some _ _ _ _ Ho).
  change (isLocalSkippedMode (set_heap ?h (set_heap ?h' st))) with (isLocalSkippedMode st).
  rewrite Hlocal.
  rewrite (Hskl' _ (set_properties (ps ++ [mkProperty p emptyDescriptor ∅]) c))
    by (try reflexivity; cbn -[lookup insert]; apply list_lookup_insert_eq;
        rewrite length_app; cbn; lia).
  cbn -[lookup insert].
  repeat (rewrite list_lookup_insert_eq by (rewrite length_app; cbn; lia);
          cbn -[lookup insert]).
  rewrite updateEntry_app_new by (assumption || reflexivity).
  rewrite list_insert_insert_eq. reflexivity.
Qed.

Lemma _isSkippedLocal_ext (st s : State) (o : Ref) (c c' : BaseType) :
  contexts s = contexts st -> envRecs s = envRecs st -> contextStack s = contextStack st ->
  heap st !! o = Some c -> heap s !! o = Some c' -> _closure c' = _closure c ->
  _isSkippedLocal o s = _isSkippedLocal o st.
Proof.
  intros Hc He Hs Ho Ho' Hcl. unfold _isSkippedLocal, getContextStack.
  rewrite Ho, Ho'. cbn. rewrite Hc, He, Hs, Hcl. reflexivity.
Qed.

Lemma storesUnknown_false (st : State) (v : Ref) (vcell : BaseType) :
  heap st !! v = Some vcell ->
  type_eqb (type vcell) TUnknown = false ->
  _isLocal v st = Some true ->
  isAmbiguousBlock st = Some false ->
  storesUnknown v st = Normal false st.
Proof.
  intros Hv Htv Hloc Hamb. unfold storesUnknown.
  read_with (typeOf_Some _ _ _ Hv). rewrite Htv. read_with Hloc.
  unfold read. rewrite Hamb. reflexivity.
Qed.

(** The flag a new data property gets when the descriptor leaves it out. *)
Lemma orElse_default (a : option bool) :
  orElse a (Some false) = Some (default false a).
Proof. destruct a; reflexivity. Qed.

(** Defining a data property that the object does not have, with a known
    local value, outside ambiguous blocks and skipped mode. *)
Lemma ObjectType_defineOwnProperty_fresh `{NativeExceptions} (st : State) (o v : Ref) (p : string)
    (ocell vcell : BaseType) (ps : list Property) (lex : option LexicalEnvironment)
    (w e c : option bool) (throwFlag suppressEvent : bool) :
  heap st !! o = Some ocell ->
  type_eqb (type ocell) TUnknown = false ->
  _properties ocell = Some ps ->
  lookupEntry p ps = None ->
  extensible ocell = true ->
  heap st !! v = Some vcell ->
  type_eqb (type vcell) TUnknown = false ->
  _closure vcell = _closure ocell ->
  closureLexicalEnvironment (contexts st) (_closure ocell) = Some lex ->
  _isLocal v st = Some true ->
  isAmbiguousBlock st = Some false ->
  isSkippedMode st = Some false ->
  exists st',
    ObjectType_defineOwnProperty o p (mkDescriptor (Some v) w None None e c)
      throwFlag suppressEvent st
    = Normal true st'
    /\ heap st' !! o
       = Some (set_properties
                 (ps ++ [mkProperty p
                           (mkDescriptor (Some v) (Some (default false w)) None None
                              (Some (default false e)) (Some (default false c))) ∅])
                 ocell)
    /\ events st'
       = events st ++ (if suppressEvent then [] else [propertyDefined o p]).
Proof.
  intros Ho Hto Hps Hp Hext Hv Htv Hcl Hlex Hloc Hamb Hskipped.
  assert (Hctx : exists ctx, currentContext st = Some ctx).
  { unfold isAmbiguousBlock in Hamb. destruct (currentContext st) as [ctx |]; [| discriminate].
    exists ctx. reflexivity. }
  destruct Hctx as [ctx Hctx].
  pose proof (isLocalSkippedMode_outside st ctx Hskipped Hctx) as Hlocal.
  pose proof (_isSkippedLocal_outside st o ocell lex Hskipped Ho Hlex) as Hskl.
  destruct (updateClosureOf_same_closure st o v ocell vcell lex Ho Hv Hcl Hlex) as [b Hupd].
  unfold ObjectType_defineOwnProperty.
  step_with (ObjectType_getOwnProperty_absent o p st ocell ps Ho Hto Hps Hp).
  step_with Hupd.
  step_with (storesUnknown_false st v vcell Hv Htv Hloc Hamb).
  read_with (Ho : (fun s => heap s !! o) st = Some ocell).
  rewrite Hext. cbn -[lookup insert].
  set (st1 := if suppressEvent then st
              else set_events (events st ++ [propertyDefined o p]) st).
  assert (Hfire : (if negb suppressEvent then fireEvent (propertyDefined o p) else ret tt) st
                  = Normal tt st1) by (subst st1; destruct suppressEvent; reflexivity).
  assert (Hsame1 : heap st1 = heap st /\ contexts st1 = contexts st
                   /\ envRecs st1 = envRecs st /\ contextStack st1 = contextStack st
                   /\ events st1 = events st ++ (if suppressEvent then []
                                                 else [propertyDefined o p]))
    by (subst st1; destruct suppressEvent; cbn; rewrite ?app_nil_r; repeat split).
  clearbody st1. destruct Hsame1 as (Hh1 & Hc1 & He1 & Hs1 & Hev1).
  step_with Hfire.
  unfold DataPropertyDescriptor, UndefinedType, alloc. unfold bind at 1.
  set (st2 := set_heap _ st1).
  assert (Ho2 : heap st2 !! o = Some ocell)
    by (subst st2; cbn -[lookup]; rewrite Hh1; apply lookup_app_l_Some, Ho).
  assert (Hlocal2 : isLocalSkippedMode st2 = Some false).
  { unfold isLocalSkippedMode, getCurrentContext in *. subst st2. cbn.
    rewrite Hc1, He1, Hs1. exact Hlocal. }
  assert (Hskl2 : _isSkippedLocal o st2 = Some true).
  { rewrite (_isSkippedLocal_ext st st2 o ocell ocell); try assumption; reflexivity. }
  rewrite orElse_default, orElse_default, orElse_default.
  rewrite (_addProperty_new st2 o p
             (mkDescriptor (Some v) (Some (default false w)) None None
                (Some (default false e)) (Some (default false c)))
             ocell ps Ho2 Hps Hp Hlocal2 Hskl2).
  eexists. split; [reflexivity |]. split.
  - cbn -[lookup insert]. apply list_lookup_insert_eq.
    apply lookup_lt_Some in Ho. rewrite !length_app, Hh1. cbn. lia.
  - exact Hev1.
Qed.

(** X6: [defineOwnProperty(p, ...)], whatever it is given and whatever it
    answers, leaves the other properties of the object as they are, and
    changes neither the type nor the host value of any instance. *)
Theorem defineOwnProperty_frame `{NativeExceptions} (st st' : State) (o : Ref) (p q : string) (desc : Descriptor)
    (throwFlag suppressEvent b : bool) :
  ObjectType_defineOwnProperty o p desc throwFlag suppressEvent st = Normal b st' ->
  String.eqb q p = false ->
  (forall d, _lookupProperty o q st = Some d -> _lookupProperty o q st' = Some d)
  /\ (forall r t, typeOf r st = Some t -> typeOf r st' = Some t)
  /\ (forall r x, valueOf r st = Some x -> valueOf r st' = Some x).
Proof.
  intros Hrun Hq. apply String.eqb_neq in Hq.
  pose proof (preserves_defineOwnProperty _ _ _ _ _ _ _ _ Hrun) as [_ _ _ Hcells].
  split; [| split].
  - intros d. unfold _lookupProperty, propertiesOf.
    destruct (heap st !! o) as [x |] eqn:Hx; [| discriminate]. cbn.
    destruct (Hcells o x Hx) as (x' & Hx' & _ & _ & Hthis).
    destruct (Hthis eq_refl) as [_ Hprops].
    destruct (_properties x) as [ps |]; [| discriminate]. cbn.
    destruct (Hprops ps eq_refl) as (ps' & Hps' & Hsame).
    rewrite Hx'. cbn. rewrite Hps'. cbn. rewrite (Hsame q Hq). trivial.
  - intros r t. unfold typeOf.
    destruct (heap st !! r) as [x |] eqn:Hx; [| discriminate]. cbn.
    destruct (Hcells r x Hx) as (x' & Hx' & Hty & _). rewrite Hx'. cbn. congruence.
  - intros r v. unfold valueOf.
    destruct (heap st !! r) as [x |] eqn:Hx; [| discriminate]. cbn.
    destruct (Hcells r x Hx) as (x' & Hx' & _ & Hv & _). rewrite Hx'. cbn. congruence.
Qed.

Lemma defineOwnProperty_frame_witness :
  exists st',
    ObjectType_defineOwnProperty 0%nat "y" (dataDescriptor 2%nat true true true) false false
      readOnlyProperty
    = Normal true st'
    /\ (forall d, _lookupProperty 0%nat "x" readOnlyProperty = Some d ->
                  _lookupProperty 0%nat "x" st' = Some d)
    /\ (forall r t, typeOf r readOnlyProperty = Some t -> typeOf r st' = Some t)
    /\ (forall r x, valueOf r readOnlyProperty = Some x -> valueOf r st' = Some x).
Proof.
  eexists. split; [vm_compute; reflexivity |].
  eapply (defineOwnProperty_frame readOnlyProperty _ 0%nat "y" "x"
            (dataDescriptor 2%nat true true true) false false true);
    [vm_compute; reflexivity | reflexivity].
Defined.

(** X7: defining a data property that the object does not have and reading
    it back: [getOwnProperty] returns the value, and [false] for each of
    [writable], [enumerable] and [configurable] that the descriptor left out. *)
Theorem defineOwnProperty_getOwnProperty `{NativeExceptions} (st : State) (o v : Ref) (p : string)
    (ocell vcell : BaseType) (ps : list Property) (lex : option LexicalEnvironment)
    (w e c : option bool) (throwFlag suppressEvent : bool) :
  heap st !! o = Some ocell ->
  type_eqb (type ocell) TUnknown = false ->
  _properties ocell = Some ps ->
  lookupEntry p ps = None ->
  extensible ocell = true ->
  heap st !! v = Some vcell ->
  type_eqb (type vcell) TUnknown = false ->
  _closure vcell = _closure ocell ->
  closureLexicalEnvironment (contexts st) (_closure ocell) = Some lex ->
  _isLocal v st = Some true ->
  isAmbiguousBlock st = Some false ->
  isSkippedMode st = Some false ->
  exists st',
    ObjectType_defineOwnProperty o p (mkDescriptor (Some v) w None None e c)
      throwFlag suppressEvent st
    = Normal true st'
    /\ ObjectType_getOwnProperty o p st'
       = Normal (Some (mkDescriptor (Some v) (Some (default false w)) None None
                         (Some (default false e)) (Some (default false c)))) st'.
Proof.
  intros Ho Hto Hps Hp Hext Hv Htv Hcl Hlex Hloc Hamb Hskipped.
  destruct (ObjectType_defineOwnProperty_fresh st o v p ocell vcell ps lex w e c throwFlag
              suppressEvent Ho Hto Hps Hp Hext Hv Htv Hcl Hlex Hloc Hamb Hskipped)
    as (st' & Hrun & Ho' & _).
  exists st'. split; [exact Hrun |].
  unfold ObjectType_getOwnProperty, _lookupProperty, propertiesOf.
  read_with (typeOf_Some _ _ _ Ho'). rewrite Hto.
  unfold bind, read, ret. rewrite Ho'. cbn.
  rewrite lookupEntry_app_new by (assumption || reflexivity). reflexivity.
Qed.

Lemma defineOwnProperty_getOwnProperty_witness :
  exists st',
    ObjectType_defineOwnProperty 0%nat "x" (mkDescriptor (Some 1%nat) None None None None None)
      false false plainObject
    = Normal true st'
    /\ ObjectType_getOwnProperty 0%nat "x" st'
       = Normal (Some (dataDescriptor 1%nat false false false)) st'.
Proof.
  exact (defineOwnProperty_getOwnProperty plainObject 0%nat 1%nat "x"
           (objectCell (ContextClosure 0) true [])
           (numberCell (ContextClosure 0) (Number.of_N 7)) []
           (Some (mkLexicalEnvironment 0 0 None)) None None None false false
           eq_refl eq_refl eq_refl eq_refl eq_refl eq_refl eq_refl eq_refl eq_refl eq_refl
           eq_refl eq_refl).
Defined.

(** X8: a value put under a name that neither the object nor its prototype
    chain has is what [get] returns afterwards. *)
Theorem put_get_round_trip `{NativeExceptions} cf s2n (st : State) (o v : Ref) (p : string)
    (ocell vcell : BaseType) (lex : option LexicalEnvironment)
    (throwFlag suppressEvent : bool) :
  heap st !! o = Some ocell ->
  isArrayType ocell = false ->
  extensible ocell = true ->
  lacksProperty (S (length (heap st))) o p st = true ->
  heap st !! v = Some vcell ->
  type_eqb (type vcell) TUnknown = false ->
  _closure vcell = _closure ocell ->
  closureLexicalEnvironment (contexts st) (_closure ocell) = Some lex ->
  _isLocal v st = Some true ->
  isAmbiguousBlock st = Some false ->
  isSkippedMode st = Some false ->
  exists st' st'',
    ObjectType_put cf s2n o p v throwFlag suppressEvent st = Normal tt st'
    /\ ObjectType_get cf o p st' = Normal v st''.
Proof.
  intros Ho Harr Hext Hlacks Hv Htv Hcl Hlex Hloc Hamb Hskipped.
  destruct (lacksProperty_unfold _ o p st Hlacks) as (x' & ps & Hx' & Hto & Hps & Hp & _).
  rewrite Ho in Hx'. injection Hx' as <-.
  assert (Hput : forall st1,
             sameObjects st st1 ->
             (if negb suppressEvent then fireEvent (propertySet o p v) else ret tt) st
             = Normal tt st1 ->
             (exists st',
                 ObjectType_defineOwnProperty o p (dataDescriptor v true true true)
                   throwFlag suppressEvent st1 = Normal true st'
                 /\ heap st' !! o
                    = Some (set_properties
                              (ps ++ [mkProperty p (dataDescriptor v true true true) ∅]) ocell)) ->
             exists st' st'',
               ObjectType_put cf s2n o p v throwFlag suppressEvent st = Normal tt st'
               /\ ObjectType_get cf o p st' = Normal v st'').
  { intros st1 Hsame Hfire (st' & Hrun & Ho').
    pose proof Hsame as [Hheap _].
    exists st'. eexists. split.
    - unfold ObjectType_put, defineOwnProperty_.
      step_with (ObjectType_canPut_absent (length (heap st)) o p st st ocell Hlacks
                   (le_n _) (conj eq_refl eq_refl) Ho Hext).
      step_with Hfire.
      assert (Ho1 : heap st1 !! o = Some ocell) by (rewrite Hheap; exact Ho).
      step_with (ObjectType_getOwnProperty_absent o p st1 ocell ps Ho1 Hto Hps Hp).
      step_with (ObjectType_getProperty_absent _ o p st st1 Hlacks (le_n _) Hsame).
      read_with (Ho1 : (fun s => heap s !! o) st1 = Some ocell).
      rewrite Harr. step_with Hrun. reflexivity.
    - eapply (ObjectType_get_data cf st' o p _ _ _ v Ho' Hto eq_refl);
        [apply lookupEntry_app_new; [exact Hp | reflexivity] | reflexivity | reflexivity]. }
  destruct suppressEvent.
  - apply (Hput st); [split; reflexivity | reflexivity |].
    destruct (ObjectType_defineOwnProperty_fresh st o v p ocell vcell ps lex (Some true)
                (Some true) (Some true) throwFlag true Ho Hto Hps Hp Hext Hv Htv Hcl Hlex
                Hloc Hamb Hskipped) as (st' & Hrun & Ho' & _).
    exists st'. split; assumption.
  - apply (Hput (set_events (events st ++ [propertySet o p v]) st));
      [split; reflexivity | reflexivity |].
    destruct (ObjectType_defineOwnProperty_fresh
                (set_events (events st ++ [propertySet o p v]) st) o v p ocell vcell ps lex
                (Some true) (Some true) (Some true) throwFlag false Ho Hto Hps Hp Hext Hv Htv
                Hcl Hlex Hloc Hamb Hskipped) as (st' & Hrun & Ho' & _).
    exists st'. split; assumption.
Qed.

Lemma put_get_round_trip_witness :
  exists st' st'',
    ObjectType_put noCall noStrings 0%nat "x" 1%nat false false plainObject = Normal tt st'
    /\ ObjectType_get noCall 0%nat "x" st' = Normal 1%nat st''.
Proof.
  exact (put_get_round_trip noCall noStrings plainObject 0%nat 1%nat "x"
           (objectCell (ContextClosure 0) true [])
           (numberCell (ContextClosure 0) (Number.of_N 7))
           (Some (mkLexicalEnvironment 0 0 None)) false false
           eq_refl eq_refl eq_refl eq_refl eq_refl eq_refl eq_refl eq_refl eq_refl eq_refl
           eq_refl).
Defined.

(** [canPut] is false on an own data property that is not writable. *)
Lemma ObjectType_canPut_read_only (st : State) (o : Ref) (p : string) (ocell : BaseType)
    (ps : list Property) (e : Property) :
  heap st !! o = Some ocell ->
  type_eqb (type ocell) TUnknown = false ->
  _properties ocell = Some ps ->
  lookupEntry p ps = Some e ->
  isDataDescriptor (Some (p_value e)) = true ->
  truthy (d_writable (p_value e)) = false ->
  ObjectType_canPut o p st = Normal (CanPutValue false) st.
Proof.
  intros Ho Hto Hps He Hdata Hw.
  unfold ObjectType_canPut, ObjectType_getOwnProperty, _lookupProperty, propertiesOf, typeOf.
  unfold bind, read, ret. rewrite Ho. cbn. rewrite Hto, Ho. cbn. rewrite Hps. cbn.
  rewrite He. cbn.
  unfold copyDescriptor. rewrite Hdata. cbn. rewrite Hw. reflexivity.
Qed.

(** X9: [put] with [throwFlag] false on an own data property that is not
    writable does nothing at all: no event, no change of state. *)
Theorem put_read_only `{NativeExceptions} cf s2n (st : State) (o v : Ref) (p : string) (ocell : BaseType)
    (ps : list Property) (e : Property) (suppressEvent : bool) :
  heap st !! o = Some ocell ->
  type_eqb (type ocell) TUnknown = false ->
  _properties ocell = Some ps ->
  lookupEntry p ps = Some e ->
  isDataDescriptor (Some (p_value e)) = true ->
  truthy (d_writable (p_value e)) = false ->
  ObjectType_put cf s2n o p v false suppressEvent st = Normal tt st.
Proof.
  intros Ho Hto Hps He Hdata Hw. unfold ObjectType_put.
  step_with (ObjectType_canPut_read_only st o p ocell ps e Ho Hto Hps He Hdata Hw).
  reflexivity.
Qed.

Lemma put_read_only_witness :
  ObjectType_put noCall noStrings 0%nat "x" 2%nat false false readOnlyProperty
  = Normal tt readOnlyProperty.
Proof.
  exact (put_read_only noCall noStrings readOnlyProperty 0%nat 2%nat "x"
           (objectCell (ContextClosure 0) true
              [mkProperty "x" (dataDescriptor 1%nat false true false) ∅])
           [mkProperty "x" (dataDescriptor 1%nat false true false) ∅]
           (mkProperty "x" (dataDescriptor 1%nat false true false) ∅) false
           eq_refl eq_refl eq_refl eq_refl eq_refl eq_refl).
Defined.

(** ** The property list *)

Lemma names_updateEntry (p : string) (f : Property -> Property) (ps : list Property) :
  (forall e, p_name (f e) = p_name e) ->
  p_name <$> updateEntry p f ps = p_name <$> ps.
Proof.
  intros Hf. induction ps as [| x ps IH]; cbn; [reflexivity |].
  destruct (String.eqb (p_name x) p); cbn; [rewrite Hf | rewrite IH]; reflexivity.
Qed.

Lemma lookupEntry_None_names (p : string) (ps : list Property) :
  lookupEntry p ps = None <-> p ∉ p_name <$> ps.
Proof.
  induction ps as [| x ps IH]; cbn.
  - split; [intros _ H; inversion H | reflexivity].
  - destruct (String.eqb_spec (p_name x) p) as [Hx | Hx].
    + split; [discriminate |]. intros H. exfalso. apply H. rewrite Hx. apply elem_of_cons.
      left. reflexivity.
    + rewrite IH. rewrite not_elem_of_cons. split; [intros H; split; congruence | intros [_ H]; exact H].
Qed.

Lemma setProperties_inv (o : Ref) (ps : list Property) (st st' : State) (u : unit) :
  setProperties o ps st = Normal u st' ->
  exists c, heap st !! o = Some c
            /\ st' = set_heap (<[o := set_properties ps c]> (heap st)) st.
Proof.
  unfold setProperties, bind, read, modify.
  destruct (heap st !! o) as [c |]; [| discriminate].
  intros H. injection H as _ H. exists c. split; [reflexivity | symmetry; exact H].
Qed.

Lemma propertiesOf_setProperties (o : Ref) (ps : list Property) (st : State) (c : BaseType) :
  heap st !! o = Some c ->
  propertiesOf o (set_heap (<[o := set_properties ps c]> (heap st)) st) = Some ps.
Proof.
  intros Ho. unfold propertiesOf. cbn -[lookup insert].
  rewrite list_lookup_insert_eq by (eapply lookup_lt_Some, Ho). reflexivity.
Qed.

(** X10: whatever the mode, [_addProperty(p, desc)] keeps the property
    list free of duplicates and in order: the names are those from before,
    followed by [p] if the object did not have it. *)
Theorem _addProperty_names (st st' : State) (o : Ref) (p : string) (desc : Descriptor)
    (names : list string) :
  _getPropertyNames o st = Some names ->
  NoDup names ->
  _addProperty o p desc st = Normal tt st' ->
  let names' := if bool_decide (p ∈ names) then names else names ++ [p] in
  _getPropertyNames o st' = Some names' /\ NoDup names'.
Proof.
  intros Hnames Hnodup Hrun names'. unfold _getPropertyNames in Hnames.
  destruct (propertiesOf o st) as [ps0 |] eqn:Hps0; [| discriminate].
  cbn in Hnames. injection Hnames as <-.
  unfold _addProperty in Hrun.
  apply bind_inv in Hrun as (ps & st0 & Hread & Hrun). apply read_inv in Hread as [Hps ->].
  rewrite Hps0 in Hps. injection Hps as <-.
  apply bind_inv in Hrun as ([] & st1 & Hnew & Hrun).
  assert (Hst1 : propertiesOf o st1
                 = Some (if bool_decide (p ∈ p_name <$> ps0) then ps0
                         else ps0 ++ [mkProperty p emptyDescriptor ∅])).
  { destruct (lookupEntry p ps0) as [e |] eqn:He.
    - injection Hnew as <-. rewrite bool_decide_true; [exact Hps0 |].
      destruct (decide (p ∈ p_name <$> ps0)) as [Hin | Hout]; [exact Hin |].
      apply lookupEntry_None_names in Hout. congruence.
    - rewrite bool_decide_false by (apply lookupEntry_None_names, He).
      apply bind_inv in Hnew as (u & st00 & Halloc & Hset). injection Halloc as _ <-.
      apply setProperties_inv in Hset as (c & Hc & ->).
      apply propertiesOf_setProperties, Hc. }
  assert (Hend : forall (g : list Property -> list Property) s s' ps1,
             (forall l, p_name <$> g l = p_name <$> l) ->
             propertiesOf o s = Some ps1 ->
             bind (read (propertiesOf o)) (fun ps' => setProperties o (g ps')) s = Normal tt s' ->
             _getPropertyNames o s' = Some (p_name <$> ps1)).
  { intros g s s' ps1 Hg Hs H.
    apply bind_inv in H as (ps' & s0 & Hread & Hset). apply read_inv in Hread as [Hps' ->].
    rewrite Hs in Hps'. injection Hps' as <-.
    apply setProperties_inv in Hset as (c & Hc & ->).
    unfold _getPropertyNames. rewrite (propertiesOf_setProperties o _ s c Hc). cbn.
    rewrite Hg. reflexivity. }
  assert (Hfinal : _getPropertyNames o st'
                   = Some (p_name <$> (if bool_decide (p ∈ p_name <$> ps0) then ps0
                                       else ps0 ++ [mkProperty p emptyDescriptor ∅]))).
  { apply bind_inv in Hrun as (local & st2 & Hread & Hrun). apply read_inv in Hread as [_ ->].
    apply bind_inv in Hrun as (diverted & st2 & Hdiv & Hrun).
    assert (st2 = st1) as ->.
    { destruct local; [injection Hdiv as _ <-; reflexivity |].
      apply bind_inv in Hdiv as (l & st3 & Hread & Hret). apply read_inv in Hread as [_ ->].
      injection Hret as _ <-. reflexivity. }
    destruct diverted.
    - apply bind_inv in Hrun as (section & st3 & Hread & Hrun).
      apply read_inv in Hread as [_ ->].
      refine (Hend _ st1 st' _ _ Hst1 Hrun). intros l. apply names_updateEntry. reflexivity.
    - refine (Hend _ st1 st' _ _ Hst1 Hrun). intros l. apply names_updateEntry. reflexivity. }
  subst names'. rewrite Hfinal.
  destruct (bool_decide (p ∈ p_name <$> ps0)) eqn:Hin.
  - split; [reflexivity | exact Hnodup].
  - rewrite fmap_app. split; [reflexivity |].
    apply NoDup_app. split; [exact Hnodup |]. split; [| apply NoDup_singleton].
    intros x Hx Hx'. apply list_elem_of_singleton in Hx'. subst x.
    apply bool_decide_eq_false in Hin. contradiction.
Qed.

Lemma _addProperty_names_witness :
  exists st',
    _addProperty 0%nat "y" (dataDescriptor 2%nat true true true) readOnlyProperty
    = Normal tt st'
    /\ _getPropertyNames 0%nat st' = Some ["x"; "y"]%string
    /\ NoDup ["x"; "y"]%string.
Proof.
  eexists. split; [vm_compute; reflexivity |].
  refine (_addProperty_names readOnlyProperty _ 0%nat "y" (dataDescriptor 2%nat true true true)
            ["x"%string] eq_refl (bool_decide_unpack (NoDup ["x"%string]) I) _).
  vm_compute. reflexivity.
Defined.

Lemma lookupEntry_removeEntry_same (p : string) (ps : list Property) :
  NoDup (p_name <$> ps) -> lookupEntry p (removeEntry p ps) = None.
Proof.
  induction ps as [| x ps IH]; cbn; [reflexivity |].
  intros Hnodup. apply NoDup_cons in Hnodup as [Hx Hnodup].
  destruct (String.eqb_spec (p_name x) p) as [Hp | Hp].
  - apply lookupEntry_None_names. rewrite <- Hp. exact Hx.
  - cbn. destruct (String.eqb_spec (p_name x) p); [contradiction | apply IH, Hnodup].
Qed.

Lemma lookupEntry_removeEntry_other (q p : string) (ps : list Property) :
  q <> p -> lookupEntry q (removeEntry p ps) = lookupEntry q ps.
Proof.
  intros Hne. induction ps as [| x ps IH]; cbn; [reflexivity |].
  destruct (String.eqb_spec (p_name x) p) as [Hp | Hp]; cbn.
  - destruct (String.eqb_spec (p_name x) q); [congruence | reflexivity].
  - destruct (String.eqb (p_name x) q); [reflexivity | exact IH].
Qed.

(** X11: deleting a configurable own property removes it, in skipped mode
    as outside: afterwards [getOwnProperty(p)] is [undefined] and the
    other properties are as before. *)
Theorem delete_getOwnProperty `{NativeExceptions} (st : State) (o : Ref) (p : string) (cell : BaseType)
    (ps : list Property) (e : Property) (throwFlag : bool) :
  heap st !! o = Some cell ->
  type_eqb (type cell) TUnknown = false ->
  _properties cell = Some ps ->
  NoDup (p_name <$> ps) ->
  lookupEntry p ps = Some e ->
  truthy (d_configurable (p_value e)) = true ->
  exists st',
    ObjectType_delete o p throwFlag st = Normal true st'
    /\ ObjectType_getOwnProperty o p st' = Normal None st'
    /\ forall q, String.eqb q p = false -> _lookupProperty o q st' = _lookupProperty o q st.
Proof.
  intros Ho Hto Hps Hnodup He Hc.
  pose proof (lookup_lt_Some _ _ _ Ho) as Hlt.
  assert (Hc' : truthy (d_configurable (copyDescriptor (p_value e))) = true)
    by (unfold copyDescriptor; destruct (isDataDescriptor _); exact Hc).
  eexists. split; [| split].
  - unfold ObjectType_delete, ObjectType_getOwnProperty, _lookupProperty, _removeProperty,
      setProperties, propertiesOf, typeOf, fireEvent.
    exec.
  - unfold ObjectType_getOwnProperty, _lookupProperty, propertiesOf, typeOf.
    exec. rewrite lookupEntry_removeEntry_same by exact Hnodup. reflexivity.
  - intros q Hq. apply String.eqb_neq in Hq.
    unfold _lookupProperty, propertiesOf. exec.
    rewrite lookupEntry_removeEntry_other by exact Hq. reflexivity.
Qed.

Lemma delete_getOwnProperty_witness :
  exists st',
    ObjectType_delete 0%nat "length" false (configurableLength [1%nat]) = Normal true st'
    /\ ObjectType_getOwnProperty 0%nat "length" st' = Normal None st'
    /\ forall q, String.eqb q "length" = false ->
         _lookupProperty 0%nat q st' = _lookupProperty 0%nat q (configurableLength [1%nat]).
Proof.
  exact (delete_getOwnProperty (configurableLength [1%nat]) 0%nat "length"
           (objectCell (ContextClosure 0) true
              [mkProperty "length" (dataDescriptor 1%nat true false true) ∅])
           [mkProperty "length" (dataDescriptor 1%nat true false true) ∅]
           (mkProperty "length" (dataDescriptor 1%nat true false true) ∅) false
           eq_refl eq_refl eq_refl (bool_decide_unpack (NoDup ["length"%string]) I)
           eq_refl eq_refl).
Defined.

(** ** Conversions to integers *)

Lemma toNumber_Number `{NativeExceptions} cf s2n fuel (st : State) (n : Ref) (cell : BaseType) :
  heap st !! n = Some cell -> type cell = TNumber ->
  exists st1 c1,
    toNumber cf s2n fuel (Some n) st = Normal (length (heap st)) st1
    /\ heap st1 !! length (heap st) = Some c1
    /\ type c1 = TNumber /\ value c1 = value cell.
Proof.
  intros Hcell Hty. pose proof (lookup_lt_Some _ _ _ Hcell) as Hlt.
  destruct fuel; unfold toNumber, NumberType, alloc, orUndefined, setValue, typeOf, valueOf;
    exec.
  all: eexists _, _; split; [reflexivity |]; exec.
  all: split; [reflexivity | split; reflexivity].
Qed.

(** A conversion that replaces the value of the Number that [toNumber]
    made. *)
Lemma convert_Number `{NativeExceptions} (f : Raw -> number) (convert : nat -> option Ref -> M Ref)
    cf s2n fuel (st : State) (n : Ref) (cell : BaseType) :
  (forall input,
      convert fuel input
      = (newNumber <- toNumber cf s2n fuel input ;;
         ty <- read (typeOf newNumber) ;;
         if type_eqb ty TUnknown then UnknownType
         else v <- read (valueOf newNumber) ;;
              setValue newNumber (RNum (f v)) ;; ret newNumber)) ->
  heap st !! n = Some cell -> type cell = TNumber ->
  exists st',
    convert fuel (Some n) st = Normal (length (heap st)) st'
    /\ typeOf (length (heap st)) st' = Some TNumber
    /\ valueOf (length (heap st)) st' = Some (RNum (f (value cell))).
Proof.
  intros Hconvert Hcell Hty. rewrite Hconvert.
  destruct (toNumber_Number cf s2n fuel st n cell Hcell Hty) as (st1 & c1 & Hrun & Hc1 & Hty1 & Hv1).
  pose proof (lookup_lt_Some _ _ _ Hc1) as Hlt1.
  unfold bind at 1. rewrite Hrun. unfold typeOf, valueOf, setValue. exec.
  eexists. split; [reflexivity |]. exec. split; reflexivity.
Qed.

Lemma integerOf_small (x : number) :
  small x -> exists z, integerOf x = Some z /\ - 2 ^ 32 < z < 2 ^ 31.
Proof.
  destruct x as [| | s m e]; try contradiction. intros (He & H32 & H31).
  pose proof (magnitude_nonneg m e) as Hm.
  unfold integerOf. destruct (Z.leb_spec 0 e); [| lia].
  eexists. split; [reflexivity |].
  destruct s; [lia | specialize (H31 eq_refl); lia].
Qed.

(** X12: [toInt32] of a Number with a finite value is a Number whose value
    is an integer above [-2^32] and below [2^31]. *)
Theorem toInt32_range `{NativeExceptions} cf s2n fuel (st : State) (n : Ref) (cell : BaseType) (d : number) :
  heap st !! n = Some cell ->
  type cell = TNumber ->
  value cell = RNum d ->
  isFinite d = true ->
  exists r st' x z,
    toInt32 cf s2n fuel (Some n) st = Normal r st'
    /\ typeOf r st' = Some TNumber
    /\ valueOf r st' = Some (RNum x)
    /\ integerOf x = Some z
    /\ - 2 ^ 32 < z < 2 ^ 31.
Proof.
  intros Hcell Hty Hval Hfin.
  destruct (toInt32_Number cf s2n fuel st n cell Hcell Hty) as (st' & Hrun & Hty' & Hval').
  rewrite Hval in Hval'.
  destruct (integerOf_small _ (toInt32_value_small s2n d Hfin)) as (z & Hz & Hrange).
  exists (length (heap st)), st', (toInt32_value s2n (RNum d)), z.
  repeat (split; [assumption |]). exact Hrange.
Qed.

Lemma toInt32_range_witness :
  exists r st' x z,
    toInt32 noCall noStrings 0 (Some 0%nat) bigNegative = Normal r st'
    /\ typeOf r st' = Some TNumber
    /\ valueOf r st' = Some (RNum x)
    /\ integerOf x = Some z
    /\ - 2 ^ 32 < z < 2 ^ 31.
Proof.
  exact (toInt32_range noCall noStrings 0 bigNegative 0%nat
           (numberCell NoClosure (Finite true 5 31)) (Finite true 5 31)
           eq_refl eq_refl eq_refl eq_refl).
Defined.

(** The remainder [sign * Math.floor(Math.abs(d)) % Math.pow(2, k)] of a
    finite [d]: an integer below [2^k] in absolute value, with the sign of
    [d]. *)
Lemma truncated_remainder (k : Z) (s : bool) (m : N) (e : Z) :
  0 < k ->
  let d := Finite s m e in
  let sign := if lt d zero then neg_one else one in
  exists z,
    integerOf (rem_pow2 (mul sign (floor (abs d))) k) = Some z
    /\ - 2 ^ k < z < 2 ^ k
    /\ (if lt d zero then z <= 0 else 0 <= z).
Proof.
  intros Hk d sign. subst d sign.
  destruct (floor_abs_shape s m e) as (m1 & e1 & -> & He1 & _).
  set (sg := lt (Finite s m e) zero).
  assert (Hsign : (if sg then neg_one else one) = Finite sg 1 0) by (destruct sg; reflexivity).
  rewrite Hsign. cbn [mul]. rewrite xorb_false_r, N.mul_1_l, Z.add_0_l.
  assert (Hpow : 0 < 2 ^ k) by (apply Z.pow_pos_nonneg; lia).
  unfold rem_pow2. destruct (Z.leb_spec (k - e1) 0) as [Hle | Hgt].
  - exists ((if sg then -1 else 1) * magnitude 0 0). cbn [integerOf]. split; [reflexivity |].
    change (magnitude 0 0) with 0. rewrite Z.mul_0_r. split; [lia | destruct sg; lia].
  - pose proof (magnitude_mod m1 e1 k He1 ltac:(lia)) as Hlt.
    pose proof (magnitude_nonneg (m1 mod 2 ^ Z.to_N (k - e1)) e1) as Hnn.
    eexists. unfold integerOf. destruct (Z.leb_spec 0 e1); [| lia].
    split; [reflexivity |]. destruct sg; lia.
Qed.

Lemma toUint32_Number `{NativeExceptions} cf s2n fuel (st : State) (n : Ref) (cell : BaseType) :
  heap st !! n = Some cell -> type cell = TNumber ->
  exists st',
    toUint32 cf s2n fuel (Some n) st = Normal (length (heap st)) st'
    /\ typeOf (length (heap st)) st' = Some TNumber
    /\ valueOf (length (heap st)) st' = Some (RNum (toUint32_value s2n (value cell))).
Proof. apply (convert_Number (toUint32_value s2n) (toUint32 cf s2n) cf s2n). reflexivity. Qed.

Lemma toUint16_Number `{NativeExceptions} cf s2n fuel (st : State) (n : Ref) (cell : BaseType) :
  heap st !! n = Some cell -> type cell = TNumber ->
  exists st',
    toUint16 cf s2n fuel (Some n) st = Normal (length (heap st)) st'
    /\ typeOf (length (heap st)) st' = Some TNumber
    /\ valueOf (length (heap st)) st' = Some (RNum (toUint16_value s2n (value cell))).
Proof. apply (convert_Number (toUint16_value s2n) (toUint16 cf s2n) cf s2n). reflexivity. Qed.

(** X13: [toUint32] and [toUint16] of a Number with a finite value [d] give
    an integer below [2^32], respectively [2^16], in absolute value that has
    the sign of [d]: it is not positive when [d < 0], nothing being added to
    a negative remainder. *)
Theorem toUint_range `{NativeExceptions} cf s2n fuel (st : State) (n : Ref) (cell : BaseType) (d : number) :
  heap st !! n = Some cell ->
  type cell = TNumber ->
  value cell = RNum d ->
  isFinite d = true ->
  (exists r st' x z,
      toUint32 cf s2n fuel (Some n) st = Normal r st'
      /\ typeOf r st' = Some TNumber
      /\ valueOf r st' = Some (RNum x)
      /\ integerOf x = Some z
      /\ - 2 ^ 32 < z < 2 ^ 32
      /\ (if Number.lt d Number.zero then z <= 0 else 0 <= z))
  /\ (exists r st' x z,
         toUint16 cf s2n fuel (Some n) st = Normal r st'
         /\ typeOf r st' = Some TNumber
         /\ valueOf r st' = Some (RNum x)
         /\ integerOf x = Some z
         /\ - 2 ^ 16 < z < 2 ^ 16
         /\ (if Number.lt d Number.zero then z <= 0 else 0 <= z)).
Proof.
  intros Hcell Hty Hval Hfin.
  destruct d as [| | s m e]; try discriminate Hfin.
  split.
  - destruct (toUint32_Number cf s2n fuel st n cell Hcell Hty) as (st' & Hrun & Hty' & Hval').
    rewrite Hval in Hval'.
    destruct (truncated_remainder 32 s m e ltac:(lia)) as (z & Hz & Hrange & Hsign).
    exists (length (heap st)), st', (toUint32_value s2n (RNum (Finite s m e))), z.
    repeat (split; [assumption |]). exact Hsign.
  - destruct (toUint16_Number cf s2n fuel st n cell Hcell Hty) as (st' & Hrun & Hty' & Hval').
    rewrite Hval in Hval'.
    destruct (truncated_remainder 16 s m e ltac:(lia)) as (z & Hz & Hrange & Hsign).
    exists (length (heap st)), st', (toUint16_value s2n (RNum (Finite s m e))), z.
    repeat (split; [assumption |]). exact Hsign.
Qed.

Lemma toUint_range_witness :
  (exists r st' x z,
      toUint32 noCall noStrings 0 (Some 0%nat) bigNegative = Normal r st'
      /\ typeOf r st' = Some TNumber
      /\ valueOf r st' = Some (RNum x)
      /\ integerOf x = Some z
      /\ - 2 ^ 32 < z < 2 ^ 32
      /\ z <= 0)
  /\ (exists r st' x z,
         toUint16 noCall noStrings 0 (Some 0%nat) bigNegative = Normal r st'
         /\ typeOf r st' = Some TNumber
         /\ valueOf r st' = Some (RNum x)
         /\ integerOf x = Some z
         /\ - 2 ^ 16 < z < 2 ^ 16
         /\ z <= 0).
Proof.
  exact (toUint_range noCall noStrings 0 bigNegative 0%nat
           (numberCell NoClosure (Finite true 5 31)) (Finite true 5 31)
           eq_refl eq_refl eq_refl eq_refl).
Defined.

Lemma toInteger_value_idempotent (s2n : string -> number) (d : number) :
  strict_eq (toInteger_value s2n (RNum (toInteger_value s2n (RNum d))))
    (toInteger_value s2n (RNum d)) = true.
Proof.
  destruct d as [| s | s m e].
  - reflexivity.
  - destruct s; reflexivity.
  - destruct (floor_abs_shape s m e) as (m1 & e1 & Hshape & He1 & _).
    set (sg := lt (Finite s m e) zero).
    assert (Hsign : (if sg then neg_one else one) = Finite sg 1 0) by (destruct sg; reflexivity).
    assert (Hr : toInteger_value s2n (RNum (Finite s m e)) = Finite sg m1 e1).
    { unfold toInteger_value. cbn [raw_to_number isNaN]. fold sg. rewrite Hshape, Hsign.
      cbn [mul]. rewrite xorb_false_r, N.mul_1_l, Z.add_0_l. reflexivity. }
    rewrite Hr.
    unfold toInteger_value. cbn [raw_to_number isNaN].
    rewrite lt_zero by exact He1.
    unfold abs, floor. assert (Hle : (0 <=? e1) = true) by (apply Z.leb_le; exact He1).
    rewrite Hle.
    set (sg' := sg && negb (magnitude m1 e1 =? 0)).
    assert (Hsign' : (if sg' then neg_one else one) = Finite sg' 1 0)
      by (destruct sg'; reflexivity).
    rewrite Hsign'. cbn [mul]. rewrite xorb_false_r, N.mul_1_l, Z.add_0_l.
    apply strict_eq_Finite; [lia | lia |].
    subst sg'. destruct sg; cbn [andb]; [| reflexivity].
    destruct (Z.eqb_spec (magnitude m1 e1) 0) as [-> | Hne]; reflexivity.
Qed.

Lemma toInteger_Number `{NativeExceptions} cf s2n fuel (st : State) (n : Ref) (cell : BaseType) :
  heap st !! n = Some cell -> type cell = TNumber ->
  exists st',
    toInteger cf s2n fuel (Some n) st = Normal (length (heap st)) st'
    /\ typeOf (length (heap st)) st' = Some TNumber
    /\ valueOf (length (heap st)) st' = Some (RNum (toInteger_value s2n (value cell))).
Proof. apply (convert_Number (toInteger_value s2n) (toInteger cf s2n) cf s2n). reflexivity. Qed.

(** X14: [toInteger] is idempotent on every Number, NaN and the infinities
    included: converting its result again yields a Number with an equal
    ([===]) value. *)
Theorem toInteger_idempotent `{NativeExceptions} cf s2n fuel (st : State) (n : Ref) (cell : BaseType) (d : number) :
  heap st !! n = Some cell ->
  type cell = TNumber ->
  value cell = RNum d ->
  exists r1 st1 d1 r2 st2 d2,
    toInteger cf s2n fuel (Some n) st = Normal r1 st1
    /\ typeOf r1 st1 = Some TNumber /\ valueOf r1 st1 = Some (RNum d1)
    /\ toInteger cf s2n fuel (Some r1) st1 = Normal r2 st2
    /\ typeOf r2 st2 = Some TNumber /\ valueOf r2 st2 = Some (RNum d2)
    /\ Number.strict_eq d2 d1 = true.
Proof.
  intros Hcell Hty Hval.
  destruct (toInteger_Number cf s2n fuel st n cell Hcell Hty) as (st1 & Hrun1 & Hty1 & Hval1).
  rewrite Hval in Hval1.
  assert (Hcell1 : exists c1, heap st1 !! length (heap st) = Some c1
                              /\ type c1 = TNumber
                              /\ value c1 = RNum (toInteger_value s2n (RNum d))).
  { unfold typeOf, valueOf in Hty1, Hval1.
    destruct (heap st1 !! length (heap st)) as [c1 |]; [| discriminate].
    exists c1. cbn in Hty1, Hval1. split; [reflexivity | split; congruence]. }
  destruct Hcell1 as (c1 & Hc1 & Htc1 & Hvc1).
  destruct (toInteger_Number cf s2n fuel st1 _ c1 Hc1 Htc1) as (st2 & Hrun2 & Hty2 & Hval2).
  rewrite Hvc1 in Hval2.
  exists (length (heap st)), st1, (toInteger_value s2n (RNum d)),
    (length (heap st1)), st2, (toInteger_value s2n (RNum (toInteger_value s2n (RNum d)))).
  repeat (split; [assumption |]).
  apply toInteger_value_idempotent.
Qed.

Lemma toInteger_idempotent_witness :
  exists r1 st1 d1 r2 st2 d2,
    toInteger noCall noStrings 0 (Some 2%nat) zerosAndNaNs = Normal r1 st1
    /\ typeOf r1 st1 = Some TNumber /\ valueOf r1 st1 = Some (RNum d1)
    /\ toInteger noCall noStrings 0 (Some r1) st1 = Normal r2 st2
    /\ typeOf r2 st2 = Some TNumber /\ valueOf r2 st2 = Some (RNum d2)
    /\ Number.strict_eq d2 d1 = true.
Proof.
  exact (toInteger_idempotent noCall noStrings 0 zerosAndNaNs 2%nat
           (numberCell NoClosure NaN) NaN eq_refl eq_refl eq_refl).
Defined.

(** ** Declarative environment records *)

Lemma bindingOf_setBinding (st : State) (e : EnvRef) (r : EnvironmentRecord) (n : string)
    (b : Binding) :
  envRecs st !! e = Some r ->
  exists st',
    setBinding e n b st = Normal tt st'
    /\ st' = set_envRecs (<[e := set_bindings (<[n := b]> (_bindings r)) r]> (envRecs st)) st
    /\ bindingOf e n st' = Some (Some b)
    /\ forall q, q <> n -> bindingOf e q st' = bindingOf e q st.
Proof.
  intros Hr. pose proof (lookup_lt_Some _ _ _ Hr) as Hlt.
  eexists. split; [unfold setBinding; exec |]. split; [reflexivity |].
  unfold bindingOf. cbn -[lookup insert]. rewrite list_lookup_insert_eq by exact Hlt. cbn.
  split.
  - rewrite lookup_insert_eq. reflexivity.
  - intros q Hq. rewrite Hr. cbn. rewrite lookup_insert_ne by congruence. reflexivity.
Qed.

(** X15: [createMutableBinding(n, d)] for a name the record does not bind
    makes [hasBinding(n)] true and binds [n] to a new Undefined value, which
    [getBindingValue] returns in strict mode as in non-strict mode;
    creating the binding a second time throws an Error. *)
Theorem createMutableBinding_binds `{NativeExceptions} (st : State) (e : EnvRef) (r : EnvironmentRecord)
    (n : string) (d s : bool) :
  envRecs st !! e = Some r ->
  _bindings r !! n = None ->
  String.eqb n "__proto__" = false ->
  exists st' u,
    DeclarativeEnvironmentRecord_createMutableBinding e n d st = Normal tt st'
    /\ DeclarativeEnvironmentRecord_hasBinding e n st' = Some true
    /\ heap st !! u = None
    /\ typeOf u st' = Some TUndefined
    /\ DeclarativeEnvironmentRecord_getBindingValue e n s st' = Normal u st'
    /\ exists message,
         DeclarativeEnvironmentRecord_createMutableBinding e n d st'
         = Abrupt (InternalError message) st'.
Proof.
  intros Hr Hn Hproto. pose proof (lookup_lt_Some _ _ _ Hr) as Hlt.
  set (st0 := set_heap (heap st ++ [undefinedCell (currentClosure st)]) st).
  destruct (bindingOf_setBinding st0 e r n (mkBinding (length (heap st)) ∅ d true None) Hr)
    as (st' & Hset & Hst' & Hbound & _).
  exists st', (length (heap st)).
  assert (Hr' : envRecs st' !! e
                = Some (set_bindings (<[n := mkBinding (length (heap st)) ∅ d true None]>
                                        (_bindings r)) r)).
  { rewrite Hst'. cbn -[lookup insert]. apply list_lookup_insert_eq. exact Hlt. }
  split; [| split; [| split; [| split; [| split]]]].
  - unfold DeclarativeEnvironmentRecord_createMutableBinding, bindingExists, assignBinding,
      UndefinedType, alloc.
    read_with (Hr : (fun s0 => envRecs s0 !! e) st = Some r). rewrite Hn. cbn -[lookup insert].
    rewrite Hproto. exact Hset.
  - unfold DeclarativeEnvironmentRecord_hasBinding, bindingExists. rewrite Hr'. cbn.
    rewrite lookup_insert_eq. reflexivity.
  - apply lookup_ge_None. lia.
  - rewrite Hst'. unfold typeOf. cbn -[lookup insert].
    rewrite list_lookup_middle by reflexivity. reflexivity.
  - unfold DeclarativeEnvironmentRecord_getBindingValue.
    read_with Hbound. rewrite andb_false_r. reflexivity.
  - eexists. unfold DeclarativeEnvironmentRecord_createMutableBinding, bindingExists.
    read_with (Hr' : (fun s0 => envRecs s0 !! e) st' = Some _).
    rewrite lookup_insert_eq. reflexivity.
Qed.

Lemma createMutableBinding_binds_witness :
  exists st' u,
    DeclarativeEnvironmentRecord_createMutableBinding 0%nat "x" false insideTry = Normal tt st'
    /\ DeclarativeEnvironmentRecord_hasBinding 0%nat "x" st' = Some true
    /\ heap insideTry !! u = None
    /\ typeOf u st' = Some TUndefined
    /\ DeclarativeEnvironmentRecord_getBindingValue 0%nat "x" true st' = Normal u st'
    /\ exists message,
         DeclarativeEnvironmentRecord_createMutableBinding 0%nat "x" false st'
         = Abrupt (InternalError message) st'.
Proof.
  exact (createMutableBinding_binds insideTry 0%nat (declarativeRecord ∅ []) "x" false true
           eq_refl eq_refl eq_refl).
Defined.

(** X16: [deleteBinding(n)] removes a binding only if it is deletable.  A
    deletable binding is removed, the others staying as they are, and the
    answer is [true]; for a binding that is not deletable the answer is
    [false] and nothing changes; for a name that is not bound the answer is
    [true], unless the host's [Object.prototype] defines the name. *)
Theorem deleteBinding_spec oph (st : State) (e : EnvRef) (r : EnvironmentRecord) (n : string) :
  envRecs st !! e = Some r ->
  match _bindings r !! n with
  | Some b =>
      if isDeletable b then
        exists st',
          DeclarativeEnvironmentRecord_deleteBinding oph e n st = Normal true st'
          /\ DeclarativeEnvironmentRecord_hasBinding e n st' = Some false
          /\ forall q, String.eqb q n = false -> bindingOf e q st' = bindingOf e q st
      else DeclarativeEnvironmentRecord_deleteBinding oph e n st = Normal false st
  | None => DeclarativeEnvironmentRecord_deleteBinding oph e n st = Normal (negb (oph n)) st
  end.
Proof.
  intros Hr. pose proof (lookup_lt_Some _ _ _ Hr) as Hlt.
  unfold DeclarativeEnvironmentRecord_deleteBinding.
  destruct (_bindings r !! n) as [b |] eqn:Hb.
  - destruct (isDeletable b) eqn:Hd.
    + eexists. split; [| split].
      * read_with (Hr : (fun s0 => envRecs s0 !! e) st = Some r). rewrite Hb, Hd. reflexivity.
      * unfold DeclarativeEnvironmentRecord_hasBinding, bindingExists. cbn -[lookup insert].
        rewrite list_lookup_insert_eq by exact Hlt. cbn. rewrite lookup_delete_eq. reflexivity.
      * intros q Hq. apply String.eqb_neq in Hq. unfold bindingOf. cbn -[lookup insert].
        rewrite list_lookup_insert_eq by exact Hlt. rewrite Hr. cbn.
        rewrite lookup_delete_ne by congruence. reflexivity.
    + read_with (Hr : (fun s0 => envRecs s0 !! e) st = Some r). rewrite Hb, Hd. reflexivity.
  - read_with (Hr : (fun s0 => envRecs s0 !! e) st = Some r). rewrite Hb.
    destruct (oph n); reflexivity.
Qed.

Lemma deleteBinding_spec_witness :
  DeclarativeEnvironmentRecord_deleteBinding noInheritedNames 1%nat "x" calledWhileSkipped
  = Normal false calledWhileSkipped.
Proof.
  exact (deleteBinding_spec noInheritedNames calledWhileSkipped 1%nat
           (declarativeRecord {[ "x" := mkBinding 0%nat ∅ false true None ]} []) "x" eq_refl).
Defined.

(** X17: the life of an immutable binding.  [createImmutableBinding(n)]
    binds [n] to a new Undefined value, which a non-strict
    [getBindingValue] returns; after [initializeImmutableBinding(n, v)],
    [getBindingValue] returns [v] in either mode, a second initialisation
    throws an Error, and a non-strict [setMutableBinding] leaves the state
    as it is. *)
Theorem immutableBinding_lifecycle `{NativeExceptions} oph (st : State) (e : EnvRef) (r : EnvironmentRecord)
    (n : string) (v w : Ref) (s : bool) :
  envRecs st !! e = Some r ->
  _bindings r !! n = None ->
  String.eqb n "__proto__" = false ->
  exists st1 u st2,
    DeclarativeEnvironmentRecord_createImmutableBinding e n st = Normal tt st1
    /\ DeclarativeEnvironmentRecord_getBindingValue e n false st1 = Normal u st1
    /\ typeOf u st1 = Some TUndefined
    /\ DeclarativeEnvironmentRecord_initializeImmutableBinding oph e n v st1 = Normal tt st2
    /\ DeclarativeEnvironmentRecord_getBindingValue e n s st2 = Normal v st2
    /\ DeclarativeEnvironmentRecord_setMutableBinding e n w false st2 = Normal tt st2
    /\ exists message,
         DeclarativeEnvironmentRecord_initializeImmutableBinding oph e n v st2
         = Abrupt (InternalError message) st2.
Proof.
  intros Hr Hn Hproto. pose proof (lookup_lt_Some _ _ _ Hr) as Hlt.
  set (st0 := set_heap (heap st ++ [undefinedCell (currentClosure st)]) st).
  set (b1 := mkBinding (length (heap st)) ∅ false false (Some false)).
  destruct (bindingOf_setBinding st0 e r n b1 Hr) as (st1 & Hset1 & Hst1 & Hbound1 & _).
  assert (Hr1 : envRecs st1 !! e = Some (set_bindings (<[n := b1]> (_bindings r)) r)).
  { rewrite Hst1. cbn -[lookup insert]. apply list_lookup_insert_eq. exact Hlt. }
  set (b2 := mkBinding v ∅ false false (Some true)).
  destruct (bindingOf_setBinding st1 e _ n b2 Hr1) as (st2 & Hset2 & Hst2 & Hbound2 & _).
  assert (Hr2 : exists r2, envRecs st2 !! e = Some r2 /\ _bindings r2 !! n = Some b2).
  { unfold bindingOf in Hbound2. destruct (envRecs st2 !! e) as [r2 |]; [| discriminate].
    exists r2. cbn in Hbound2. split; congruence. }
  destruct Hr2 as (r2 & Hr2 & Hn2).
  exists st1, (length (heap st)), st2.
  split; [| split; [| split; [| split; [| split; [| split]]]]].
  - unfold DeclarativeEnvironmentRecord_createImmutableBinding, bindingExists, assignBinding,
      UndefinedType, alloc.
    read_with (Hr : (fun s0 => envRecs s0 !! e) st = Some r). rewrite Hn. cbn -[lookup insert].
    rewrite Hproto. exact Hset1.
  - unfold DeclarativeEnvironmentRecord_getBindingValue. read_with Hbound1. reflexivity.
  - rewrite Hst1. unfold typeOf. cbn -[lookup insert].
    rewrite list_lookup_middle by reflexivity. reflexivity.
  - unfold DeclarativeEnvironmentRecord_initializeImmutableBinding.
    read_with (Hr1 : (fun s0 => envRecs s0 !! e) st1 = Some _).
    rewrite lookup_insert_eq. cbn -[lookup insert]. exact Hset2.
  - unfold DeclarativeEnvironmentRecord_getBindingValue. read_with Hbound2.
    rewrite andb_false_r. reflexivity.
  - unfold DeclarativeEnvironmentRecord_setMutableBinding. read_with Hbound2. reflexivity.
  - eexists. unfold DeclarativeEnvironmentRecord_initializeImmutableBinding.
    read_with (Hr2 : (fun s0 => envRecs s0 !! e) st2 = Some r2). rewrite Hn2. reflexivity.
Qed.

Lemma immutableBinding_lifecycle_witness :
  exists st1 u st2,
    DeclarativeEnvironmentRecord_createImmutableBinding 0%nat "f" plainObject = Normal tt st1
    /\ DeclarativeEnvironmentRecord_getBindingValue 0%nat "f" false st1 = Normal u st1
    /\ typeOf u st1 = Some TUndefined
    /\ DeclarativeEnvironmentRecord_initializeImmutableBinding noInheritedNames 0%nat "f"
         0%nat st1 = Normal tt st2
    /\ DeclarativeEnvironmentRecord_getBindingValue 0%nat "f" true st2 = Normal 0%nat st2
    /\ DeclarativeEnvironmentRecord_setMutableBinding 0%nat "f" 1%nat false st2 = Normal tt st2
    /\ exists message,
         DeclarativeEnvironmentRecord_initializeImmutableBinding noInheritedNames 0%nat "f"
           0%nat st2 = Abrupt (InternalError message) st2.
Proof.
  exact (immutableBinding_lifecycle noInheritedNames plainObject 0%nat
           (declarativeRecord ∅ []) "f" 0%nat 1%nat true eq_refl eq_refl eq_refl).
Defined.

(** X18: a strict [getBindingValue] of an immutable binding that has not
    been initialised, outside skipped mode: with native exception recovery
    (and not in exact mode) a ReferenceError is reported and the result is a
    new Unknown value; otherwise [throwNativeException] is called with the
    ReferenceError, in the state as it is, and the call ends the
    operation. *)
Theorem getBindingValue_uninitialized `{NativeExceptions} (st : State) (e : EnvRef)
    (n : string) (b : Binding) :
  bindingOf e n st = Some (Some b) ->
  isMutable b = false ->
  truthy (isInitialized b) = false ->
  isSkippedMode st = Some false ->
  let message := ("Could not get value: binding " +:+ quoted n +:+ " has not been initialized")%string in
  if nativeExceptionRecovery (options st) && negb (exactMode (options st)) then
    exists st',
      DeclarativeEnvironmentRecord_getBindingValue e n true st
      = Normal (length (heap st)) st'
      /\ typeOf (length (heap st)) st' = Some TUnknown
      /\ events st' = events st ++ [errorReported "ReferenceError" message]
  else
    DeclarativeEnvironmentRecord_getBindingValue e n true st
    = thrown (throwNativeException "ReferenceError" message st).
Proof.
  intros Hb Hmut Hinit Hskipped message.
  unfold DeclarativeEnvironmentRecord_getBindingValue, handleRecoverableNativeException,
    reportError, fireEvent, UnknownType, alloc.
  destruct (nativeExceptionRecovery (options st)) eqn:Hrec,
    (exactMode (options st)) eqn:Hexact; cbn [andb negb].
  2: { eexists. split; [| split].
       - read_with Hb. rewrite Hmut, Hinit. cbn -[lookup insert].
         unfold bind, read, modify, ret. rewrite Hskipped. cbn -[lookup insert].
         rewrite Hrec, Hexact. cbn -[lookup insert]. rewrite Hexact. reflexivity.
       - unfold typeOf. cbn -[lookup insert]. rewrite list_lookup_middle by reflexivity.
         reflexivity.
       - reflexivity. }
  all: read_with Hb; rewrite Hmut, Hinit; cbn -[lookup insert];
    unfold bind, read, modify, ret, throw, thrown; rewrite Hskipped; cbn -[lookup insert];
    rewrite Hrec, Hexact; cbn -[lookup insert]; subst message;
    destruct (throwNativeException _ _ _) as [[] | |]; reflexivity.
Qed.

Lemma getBindingValue_uninitialized_witness :
  exists st',
    DeclarativeEnvironmentRecord_getBindingValue 0%nat "f" true uninitializedBinding
    = Normal (length (heap uninitializedBinding)) st'
    /\ typeOf (length (heap uninitializedBinding)) st' = Some TUnknown
    /\ events st'
       = events uninitializedBinding
         ++ [errorReported "ReferenceError"
               ("Could not get value: binding " +:+ quoted "f" +:+ " has not been initialized")].
Proof.
  exact (getBindingValue_uninitialized uninitializedBinding 0%nat "f"
           (mkBinding 0%nat ∅ false false (Some false)) eq_refl eq_refl eq_refl eq_refl).
Defined.

(** ** Identifier resolution *)

(** What a new reference looks like. *)
Lemma new_reference (st : State) (b : Base) (name : string) (strictRef : bool) :
  exists st',
    (newRef <- ReferenceType None EmptyString false ;;
     setReference newRef b name strictRef ;; ret newRef) st
    = Normal (length (heap st)) st'
    /\ heap st'
       = heap st ++ [mkBaseType false false "Reference" TReference (currentClosure st)
                       RUndefined None false None false None (Some b) name strictRef]
    /\ envRecs st' = envRecs st
    /\ contexts st' = contexts st.
Proof.
  eexists. split.
  { unfold ReferenceType, alloc, setReference. unfold bind, read, modify, ret.
    cbn -[lookup insert]. rewrite list_lookup_middle by reflexivity. reflexivity. }
  split; [| split; reflexivity].
  cbn -[lookup insert].
  rewrite insert_app_r_alt by reflexivity. rewrite Nat.sub_diag. reflexivity.
Qed.

Lemma unresolvable_reference (st : State) (name : string) (strictRef : bool) :
  exists st',
    (newRef <- ReferenceType None EmptyString false ;;
     u <- UndefinedType ;;
     setReference newRef (BaseValue u) name strictRef ;; ret newRef) st
    = Normal (length (heap st)) st'
    /\ heap st'
       = heap st ++ [mkBaseType false false "Reference" TReference (currentClosure st)
                       RUndefined None false None false None
                       (Some (BaseValue (S (length (heap st))))) name strictRef;
                     undefinedCell (currentClosure st)]
    /\ envRecs st' = envRecs st
    /\ contexts st' = contexts st.
Proof.
  eexists. split.
  { unfold ReferenceType, UndefinedType, alloc, setReference. unfold bind, read, modify, ret.
    cbn -[lookup insert].
    rewrite <- app_assoc. cbn -[lookup insert].
    rewrite list_lookup_middle by reflexivity. reflexivity. }
  split; [| split; reflexivity].
  cbn -[lookup insert]. rewrite insert_app_r_alt by reflexivity.
  rewrite Nat.sub_diag, length_app, Nat.add_comm. reflexivity.
Qed.

Lemma EnvironmentRecord_hasBinding_declarative (st : State) (e : EnvRef) (name : string) :
  declarative st e = true ->
  EnvironmentRecord_hasBinding e name st = Normal (binds st name e) st.
Proof.
  unfold declarative, binds, EnvironmentRecord_hasBinding, DeclarativeEnvironmentRecord_hasBinding,
    bindingExists.
  destruct (envRecs st !! e) as [r |] eqn:Hr; [| discriminate]. intros Hd.
  read_with (Hr : (fun s => envRecs s !! e) st = Some r).
  destruct (_bindingObject r); [discriminate |]. unfold read. rewrite Hr. reflexivity.
Qed.

(** Resolution in a chain of declarative records comes down to [find]. *)
Lemma getIdentifierReference_from_find (st : State) (lex : LexicalEnvironment)
    (name : string) (strict : bool) :
  forallb (declarative st) (scopeChain lex) = true ->
  getIdentifierReference_from lex name strict st
  = match find (binds st name) (scopeChain lex) with
    | Some e =>
        (newRef <- ReferenceType None EmptyString false ;;
         setReference newRef (BaseEnvRec e) name strict ;; ret newRef) st
    | None =>
        (newRef <- ReferenceType None EmptyString false ;;
         u <- UndefinedType ;;
         setReference newRef (BaseValue u) name strict ;; ret newRef) st
    end.
Proof.
  revert lex. fix IH 1. intros [id e out] Hchain.
  cbn [scopeChain forallb] in Hchain. apply andb_prop in Hchain as [He Hrest].
  cbn [getIdentifierReference_from scopeChain find].
  unfold bind at 1. rewrite (EnvironmentRecord_hasBinding_declarative st e name He).
  destruct (binds st name e); [reflexivity |].
  destruct out as [o |]; [apply (IH o Hrest) | reflexivity].
Qed.

(** X19: in a scope chain of declarative environment records,
    [getIdentifierReference] returns a new Reference, with the name and the
    strict flag it was given, whose base is the innermost record that binds
    the name; when no record binds it the base is a new Undefined value,
    which makes the reference unresolvable.  Nothing else changes. *)
Theorem getIdentifierReference_innermost (st : State) (lex : LexicalEnvironment)
    (name : string) (strict : bool) :
  forallb (declarative st) (scopeChain lex) = true ->
  exists st' cell,
    getIdentifierReference (Some lex) name strict st = Normal (length (heap st)) st'
    /\ heap st' !! length (heap st) = Some cell
    /\ type cell = TReference
    /\ referencedName cell = name
    /\ strictReference cell = strict
    /\ envRecs st' = envRecs st
    /\ (forall r c, heap st !! r = Some c -> heap st' !! r = Some c)
    /\ match find (binds st name) (scopeChain lex) with
       | Some e => baseValue cell = Some (BaseEnvRec e)
       | None => isUnresolvableReference (length (heap st)) st' = Some true
       end.
Proof.
  intros Hchain. unfold getIdentifierReference.
  rewrite (getIdentifierReference_from_find st lex name strict Hchain).
  destruct (find (binds st name) (scopeChain lex)) as [e |].
  - destruct (new_reference st (BaseEnvRec e) name strict) as (st' & Hrun & Hheap & Hers & _).
    exists st'. eexists. split; [exact Hrun |].
    split; [rewrite Hheap; apply list_lookup_middle; reflexivity |].
    repeat (split; [reflexivity || assumption |]).
    split; [| reflexivity].
    intros r c Hr. rewrite Hheap. apply lookup_app_l_Some, Hr.
  - destruct (unresolvable_reference st name strict) as (st' & Hrun & Hheap & Hers & _).
    exists st'. eexists. split; [exact Hrun |].
    split; [rewrite Hheap; apply list_lookup_middle; reflexivity |].
    repeat (split; [reflexivity || assumption |]).
    split.
    + intros r c Hr. rewrite Hheap. apply lookup_app_l_Some, Hr.
    + unfold isUnresolvableReference, typeOf. rewrite Hheap.
      rewrite list_lookup_middle by reflexivity. cbn -[lookup].
      replace (S (length (heap st))) with (length (heap st) + 1)%nat by lia.
      rewrite lookup_app_r by lia.
      replace (length (heap st) + 1 - length (heap st))%nat with 1%nat by lia. reflexivity.
Qed.

Lemma getIdentifierReference_innermost_witness :
  exists st' cell,
    getIdentifierReference (Some nestedScope) "y" true nestedScopes = Normal 2%nat st'
    /\ heap st' !! 2%nat = Some cell
    /\ type cell = TReference
    /\ referencedName cell = "y"%string
    /\ strictReference cell = true
    /\ envRecs st' = envRecs nestedScopes
    /\ (forall r c, heap nestedScopes !! r = Some c -> heap st' !! r = Some c)
    /\ baseValue cell = Some (BaseEnvRec 0).
Proof.
  exact (getIdentifierReference_innermost nestedScopes nestedScope "y" true eq_refl).
Defined.

(** X20: [getValue] of an unresolvable reference.  Outside skipped mode,
    with native exception recovery on and exact mode off, the ReferenceError
    is reported and the result is a new Unknown value; otherwise
    [throwNativeException] is called with the ReferenceError, in the state
    as it is, and the call ends the operation.  In skipped mode nothing is
    reported and the result is a new Unknown value, which exact mode
    refuses to create, with an error that names the current location. *)
Theorem getValue_unresolvable `{NativeExceptions} cf gpb sf (st : State) (v : Ref)
    (cell : BaseType) (skipped : bool) :
  heap st !! v = Some cell ->
  type cell = TReference ->
  isUnresolvableReference v st = Some true ->
  isSkippedMode st = Some skipped ->
  let message := (quoted (referencedName cell) +:+ " is not defined")%string in
  let unknown := mkBaseType false false "Unknown" TUnknown (currentClosure st) RUndefined None
                   false None false None None EmptyString false in
  getValue cf gpb sf v st
  = if skipped then
      if exactMode (options st)
      then Abrupt (InternalError ("Attempted to instantiate an unknown type in exact mode at "
                                  +:+ filename (currentLocation st) +:+ ":"
                                  +:+ String_of_N (line (currentLocation st)))) st
      else Normal (length (heap st)) (set_heap (heap st ++ [unknown]) st)
    else if nativeExceptionRecovery (options st) && negb (exactMode (options st))
    then Normal (length (heap st))
           (set_heap (heap st ++ [unknown])
              (set_events (events st ++ [errorReported "ReferenceError" message]) st))
    else thrown (throwNativeException "ReferenceError" message st).
Proof.
  intros Hv Hty Hunres Hskipped message unknown.
  unfold getValue, handleRecoverableNativeException, reportError, fireEvent, UnknownType,
    alloc.
  read_with (typeOf_Some _ _ _ Hv). rewrite Hty. cbn -[lookup insert].
  read_with (Hv : (fun s => heap s !! v) st = Some cell).
  read_with Hunres.
  unfold bind, read, modify, ret, throw, thrown. rewrite Hskipped. subst message.
  destruct skipped, (nativeExceptionRecovery (options st)) eqn:Hrec,
    (exactMode (options st)) eqn:Hexact; cbn -[lookup insert];
    rewrite ?Hrec, ?Hexact; cbn -[lookup insert]; rewrite ?Hexact; try reflexivity;
    destruct (throwNativeException _ _ _) as [[] | |]; reflexivity.
Qed.

Lemma getValue_unresolvable_witness :
  getValue noCall noPrimitiveGet noStrictFunctions 2%nat (globalState true 0)
  = Normal 4%nat
      (set_heap (heap (globalState true 0) ++ [unknownCell (ContextClosure 0)])
         (set_events [errorReported "ReferenceError" (quoted "x" +:+ " is not defined")]
            (globalState true 0))).
Proof.
  exact (getValue_unresolvable noCall noPrimitiveGet noStrictFunctions (globalState true 0)
           2%nat (referenceCell (ContextClosure 0) (BaseValue 1) "x" true) false
           eq_refl eq_refl eq_refl eq_refl).
Defined.

(** X21: resolving an identifier and reading it.  In a scope chain of
    declarative records where the innermost record that binds the name is
    [e], [getValue] of the reference that [getIdentifierReference] returns
    is the value bound in [e], provided the binding is mutable or
    initialised or the code is not strict. *)
Theorem getValue_of_identifier `{NativeExceptions} cf gpb sf (st : State) (lex : LexicalEnvironment)
    (name : string) (strict : bool) (e : EnvRef) (b : Binding) :
  forallb (declarative st) (scopeChain lex) = true ->
  find (binds st name) (scopeChain lex) = Some e ->
  bindingOf e name st = Some (Some b) ->
  strict && negb (isMutable b) && negb (truthy (isInitialized b)) = false ->
  exists r st',
    getIdentifierReference (Some lex) name strict st = Normal r st'
    /\ getValue cf gpb sf r st' = Normal (b_value b) st'.
Proof.
  intros Hchain Hfind Hb Hreadable.
  destruct (new_reference st (BaseEnvRec e) name strict) as (st' & Hrun & Hheap & Hers & _).
  assert (Hcell : exists cell,
             heap st' !! length (heap st) = Some cell /\ type cell = TReference
             /\ referencedName cell = name /\ strictReference cell = strict
             /\ baseValue cell = Some (BaseEnvRec e)).
  { eexists. split; [rewrite Hheap; apply list_lookup_middle; reflexivity |].
    repeat split. }
  destruct Hcell as (cell & Hcell & Hty & Hname & Hstrict & Hbase).
  unfold getIdentifierReference.
  rewrite (getIdentifierReference_from_find st lex name strict Hchain), Hfind.
  exists (length (heap st)), st'. split; [exact Hrun |].
  assert (Hchain_e : declarative st e = true).
  { apply find_some in Hfind as [Hin _].
    rewrite forallb_forall in Hchain. apply Hchain, Hin. }
  unfold declarative in Hchain_e.
  destruct (envRecs st !! e) as [rec |] eqn:Hrec; [| discriminate].
  unfold getValue.
  read_with (typeOf_Some _ _ _ Hcell). rewrite Hty. cbn -[lookup insert].
  read_with (Hcell : (fun s => heap s !! length (heap st)) st' = Some cell).
  unfold isUnresolvableReference, isPropertyReference, hasPrimitiveBase.
  unfold bind, read, ret. rewrite Hcell. cbn -[lookup insert]. rewrite Hbase.
  cbn -[lookup insert]. rewrite Hcell. cbn -[lookup insert]. rewrite Hbase.
  cbn -[lookup insert]. rewrite Hers, Hrec.
  destruct (_bindingObject rec); [discriminate |].
  unfold DeclarativeEnvironmentRecord_getBindingValue, bind, read, ret, bindingOf in *.
  rewrite Hers, Hrec, Hname, Hstrict in *. cbn -[lookup insert] in *. injection Hb as Hb.
  rewrite Hb, Hreadable. reflexivity.
Qed.

Lemma getValue_of_identifier_witness :
  exists r st',
    getIdentifierReference (Some nestedScope) "x" true nestedScopes = Normal r st'
    /\ getValue noCall noPrimitiveGet noStrictFunctions r st' = Normal 1%nat st'.
Proof.
  exact (getValue_of_identifier noCall noPrimitiveGet noStrictFunctions nestedScopes
           nestedScope "x" true 1%nat (mkBinding 1%nat ∅ false true None)
           eq_refl eq_refl eq_refl eq_refl).
Defined.

(** ** Arrays and read-only properties *)

Lemma getSkippedSection_local (st : State) :
  isLocalSkippedMode st = Some true -> exists section, getSkippedSection st = Some section.
Proof.
  unfold isLocalSkippedMode, getSkippedSection, getCurrentContext, getContextStack.
  destruct (last (contextStack st)) as [c |] eqn:Hlast; [| discriminate]. cbn.
  apply last_Some in Hlast as [l' ->]. rewrite rev_app_distr. cbn.
  destruct (skippedModeStackOf (contexts st) (envRecs st) c) as [stk |]; [| discriminate].
  cbn. intros H. injection H as H. rewrite H. eexists. reflexivity.
Qed.

Lemma _isSkippedLocal_own_context (st : State) (o : Ref) (x : BaseType) (c : CtxRef)
    (ctx : ExecutionContext) :
  heap st !! o = Some x ->
  _closure x = ContextClosure c ->
  getCurrentContext st = Some c ->
  contexts st !! c = Some ctx ->
  _isSkippedLocal o st = Some true.
Proof.
  intros Ho Hcl Hc Hctx. unfold _isSkippedLocal, getContextStack, getCurrentContext in *.
  rewrite Ho. cbn. rewrite Hcl. cbn. rewrite Hctx. cbn.
  apply last_Some in Hc as [l' ->]. rewrite rev_app_distr. cbn. rewrite Hctx. cbn.
  rewrite Nat.eqb_refl. reflexivity.
Qed.

(** [_addProperty] of a property the object does not have, while the
    current context is in skipped mode: the new entry holds the descriptor
    as an alternate value of the current section. *)
Lemma _addProperty_new_skipped (st : State) (o : Ref) (p : string) (desc : Descriptor)
    (c : BaseType) (ps : list Property) (section : option nat) :
  heap st !! o = Some c ->
  _properties c = Some ps ->
  lookupEntry p ps = None ->
  isLocalSkippedMode st = Some true ->
  getSkippedSection st = Some section ->
  _addProperty o p desc st
  = Normal tt
      (set_heap (<[o := set_properties
                          (ps ++ [mkProperty p emptyDescriptor {[ section := desc ]}]) c]>
                   (heap st ++ [undefinedCell (currentClosure st)])) st).
Proof.
  intros Ho Hps Hp Hlocal Hsection.
  pose proof (lookup_lt_Some _ _ _ Ho) as Hlt.
  unfold _addProperty, setProperties, UndefinedType, alloc.
  unfold bind, read, ret, modify, propertiesOf. rewrite Ho. cbn -[lookup insert]. rewrite Hps, Hp.
  cbn -[lookup insert]. rewrite (lookup_app_l_Some _ _ _ _ Ho).
  change (isLocalSkippedMode (set_heap ?h (set_heap ?h' st))) with (isLocalSkippedMode st).
  rewrite Hlocal. cbn -[lookup insert getSkippedSection].
  change (getSkippedSection (set_heap ?h (set_heap ?h' st))) with (getSkippedSection st).
  rewrite Hsection. cbn -[lookup insert].
  repeat (rewrite list_lookup_insert_eq by (rewrite length_app; cbn; lia);
          cbn -[lookup insert]).
  rewrite updateEntry_app_new by (assumption || reflexivity).
  rewrite list_insert_insert_eq. reflexivity.
Qed.



(** X23: a property added with [addReadOnlyProperty] keeps its value: no
    event is fired for the definition, [get] returns the value, and a
    [put] with [throwFlag] false changes nothing. *)
Theorem addReadOnlyProperty_keeps_value `{NativeExceptions} cf s2n (st : State) (o v w : Ref) (p : string)
    (ocell vcell : BaseType) (ps : list Property) (lex : option LexicalEnvironment)
    (suppressEvent : bool) :
  heap st !! o = Some ocell ->
  isArrayType ocell = false ->
  type_eqb (type ocell) TUnknown = false ->
  _properties ocell = Some ps ->
  lookupEntry p ps = None ->
  extensible ocell = true ->
  heap st !! v = Some vcell ->
  type_eqb (type vcell) TUnknown = false ->
  _closure vcell = _closure ocell ->
  closureLexicalEnvironment (contexts st) (_closure ocell) = Some lex ->
  _isLocal v st = Some true ->
  isAmbiguousBlock st = Some false ->
  isSkippedMode st = Some false ->
  exists st' st'',
    addReadOnlyProperty cf s2n o p v st = Normal tt st'
    /\ events st' = events st
    /\ ObjectType_put cf s2n o p w false suppressEvent st' = Normal tt st'
    /\ ObjectType_get cf o p st' = Normal v st''.
Proof.
  intros Ho Harr Hto Hps Hp Hext Hv Htv Hcl Hlex Hloc Hamb Hskipped.
  destruct (ObjectType_defineOwnProperty_fresh st o v p ocell vcell ps lex None None None false
              true Ho Hto Hps Hp Hext Hv Htv Hcl Hlex Hloc Hamb Hskipped)
    as (st' & Hrun & Ho' & Hev).
  set (e := mkProperty p (dataDescriptor v false false false) ∅).
  assert (He : lookupEntry p (ps ++ [e]) = Some e)
    by (apply lookupEntry_app_new; [exact Hp | reflexivity]).
  exists st'. eexists. split; [| split; [| split]].
  - unfold addReadOnlyProperty, defineOwnProperty_.
    read_with (Ho : (fun s => heap s !! o) st = Some ocell). rewrite Harr.
    step_with Hrun. reflexivity.
  - rewrite Hev, app_nil_r. reflexivity.
  - unfold ObjectType_put.
    step_with (ObjectType_canPut_read_only st' o p _ (ps ++ [e]) e Ho' Hto eq_refl He
                 eq_refl eq_refl).
    reflexivity.
  - apply (ObjectType_get_data cf st' o p _ (ps ++ [e]) e v Ho' Hto eq_refl He); reflexivity.
Qed.

Lemma addReadOnlyProperty_keeps_value_witness :
  exists st' st'',
    addReadOnlyProperty noCall noStrings 0%nat "x" 1%nat plainObject = Normal tt st'
    /\ events st' = events plainObject
    /\ ObjectType_put noCall noStrings 0%nat "x" 0%nat false false st' = Normal tt st'
    /\ ObjectType_get noCall 0%nat "x" st' = Normal 1%nat st''.
Proof.
  exact (addReadOnlyProperty_keeps_value noCall noStrings plainObject 0%nat 1%nat 0%nat "x"
           (objectCell (ContextClosure 0) true [])
           (numberCell (ContextClosure 0) (Number.of_N 7)) []
           (Some (mkLexicalEnvironment 0 0 None)) false
           eq_refl eq_refl eq_refl eq_refl eq_refl eq_refl eq_refl eq_refl eq_refl eq_refl
           eq_refl eq_refl eq_refl).
Defined.

(** X24: [areAnyUnknown(values)] is true exactly when one of the values is
    Unknown. *)
Theorem areAnyUnknown_iff (st : State) (values : list Ref) (b : bool) :
  areAnyUnknown values st = Some b ->
  b = true <-> exists v, v ∈ values /\ typeOf v st = Some TUnknown.
Proof.
  revert b. induction values as [| v rest IH]; cbn; intros b H.
  - injection H as <-. split; [discriminate | intros (v & Hin & _); inversion Hin].
  - destruct (typeOf v st) as [ty |] eqn:Hty; [| discriminate]. cbn in H.
    destruct (type_eqb ty TUnknown) eqn:Hu.
    + injection H as <-. split; [| reflexivity]. intros _. exists v.
      split; [apply elem_of_cons; left; reflexivity |].
      destruct ty; try discriminate Hu. exact Hty.
    + rewrite (IH b H). split.
      * intros (x & Hin & Hx). exists x. split; [apply elem_of_cons; right; exact Hin | exact Hx].
      * intros (x & Hin & Hx). apply elem_of_cons in Hin as [-> | Hin].
        -- rewrite Hty in Hx. injection Hx as ->. discriminate Hu.
        -- exists x. split; assumption.
Qed.

Lemma areAnyUnknown_iff_witness :
  true = true <-> exists v, v ∈ [2%nat; 1%nat; 0%nat] /\ typeOf v frozenObject = Some TUnknown.
Proof. exact (areAnyUnknown_iff frozenObject [2%nat; 1%nat; 0%nat] true eq_refl). Defined.

(** ** Nesting of blocks *)

Lemma setAmbiguousBlock_same (ctx : ExecutionContext) :
  setAmbiguousBlock (_ambiguousBlock ctx) ctx = ctx.
Proof. destruct ctx; reflexivity. Qed.

Lemma set_contexts_same (st : State) : set_contexts (contexts st) st = st.
Proof. destruct st; reflexivity. Qed.

(** X25: blocks nest.  [enterAmbiguousBlock()] followed by
    [exitAmbiguousBlock()], and [enterTryCatch()] followed by
    [exitTryCatch()], give back the state they started from; in between,
    [isAmbiguousBlock()], respectively [inTryCatch()], is true unless the
    counter was [-1]. *)
Theorem blocks_nest (st : State) (c : CtxRef) (ctx : ExecutionContext) :
  getCurrentContext st = Some c ->
  contexts st !! c = Some ctx ->
  (exists st1,
      enterAmbiguousBlock st = Normal tt st1
      /\ isAmbiguousBlock st1 = Some (negb (_ambiguousBlock ctx =? -1))
      /\ exitAmbiguousBlock st1 = Normal tt st)
  /\ (exists st1,
         enterTryCatch st = Normal tt st1
         /\ inTryCatch st1 = negb (tryCatch st =? -1)
         /\ exitTryCatch st1 = Normal tt st).
Proof.
  intros Hc Hctx. pose proof (lookup_lt_Some _ _ _ Hctx) as Hlt. split.
  - eexists. split; [| split].
    + unfold enterAmbiguousBlock. read_with Hc.
      read_with (Hctx : (fun s => contexts s !! c) st = Some ctx). reflexivity.
    + unfold isAmbiguousBlock, currentContext.
      change (getCurrentContext (set_contexts ?cs st)) with (getCurrentContext st).
      rewrite Hc. cbn -[lookup insert]. rewrite list_lookup_insert_eq by exact Hlt. cbn.
      do 2 f_equal. destruct (Z.eqb_spec (_ambiguousBlock ctx + 1) 0),
        (Z.eqb_spec (_ambiguousBlock ctx) (-1)); (reflexivity || lia).
    + unfold exitAmbiguousBlock, bind, read, modify.
      change (getCurrentContext (set_contexts ?cs st)) with (getCurrentContext st).
      rewrite Hc. cbn -[lookup insert]. rewrite list_lookup_insert_eq by exact Hlt.
      cbn -[lookup insert]. f_equal. rewrite list_insert_insert_eq.
      unfold setAmbiguousBlock at 1. cbn.
      replace (_ambiguousBlock ctx + 1 - 1) with (_ambiguousBlock ctx) by lia.
      fold (setAmbiguousBlock (_ambiguousBlock ctx) ctx).
      rewrite setAmbiguousBlock_same, list_insert_id by exact Hctx.
      transitivity (set_contexts (contexts st) st); [reflexivity | apply set_contexts_same].
  - eexists. split; [reflexivity | split].
    + unfold inTryCatch. cbn. f_equal.
      destruct (Z.eqb_spec (tryCatch st + 1) 0), (Z.eqb_spec (tryCatch st) (-1));
        (reflexivity || lia).
    + unfold exitTryCatch, modify. cbn. f_equal.
      replace (tryCatch st + 1 - 1) with (tryCatch st) by lia.
      destruct st; reflexivity.
Qed.

Lemma blocks_nest_witness :
  (exists st1,
      enterAmbiguousBlock insideTry = Normal tt st1
      /\ isAmbiguousBlock st1 = Some true
      /\ exitAmbiguousBlock st1 = Normal tt insideTry)
  /\ (exists st1,
         enterTryCatch insideTry = Normal tt st1
         /\ inTryCatch st1 = true
         /\ exitTryCatch st1 = Normal tt insideTry).
Proof. exact (blocks_nest insideTry 0%nat (contextOver 0 0 0) eq_refl eq_refl). Defined.

(** ** The length of an array, whatever the base operation answers *)

Lemma ArrayType_defineOwnProperty_sets_length `{NativeExceptions} cf s2n (st st1 : State) (a lref : Ref)
    (acell lcell : BaseType) (ps : list Property) (e : Property) (L : number) (i : N)
    (desc : Descriptor) (throwFlag suppressEvent local skl b : bool) :
  heap st !! a = Some acell ->
  type_eqb (type acell) TUnknown = false ->
  _properties acell = Some ps ->
  lookupEntry "length" ps = Some e ->
  isDataDescriptor (Some (p_value e)) = true ->
  d_value (p_value e) = Some lref ->
  heap st !! lref = Some lcell ->
  type lcell = TNumber ->
  value lcell = RNum L ->
  Number.isNaN L = false ->
  (i < 2 ^ 53)%N ->
  isSkippedMode st = Some false ->
  isLocalSkippedMode st = Some local ->
  _isSkippedLocal a st = Some skl ->
  ObjectType_defineOwnProperty a (String_of_N i) desc throwFlag suppressEvent st
  = Normal b st1 ->
  let L' := if Number.ge (Number.of_N i) L then Number.of_N (i + 1) else L in
  exists st' r st'',
    ArrayType_defineOwnProperty cf s2n a (String_of_N i) desc throwFlag suppressEvent st
    = Normal tt st'
    /\ ObjectType_get cf a "length" st' = Normal r st''
    /\ typeOf r st'' = Some TNumber
    /\ valueOf r st'' = Some (RNum L')
    /\ Number.gt L' (Number.of_N i) = true.
Proof.
  intros Ha Hty Hps He Hdata Hlref Hl Hlt Hlv Hnan Hi Hskipped Hlocal Hskl Hbase L'.
  pose proof (isLocalSkippedMode_of_isSkippedMode st local Hskipped Hlocal) as ->.
  pose proof (_isSkippedLocal_of_isSkippedMode st a skl Hskipped Hskl) as ->.
  pose proof (preserves_defineOwnProperty _ _ _ _ _ _ _ _ Hbase) as Hframe.
  pose proof (isLocalSkippedMode_preserved _ _ _ _ Hframe) as Hlocal1.
  rewrite Hlocal in Hlocal1.
  destruct (preserved_cells _ _ _ _ Hframe a acell Ha) as (acell1 & Ha1 & Hty1 & _ & Hthis).
  destruct (Hthis eq_refl) as [_ Hprops]. destruct (Hprops ps Hps) as (ps1 & Hps1 & Hq).
  pose proof (Hq "length"%string (String_of_N_not_length i)) as He1. rewrite He in He1.
  rewrite <- Hty1 in Hty.
  destruct (preserved_cells _ _ _ _ Hframe lref lcell Hl) as (lcell1 & Hl1 & Hlt1 & Hlv1 & _).
  rewrite Hlt in Hlt1. rewrite Hlv in Hlv1.
  pose proof (ObjectType_get_data cf st1 a "length" acell1 ps1 e lref Ha1 Hty Hps1 He1 Hdata Hlref)
    as Hget.
  set (st2 := set_events _ st1) in Hget.
  assert (Hframe2 : preserved a (String_of_N i) st st2)
    by (eapply preserved_trans; [exact Hframe | apply preserved_events]).
  unfold ArrayType_defineOwnProperty.
  step_with Hbase. rewrite positiveIntegerRegEx_test_String_of_N, parseInt10_String_of_N by exact Hi.
  step_with Hget.
  assert (Hlen : valueOf lref st2 = Some (RNum L))
    by (unfold valueOf; cbn; rewrite Hl1; cbn; rewrite Hlv1; reflexivity).
  read_with Hlen. subst L'.
  destruct (Number.ge (Number.of_N i) L) eqn:Hge.
  - (* the length is updated *)
    match goal with
    | |- context [NumberType (RNum ?x)] =>
        change x with (Number.add (Number.of_N i) Number.one)
    end.
    rewrite add_one by exact Hi. unfold NumberType, alloc. unfold bind at 1.
    set (n := length (heap st2)).
    set (st3 := set_heap _ st2).
    assert (Hframe3 : preserved a (String_of_N i) st st3)
      by (eapply preserved_trans; [exact Hframe2 | apply preserved_alloc]).
    assert (Ha3 : heap st3 !! a = Some acell1) by (apply lookup_app_l_Some, Ha1).
    rewrite (_addProperty_existing st3 a "length" _ acell1 ps1 e Ha3 Hps1 He1
               (eq_trans (isLocalSkippedMode_preserved _ _ _ _ Hframe3) Hlocal)
               (_isSkippedLocal_preserved _ _ _ _ Hframe3 _ Hskl)).
    set (acell4 := set_properties _ acell1).
    set (st4 := set_heap _ st3).
    assert (Hlt_a : (a < n)%nat) by (apply lookup_lt_Some in Ha1; exact Ha1).
    assert (Ha4 : heap st4 !! a = Some acell4).
    { apply list_lookup_insert_eq. apply lookup_lt_Some in Ha3. exact Ha3. }
    eexists st4, n, _. split; [reflexivity |]. split.
    + eapply (ObjectType_get_data cf st4 a "length" acell4); [exact Ha4 | exact Hty | reflexivity | | |].
      * apply lookupEntry_updateEntry_same; [reflexivity | exact He1].
      * reflexivity.
      * reflexivity.
    + assert (Hn : heap st4 !! n = Some (mkBaseType false false "Number" TNumber
                                           (currentClosure st2) (RNum (Number.of_N (i + 1)))
                                           None false None false (Some "Number"%string) None
                                           EmptyString false)).
      { unfold n in Hlt_a |- *. cbn -[lookup insert] in Hlt_a |- *.
        rewrite list_lookup_insert_ne by lia.
        apply list_lookup_middle. reflexivity. }
      unfold typeOf, valueOf. cbn -[lookup insert]. cbn -[lookup insert] in Hn. rewrite Hn.
      split; [reflexivity | split; [reflexivity | apply gt_succ]].
  - (* the length stays *)
    eexists st2, lref, _. split; [reflexivity |]. split.
    + apply (ObjectType_get_data cf st2 a "length" acell1 ps1 e lref);
        [exact Ha1 | exact Hty | exact Hps1 | exact He1 | exact Hdata | exact Hlref].
    + unfold typeOf, valueOf. cbn -[lookup insert]. rewrite Hl1. cbn. rewrite Hlt1, Hlv1.
      split; [reflexivity | split; [reflexivity |]].
      apply gt_of_not_ge; [reflexivity | exact Hnan | exact Hge].
Qed.

Lemma ge_refl (x : number) : Number.isNaN x = false -> Number.ge x x = true.
Proof.
  unfold Number.ge, Number.compare. destruct x as [| s | s m e]; [discriminate | |]; intros _.
  - destruct s; reflexivity.
  - rewrite Z.compare_refl. reflexivity.
Qed.

Lemma ge_succ (i : N) (x : number) :
  Number.ge (Number.of_N i) x = true -> Number.ge (Number.of_N (i + 1)) x = true.
Proof.
  unfold Number.ge, Number.compare, Number.of_N.
  destruct x as [| s | s m e]; [discriminate | destruct s; trivial |].
  set (e0 := Z.min 0 e). unfold scaled at 1 3.
  assert (Hpow : 0 < 2 ^ (0 - e0)) by (apply Z.pow_pos_nonneg; lia).
  destruct (Z.compare_spec (1 * (Z.of_N i * 2 ^ (0 - e0))) (scaled e0 s m e)); try discriminate;
    intros _;
    destruct (Z.compare_spec (1 * (Z.of_N (i + 1) * 2 ^ (0 - e0))) (scaled e0 s m e));
    try reflexivity; nia.
Qed.

(** X26: outside skipped mode, on an array whose length is a Number [L]
    other than NaN, [defineOwnProperty(String(i), ...)] never shortens the
    array: whether the base operation accepts the property or rejects it,
    the operation returns and [get('length')] is then a Number that is
    greater than [i] and not below [L]. *)
Theorem ArrayType_defineOwnProperty_grows `{NativeExceptions} cf s2n (st st1 : State) (a lref : Ref)
    (acell lcell : BaseType) (ps : list Property) (e : Property) (L : number) (i : N)
    (desc : Descriptor) (throwFlag suppressEvent local skl b : bool) :
  heap st !! a = Some acell ->
  type_eqb (type acell) TUnknown = false ->
  _properties acell = Some ps ->
  lookupEntry "length" ps = Some e ->
  isDataDescriptor (Some (p_value e)) = true ->
  d_value (p_value e) = Some lref ->
  heap st !! lref = Some lcell ->
  type lcell = TNumber ->
  value lcell = RNum L ->
  Number.isNaN L = false ->
  (i < 2 ^ 53)%N ->
  isSkippedMode st = Some false ->
  isLocalSkippedMode st = Some local ->
  _isSkippedLocal a st = Some skl ->
  ObjectType_defineOwnProperty a (String_of_N i) desc throwFlag suppressEvent st
  = Normal b st1 ->
  exists st' r st'' L',
    ArrayType_defineOwnProperty cf s2n a (String_of_N i) desc throwFlag suppressEvent st
    = Normal tt st'
    /\ ObjectType_get cf a "length" st' = Normal r st''
    /\ typeOf r st'' = Some TNumber
    /\ valueOf r st'' = Some (RNum L')
    /\ Number.gt L' (Number.of_N i) = true
    /\ Number.ge L' L = true.
Proof.
  intros Ha Hty Hps He Hdata Hlref Hl Hlt Hlv Hnan Hi Hskipped Hlocal Hskl Hbase.
  destruct (ArrayType_defineOwnProperty_sets_length cf s2n st st1 a lref acell lcell ps e L i
              desc throwFlag suppressEvent local skl b Ha Hty Hps He Hdata Hlref Hl Hlt Hlv
              Hnan Hi Hskipped Hlocal Hskl Hbase)
    as (st' & r & st'' & Hrun & Hget & Htr & Hvr & Hgt).
  exists st', r, st''. eexists. repeat (split; [eassumption |]).
  destruct (Number.ge (Number.of_N i) L) eqn:Hge.
  - apply ge_succ, Hge.
  - apply ge_refl, Hnan.
Qed.

Lemma ArrayType_defineOwnProperty_grows_witness :
  exists st' r st'' L',
    ArrayType_defineOwnProperty noCall noStrings 0%nat (String_of_N 0)
      (dataDescriptor 2%nat true true true) false false (emptyArray false [])
    = Normal tt st'
    /\ ObjectType_get noCall 0%nat "length" st' = Normal r st''
    /\ typeOf r st'' = Some TNumber
    /\ valueOf r st'' = Some (RNum L')
    /\ Number.gt L' (Number.of_N 0) = true
    /\ Number.ge L' Number.zero = true.
Proof.
  refine (ArrayType_defineOwnProperty_grows noCall noStrings (emptyArray false []) _
            0%nat 1%nat
            (arrayCell (ContextClosure 0) false
               [mkProperty "length" (dataDescriptor 1%nat true false false) ∅])
            (numberCell (ContextClosure 0) Number.zero)
            _ _ Number.zero 0%N (dataDescriptor 2%nat true true true) false false false true
            false
            eq_refl eq_refl eq_refl eq_refl eq_refl eq_refl eq_refl eq_refl eq_refl eq_refl
            eq_refl eq_refl eq_refl eq_refl _).
  vm_compute. reflexivity.
Defined.

(** ** Object environment records *)

(** X27: a name that the binding object of an object environment record and
    its prototype chain lack, outside skipped mode.  [hasBinding] is false;
    a [getBindingValue] that is not strict returns a new Undefined value and
    reports nothing; a strict one handles a ReferenceError: with native
    exception recovery (and not in exact mode) the error is reported and the
    result is a new Unknown value, otherwise [throwNativeException] is
    called with it, in the state as it is, and the call ends the
    operation. *)
Theorem ObjectEnvironmentRecord_missing_name `{NativeExceptions} cf (st : State) (e : EnvRef)
    (r : EnvironmentRecord) (o : Ref) (n : string) :
  envRecs st !! e = Some r ->
  _bindingObject r = Some o ->
  lacksProperty (S (length (heap st))) o n st = true ->
  isSkippedMode st = Some false ->
  let message := ("Property " +:+ n +:+ " does not exist")%string in
  ObjectEnvironmentRecord_hasBinding e n st = Normal false st
  /\ (exists st',
        ObjectEnvironmentRecord_getBindingValue cf e n false st
        = Normal (length (heap st)) st'
        /\ typeOf (length (heap st)) st' = Some TUndefined
        /\ events st' = events st)
  /\ if nativeExceptionRecovery (options st) && negb (exactMode (options st)) then
       exists st',
         ObjectEnvironmentRecord_getBindingValue cf e n true st
         = Normal (length (heap st)) st'
         /\ typeOf (length (heap st)) st' = Some TUnknown
         /\ events st' = events st ++ [errorReported "ReferenceError" message]
     else
       ObjectEnvironmentRecord_getBindingValue cf e n true st
       = thrown (throwNativeException "ReferenceError" message st).
Proof.
  intros He Ho Hlacks Hskipped message.
  assert (Hobj : (fun s => r ← envRecs s !! e; _bindingObject r) st = Some o)
    by (cbn beta; rewrite He; exact Ho).
  assert (Hhas : ObjectType_hasProperty o n st = Normal false st).
  { unfold ObjectType_hasProperty.
    step_with (ObjectType_getProperty_absent _ o n st st Hlacks (le_n _)
                 (conj eq_refl eq_refl)).
    reflexivity. }
  split; [| split].
  - unfold ObjectEnvironmentRecord_hasBinding. read_with Hobj. exact Hhas.
  - eexists. split; [| split].
    + unfold ObjectEnvironmentRecord_getBindingValue. read_with Hobj. step_with Hhas.
      reflexivity.
    + unfold typeOf. cbn -[lookup insert]. rewrite list_lookup_middle by reflexivity.
      reflexivity.
    + reflexivity.
  - unfold ObjectEnvironmentRecord_getBindingValue, handleRecoverableNativeException,
      reportError, fireEvent, UnknownType, alloc.
    destruct (nativeExceptionRecovery (options st)) eqn:Hrec,
      (exactMode (options st)) eqn:Hexact; cbn [andb negb].
    2: { eexists. split; [| split].
         - read_with Hobj. step_with Hhas. cbn -[lookup insert].
           unfold bind, read, modify, ret. rewrite Hskipped. cbn -[lookup insert].
           rewrite Hrec, Hexact. cbn -[lookup insert]. rewrite Hexact. reflexivity.
         - unfold typeOf. cbn -[lookup insert]. rewrite list_lookup_middle by reflexivity.
           reflexivity.
         - reflexivity. }
    all: read_with Hobj; step_with Hhas; cbn -[lookup insert];
      unfold bind, read, modify, ret, throw, thrown; rewrite Hskipped; cbn -[lookup insert];
      rewrite Hrec, Hexact; cbn -[lookup insert]; subst message;
      destruct (throwNativeException _ _ _) as [[] | |]; reflexivity.
Qed.

Lemma ObjectEnvironmentRecord_missing_name_witness :
  ObjectEnvironmentRecord_hasBinding 0%nat "x" withScope = Normal false withScope
  /\ (exists st',
        ObjectEnvironmentRecord_getBindingValue noCall 0%nat "x" false withScope
        = Normal (length (heap withScope)) st'
        /\ typeOf (length (heap withScope)) st' = Some TUndefined
        /\ events st' = events withScope)
  /\ exists st',
       ObjectEnvironmentRecord_getBindingValue noCall 0%nat "x" true withScope
       = Normal (length (heap withScope)) st'
       /\ typeOf (length (heap withScope)) st' = Some TUnknown
       /\ events st'
          = events withScope
            ++ [errorReported "ReferenceError" ("Property " +:+ "x" +:+ " does not exist")].
Proof.
  exact (ObjectEnvironmentRecord_missing_name noCall withScope 0%nat
           (mkEnvironmentRecord ∅ (Some 0%nat) false []) 0%nat "x"
           eq_refl eq_refl eq_refl eq_refl).
Defined.

(** ** throwNativeException *)

Lemma StringType_new (st : State) (c : CtxRef) (ctx : ExecutionContext) (local : bool)
    (message : string) :
  getCurrentContext st = Some c ->
  contexts st !! c = Some ctx ->
  isLocalSkippedMode st = Some local ->
  exists st' cell,
    StringType message st = Normal (length (heap st)) st'
    /\ heap st' !! length (heap st) = Some cell
    /\ type cell = TString
    /\ value cell = RStr message
    /\ (forall r x, heap st !! r = Some x -> heap st' !! r = Some x)
    /\ events st' = events st.
Proof.
  intros Hc Hctx Hlocal.
  set (s := length (heap st)).
  set (scell0 := mkBaseType false false "String" TString (currentClosure st) RUndefined (Some [])
                   true None false (Some "String"%string) None EmptyString false).
  set (scell := set_value (RStr message) scell0).
  set (ncell := numberCell (currentClosure st)
                  (Number.of_N (N.of_nat (String.length message)))).
  set (st2 := set_heap ((heap st ++ [scell]) ++ [ncell]) st).
  set (n := S s).
  set (desc := mkDescriptor (Some n) None None None None None).
  assert (Hcl : currentClosure st = ContextClosure c)
    by (unfold currentClosure; rewrite Hc; reflexivity).
  assert (Hs2 : heap st2 !! s = Some scell).
  { subst st2. cbn -[lookup]. rewrite <- app_assoc. apply list_lookup_middle. reflexivity. }
  assert (Hstart : forall st', _addProperty s "length" desc st2 = Normal tt st' ->
                               StringType message st = Normal s st').
  { intros st' Hadd. unfold StringType, alloc, setValue, NumberType, alloc.
    unfold bind, read, modify, ret. cbn -[lookup insert].
    rewrite list_lookup_middle by reflexivity. cbn -[lookup insert].
    rewrite insert_app_r_alt by reflexivity. rewrite Nat.sub_diag. cbn -[lookup insert].
    fold scell0. change (set_value (RStr message) scell0) with scell.
    rewrite length_app. cbn [length]. rewrite Nat.add_comm.
    transitivity (bind (_addProperty s "length" desc) (fun _ => ret s) st2);
      [reflexivity | unfold bind; rewrite Hadd; reflexivity]. }
  assert (Hlocal2 : isLocalSkippedMode st2 = Some local) by exact Hlocal.
  assert (Hsection2 : getSkippedSection st2 = getSkippedSection st) by reflexivity.
  assert (Hskl : _isSkippedLocal s st2 = Some true)
    by (apply (_isSkippedLocal_own_context st2 s scell c ctx Hs2 Hcl Hc Hctx)).
  assert (Hprops : _properties scell = Some []) by reflexivity.
  assert (Hts : type scell = TString /\ value scell = RStr message) by (split; reflexivity).
  assert (Hold : forall r x, heap st !! r = Some x -> heap st2 !! r = Some x).
  { intros r x Hr. subst st2. cbn -[lookup]. rewrite <- app_assoc.
    apply lookup_app_l_Some, Hr. }
  assert (Hev : events st2 = events st) by reflexivity.
  assert (Hlen : length (heap st2) = S (S s))
    by (subst st2 s; cbn; rewrite !length_app; cbn; lia).
  assert (Hs : s = length (heap st)) by reflexivity.
  clearbody st2 desc scell s.
  assert (Hresult : exists entry st',
             StringType message st = Normal s st'
             /\ heap st' = <[s := set_properties [entry] scell]>
                              (heap st2 ++ [undefinedCell (currentClosure st2)])
             /\ events st' = events st2).
  { destruct local.
    - destruct (getSkippedSection_local st Hlocal) as [section Hsec].
      rewrite <- Hsection2 in Hsec.
      eexists _, _.
      split; [apply Hstart;
              apply (_addProperty_new_skipped st2 s "length" desc scell [] section Hs2 Hprops
                       eq_refl Hlocal2 Hsec) |].
      split; reflexivity.
    - eexists _, _.
      split; [apply Hstart;
              apply (_addProperty_new st2 s "length" desc scell [] Hs2 Hprops eq_refl
                       Hlocal2 Hskl) |].
      split; reflexivity. }
  destruct Hresult as (entry & st' & Hrun & Hheap & Hev').
  pose proof (lookup_lt_Some _ _ _ Hs2) as Hlt.
  exists st', (set_properties [entry] scell).
  split; [exact Hrun |].
  split; [rewrite Hheap; apply list_lookup_insert_eq; rewrite length_app; lia |].
  split; [apply Hts | split; [apply Hts |]].
  split; [| congruence].
  intros r x Hr. rewrite Hheap.
  assert (Hne : r <> s) by (apply lookup_lt_Some in Hr; lia).
  rewrite list_lookup_insert_ne by congruence.
  apply lookup_app_l_Some, Hold, Hr.
Qed.

Lemma ObjectType_hasProperty_own (st : State) (o : Ref) (p : string) (cell : BaseType)
    (ps : list Property) (entry : Property) :
  heap st !! o = Some cell ->
  type_eqb (type cell) TUnknown = false ->
  _properties cell = Some ps ->
  lookupEntry p ps = Some entry ->
  ObjectType_hasProperty o p st = Normal true st.
Proof.
  intros Ho Hty Hps He.
  unfold ObjectType_hasProperty, ObjectType_getProperty.
  unfold bind at 1. cbn [ObjectType_getProperty_loop].
  unfold ObjectType_getOwnProperty. run.
Qed.

Lemma new_reference_state (st : State) (b : Base) (name : string) (strictRef : bool) :
  (newRef <- ReferenceType None EmptyString false ;;
   setReference newRef b name strictRef ;; ret newRef) st
  = Normal (length (heap st))
      (set_heap (heap st ++ [mkBaseType false false "Reference" TReference (currentClosure st)
                               RUndefined None false None false None (Some b) name strictRef])
         st).
Proof.
  unfold ReferenceType, alloc, setReference. unfold bind, read, modify, ret.
  cbn -[lookup insert]. rewrite list_lookup_middle by reflexivity.
  cbn -[lookup insert]. rewrite insert_app_r_alt by reflexivity. rewrite Nat.sub_diag.
  reflexivity.
Qed.

(** X28: [throwNativeException(exceptionType, message)] where the variable
    environment of the global context is an object environment record whose
    binding object has a data property [exceptionType] of its own: the
    [construct] method of the value [exc] held there is called with a new
    String that holds the message, the only event fired before being the
    [propertyReferenced] of the lookup.  When it returns an object, that
    object is stored in [Runtime._exception] and the flow-control error is
    thrown; an exception of the constructor is passed on. *)
Theorem throwNativeException_constructs cf gpb sf construct (fuel : nat) (st : State)
    (exceptionType message : string) (c current : CtxRef) (ctx cctx : ExecutionContext)
    (r : EnvironmentRecord) (g exc : Ref) (gcell : BaseType) (ps : list Property)
    (entry : Property) (local : bool) :
  getGlobalContext st = Some c ->
  contexts st !! c = Some ctx ->
  envRecs st !! envRec (variableEnvironment ctx) = Some r ->
  _bindingObject r = Some g ->
  heap st !! g = Some gcell ->
  type_eqb (type gcell) TUnknown = false ->
  _properties gcell = Some ps ->
  lookupEntry exceptionType ps = Some entry ->
  isDataDescriptor (Some (p_value entry)) = true ->
  d_value (p_value entry) = Some exc ->
  getCurrentContext st = Some current ->
  contexts st !! current = Some cctx ->
  isLocalSkippedMode st = Some local ->
  exists s st',
    heap st !! s = None
    /\ typeOf s st' = Some TString
    /\ valueOf s st' = Some (RStr message)
    /\ (forall o x, heap st !! o = Some x -> heap st' !! o = Some x)
    /\ events st'
       = events st ++ [propertyReferenced g exceptionType
                         (Some (copyDescriptor (p_value entry)))]
    /\ throwNativeException_at cf gpb sf construct (S fuel) exceptionType message st
       = raises (construct exc [s] st').
Proof.
  intros Hglobal Hctx Hr Hobj Hg Hty Hps He Hdata Hexc Hcurrent Hcctx Hlocal.
  set (e := envRec (variableEnvironment ctx)) in *.
  set (refcell := mkBaseType false false "Reference" TReference (currentClosure st)
                    RUndefined None false None false None (Some (BaseEnvRec e)) exceptionType
                    false).
  set (st1 := set_heap (heap st ++ [refcell]) st).
  set (ref := length (heap st)).
  assert (Href : heap st1 !! ref = Some refcell) by (apply list_lookup_middle; reflexivity).
  assert (Hg1 : heap st1 !! g = Some gcell) by (apply lookup_app_l_Some, Hg).
  assert (Hlookup : getIdentifierReference (Some (variableEnvironment ctx)) exceptionType false st
                    = Normal ref st1).
  { unfold getIdentifierReference. destruct (variableEnvironment ctx) as [id e' out] eqn:Hvar.
    assert (Hhas : EnvironmentRecord_hasBinding e' exceptionType st = Normal true st).
    { unfold EnvironmentRecord_hasBinding.
      read_with (Hr : (fun s => envRecs s !! e') st = Some r). rewrite Hobj.
      unfold ObjectEnvironmentRecord_hasBinding.
      assert (Hread : (fun s => r0 ← envRecs s !! e'; _bindingObject r0) st = Some g)
        by (cbn beta; change e' with e; rewrite Hr; exact Hobj).
      read_with Hread.
      apply (ObjectType_hasProperty_own st g exceptionType gcell ps entry Hg Hty Hps He). }
    cbn [getIdentifierReference_from]. step_with Hhas.
    apply new_reference_state. }
  set (desc := copyDescriptor (p_value entry)).
  set (st2 := set_events (events st1 ++ [propertyReferenced g exceptionType (Some desc)]) st1).
  assert (Hvalue : getValue (nativeExceptions := throwNativeException_at cf gpb sf construct fuel)
                     cf gpb sf ref st1 = Normal exc st2).
  { unfold getValue, isUnresolvableReference, isPropertyReference, hasPrimitiveBase.
    read_with (typeOf_Some _ _ _ Href). cbn -[lookup insert].
    read_with (Href : (fun s => heap s !! ref) st1 = Some refcell).
    unfold bind at 1, read at 1. rewrite Href. cbn -[lookup insert].
    unfold bind at 1, read at 1. rewrite Href. cbn -[lookup insert].
    read_with (Hr : (fun s => envRecs s !! e) st1 = Some r). rewrite Hobj.
    unfold ObjectEnvironmentRecord_getBindingValue.
    assert (Hread : (fun s => r0 ← envRecs s !! e; _bindingObject r0) st1 = Some g)
      by (cbn beta; change (envRecs st1) with (envRecs st); rewrite Hr; exact Hobj).
    read_with Hread.
    step_with (ObjectType_hasProperty_own st1 g exceptionType gcell ps entry Hg1 Hty Hps He).
    apply (ObjectType_get_data cf st1 g exceptionType gcell ps entry exc Hg1 Hty Hps He Hdata
             Hexc). }
  destruct (StringType_new st2 current cctx local message Hcurrent Hcctx Hlocal)
    as (st3 & scell & Hstring & Hs3 & Hts & Hvs & Hold & Hev).
  exists (length (heap st2)), st3.
  split; [apply lookup_ge_None; unfold st2, st1; cbn; rewrite length_app; lia |].
  split; [unfold typeOf; rewrite Hs3; cbn; rewrite Hts; reflexivity |].
  split; [unfold valueOf; rewrite Hs3; cbn; rewrite Hvs; reflexivity |].
  split; [intros o x Ho; apply Hold; apply lookup_app_l_Some, Ho |].
  split; [rewrite Hev; reflexivity |].
  cbn [throwNativeException_at].
  read_with Hglobal. read_with (Hctx : (fun s => contexts s !! c) st = Some ctx).
  step_with Hlookup. step_with Hvalue. step_with Hstring.
  unfold bind at 1. unfold raises, throwException.
  destruct (construct exc _ st3) as [[err |] st4 | err st4 |]; reflexivity.
Qed.

Lemma throwNativeException_constructs_witness :
  exists s st',
    heap globalScope !! s = None
    /\ typeOf s st' = Some TString
    /\ valueOf s st' = Some (RStr "m")
    /\ (forall o x, heap globalScope !! o = Some x -> heap st' !! o = Some x)
    /\ events st'
       = events globalScope
         ++ [propertyReferenced 0%nat "TypeError"
               (Some (copyDescriptor (dataDescriptor 1%nat true false true)))]
    /\ throwNativeException_at noCall noPrimitiveGet noStrictFunctions constantConstruct 1
         "TypeError" "m" globalScope
       = raises (constantConstruct 1%nat [s] st').
Proof.
  exact (throwNativeException_constructs noCall noPrimitiveGet noStrictFunctions
           constantConstruct 0 globalScope "TypeError" "m" 0%nat 0%nat (contextOver 0 0 0)
           (contextOver 0 0 0) (mkEnvironmentRecord ∅ (Some 0%nat) false []) 0%nat 1%nat
           (objectCell (ObjectClosure 0) true
              [mkProperty "TypeError" (dataDescriptor 1%nat true false true) ∅])
           [mkProperty "TypeError" (dataDescriptor 1%nat true false true) ∅]
           (mkProperty "TypeError" (dataDescriptor 1%nat true false true) ∅) false
           eq_refl eq_refl eq_refl eq_refl eq_refl eq_refl eq_refl eq_refl eq_refl eq_refl
           eq_refl eq_refl eq_refl).
Defined.

(** ** Entering and leaving a context *)

(** X29: [enterContext(context)] makes [context] the current context, on
    top of the stack, and counts it if it is a function context;
    [exitContext()] then returns it and gives back the state from before. *)
Theorem enterContext_exitContext (st : State) (c : CtxRef) (ctx : ExecutionContext) :
  contexts st !! c = Some ctx ->
  exists st1,
    enterContext c st = Normal tt st1
    /\ getCurrentContext st1 = Some c
    /\ getContextStack st1 = getContextStack st ++ [c]
    /\ functionContextCount st1
       = functionContextCount st + (if isFunctionContext ctx then 1 else 0)
    /\ exitContext st1 = Normal c st.
Proof.
  intros Hctx. unfold enterContext, exitContext, getCurrentContext, getContextStack.
  unfold bind, read, modify, ret. cbn -[lookup]. rewrite Hctx.
  destruct (isFunctionContext ctx) eqn:Hfun; cbn -[lookup];
    (eexists; split; [reflexivity |]); cbn -[lookup]; rewrite !last_snoc;
    (split; [reflexivity | split; [reflexivity | split; [lia |]]]);
    cbn -[lookup]; rewrite Hctx, Hfun, removelast_last;
    destruct st; unfold set_functionContextCount, set_contextStack; cbn; repeat f_equal; lia.
Qed.

Lemma enterContext_exitContext_witness :
  exists st1,
    enterContext 1%nat beforeCall = Normal tt st1
    /\ getCurrentContext st1 = Some 1%nat
    /\ getContextStack st1 = getContextStack beforeCall ++ [1%nat]
    /\ functionContextCount st1 = functionContextCount beforeCall + (if false then 1 else 0)
    /\ exitContext st1 = Normal 1%nat beforeCall.
Proof.
  exact (enterContext_exitContext beforeCall 1%nat (contextOver 1 1 0) eq_refl).
Defined.

(** ** The trace of a native exception *)

Lemma appends_ret {A} (a : A) : appends (ret a).
Proof. intros st. exists []. symmetry. apply app_nil_r. Qed.

Lemma appends_read {A} (f : State -> option A) : appends (read f).
Proof. intros st. unfold read. destruct (f st); exists []; symmetry; apply app_nil_r. Qed.

Lemma appends_throw {A} (e : HostError) : appends (throw e : M A).
Proof. intros st. exists []. symmetry. apply app_nil_r. Qed.

Lemma appends_modify (f : State -> State) :
  (forall st, events (f st) = events st) -> appends (modify f).
Proof. intros Hf st. exists []. cbn. rewrite Hf. symmetry. apply app_nil_r. Qed.

Lemma appends_fireEvent (e : Event) : appends (fireEvent e).
Proof. intros st. exists [e]. reflexivity. Qed.

Lemma appends_alloc (mk : Closure -> BaseType) : appends (alloc mk).
Proof. intros st. exists []. symmetry. apply app_nil_r. Qed.

Lemma appends_unfinished {A} : appends (fun _ => Unfinished : Completion A).
Proof. intros st. exact I. Qed.

Lemma appends_bind {A B} (c : M A) (k : A -> M B) :
  appends c -> (forall a, appends (k a)) -> appends (bind c k).
Proof.
  intros Hc Hk st. unfold bind. specialize (Hc st).
  destruct (c st) as [a st1 | e st1 |]; [| exact Hc | exact I].
  destruct Hc as [l1 H1]. specialize (Hk a st1).
  destruct (k a st1) as [b st2 | e st2 |]; [| | exact I];
    destruct Hk as [l2 H2]; exists (l1 ++ l2); rewrite H2, H1; symmetry; apply app_assoc.
Qed.

Create HintDb trace.

(** Goals of the form [appends c], by the structure of [c]. *)
Ltac trace_step :=
  first
    [ apply appends_ret
    | apply appends_read
    | apply appends_throw
    | apply appends_fireEvent
    | apply appends_alloc
    | apply appends_unfinished
    | apply appends_modify; intros ?; reflexivity
    | solve [auto 1 with trace nocore]
    | apply appends_bind; [| intros ?]
    | match goal with
      | |- appends (if ?b then _ else _) => destruct b
      | |- appends (match ?x with _ => _ end) => destruct x
      end ].

Ltac trace := repeat trace_step.

Lemma appends_UndefinedType : appends UndefinedType.
Proof. apply appends_alloc. Qed.

Lemma appends_UnknownType : appends UnknownType.
Proof. unfold UnknownType. trace. Qed.

Lemma appends_NumberType (v : Raw) : appends (NumberType v).
Proof. apply appends_alloc. Qed.

Lemma appends_ReferenceType b name strictRef : appends (ReferenceType b name strictRef).
Proof. apply appends_alloc. Qed.

#[local] Hint Resolve appends_UndefinedType appends_UnknownType appends_NumberType
  appends_ReferenceType : trace.

Lemma appends_setReference r b name strictRef : appends (setReference r b name strictRef).
Proof. unfold setReference. trace. Qed.

Lemma appends_setValue r v : appends (setValue r v).
Proof. unfold setValue. trace. Qed.

Lemma appends_setProperties this ps : appends (setProperties this ps).
Proof. unfold setProperties. trace. Qed.

#[local] Hint Resolve appends_setReference appends_setValue appends_setProperties : trace.

Lemma appends__addProperty this p desc : appends (_addProperty this p desc).
Proof. unfold _addProperty. trace. Qed.

#[local] Hint Resolve appends__addProperty : trace.

Lemma appends_StringType (s : string) : appends (StringType s).
Proof. unfold StringType. trace. Qed.

Lemma appends_throwException {A} (e : option Ref) : appends (throwException e : M A).
Proof. unfold throwException. trace. Qed.

Lemma appends_getOwnProperty this p : appends (ObjectType_getOwnProperty this p).
Proof. unfold ObjectType_getOwnProperty. trace. Qed.

#[local] Hint Resolve appends_StringType appends_throwException appends_getOwnProperty : trace.

Lemma appends_getProperty_loop fuel : forall this p,
  appends (ObjectType_getProperty_loop fuel this p).
Proof.
  induction fuel as [| fuel IH]; intros this p; cbn [ObjectType_getProperty_loop]; trace.
Qed.

Lemma appends_getProperty this p : appends (ObjectType_getProperty this p).
Proof. intros st. unfold ObjectType_getProperty. apply appends_getProperty_loop. Qed.

#[local] Hint Resolve appends_getProperty : trace.

Lemma appends_hasProperty this p : appends (ObjectType_hasProperty this p).
Proof. unfold ObjectType_hasProperty. trace. Qed.

#[local] Hint Resolve appends_hasProperty : trace.

Lemma appends_hasBinding e name : appends (EnvironmentRecord_hasBinding e name).
Proof. unfold EnvironmentRecord_hasBinding, ObjectEnvironmentRecord_hasBinding. trace. Qed.

#[local] Hint Resolve appends_hasBinding : trace.

Lemma appends_getIdentifierReference_from lex name strict :
  appends (getIdentifierReference_from lex name strict).
Proof.
  revert lex. fix IH 1. intros [id e out].
  cbn [getIdentifierReference_from].
  apply appends_bind; [clear IH; trace |].
  intros [|]; [clear IH; trace |].
  destruct out as [o |]; [apply IH | clear IH; trace].
Qed.

#[local] Hint Resolve appends_getIdentifierReference_from : trace.

Lemma appends_getIdentifierReference lex name strict :
  appends (getIdentifierReference lex name strict).
Proof. unfold getIdentifierReference. trace. Qed.

Section Trace.

Context `{NativeExceptions}.
Hypothesis throwNativeException_appends :
  forall exceptionType message, appends (throwNativeException exceptionType message).

Variable callFunction : Ref -> option Ref -> list Ref -> M (option Ref).
Hypothesis callFunction_appends : forall f this args, appends (callFunction f this args).

Variable getPrimitiveBase : Ref -> string -> M Ref.
Hypothesis getPrimitiveBase_appends : forall b p, appends (getPrimitiveBase b p).

Variable strictFunction : Ref -> State -> option bool.

Lemma appends_handleRecoverableNativeException exceptionType message :
  appends (handleRecoverableNativeException exceptionType message).
Proof. unfold handleRecoverableNativeException, reportError. trace. Qed.

#[local] Hint Resolve appends_handleRecoverableNativeException : trace.

Lemma appends_get this p : appends (ObjectType_get callFunction this p).
Proof. unfold ObjectType_get. trace. Qed.

#[local] Hint Resolve appends_get : trace.

Lemma appends_FunctionTypeBase_get this p :
  appends (FunctionTypeBase_get callFunction strictFunction this p).
Proof. unfold FunctionTypeBase_get. trace. Qed.

Lemma appends_declarative_getBindingValue e n s :
  appends (DeclarativeEnvironmentRecord_getBindingValue e n s).
Proof. unfold DeclarativeEnvironmentRecord_getBindingValue. trace. Qed.

Lemma appends_object_getBindingValue e n s :
  appends (ObjectEnvironmentRecord_getBindingValue callFunction e n s).
Proof. unfold ObjectEnvironmentRecord_getBindingValue. trace. Qed.

#[local] Hint Resolve appends_FunctionTypeBase_get appends_declarative_getBindingValue
  appends_object_getBindingValue : trace.

Lemma appends_getValue v :
  appends (getValue callFunction getPrimitiveBase strictFunction v).
Proof. unfold getValue. trace. Qed.

End Trace.

Lemma appends_throwNativeException_at cf gpb sf construct :
  (forall f this args, appends (cf f this args)) ->
  (forall b p, appends (gpb b p)) ->
  (forall f args, appends (construct f args)) ->
  forall fuel exceptionType message,
    appends (throwNativeException_at cf gpb sf construct fuel exceptionType message).
Proof.
  intros Hcf Hgpb Hconstruct.
  induction fuel as [| fuel IH]; intros exceptionType message;
    cbn [throwNativeException_at]; [apply appends_unfinished |].
  pose proof (appends_getValue (H := throwNativeException_at cf gpb sf construct fuel)
                IH cf Hcf gpb Hgpb sf) as Hvalue.
  pose proof appends_getIdentifierReference as Href.
  trace.
Qed.

(** [delete(p, true)] of a property that is not configurable: what it does
    is fire the event and call [throwNativeException]. *)
Lemma ObjectType_delete_rejected `{NativeExceptions} (st : State) (o : Ref) (cell : BaseType)
    (ps : list Property) (p : string) (e : Property) :
  heap st !! o = Some cell ->
  type cell = TObject ->
  _properties cell = Some ps ->
  lookupEntry p ps = Some e ->
  truthy (d_configurable (p_value e)) = false ->
  ObjectType_delete o p true st
  = thrown (throwNativeException "TypeError" ("Unable to delete " +:+ quoted p)
              (set_events (events st ++ [propertyDeleted o p]) st)).
Proof.
  intros Hcell Hty Hps He Hc.
  assert (Hc' : truthy (d_configurable (copyDescriptor (p_value e))) = false).
  { rewrite <- Hc. unfold copyDescriptor. destruct (isDataDescriptor _); reflexivity. }
  unfold ObjectType_delete, ObjectType_getOwnProperty, _lookupProperty, propertiesOf, typeOf,
    fireEvent.
  exec.
  unfold thrown. destruct (throwNativeException _ _ _) as [[] | |]; reflexivity.
Qed.

(** X30: [throwNativeException] fires events and leaves the ones fired
    before it in the trace, as long as the functions it calls do, so the
    [propertyDeleted] event of a [delete(p, true)] that fails is not lost:
    the deletion of a property that is not configurable does not return, and
    ends with the trace it found, [propertyDeleted], then the events of the
    throw. *)
Theorem throwNativeException_keeps_trace cf gpb sf construct (fuel : nat) :
  (forall f this args, appends (cf f this args)) ->
  (forall b p, appends (gpb b p)) ->
  (forall f args, appends (construct f args)) ->
  (forall exceptionType message,
     appends (throwNativeException_at cf gpb sf construct fuel exceptionType message))
  /\ forall (st : State) (o : Ref) (cell : BaseType) (ps : list Property) (p : string)
       (e : Property),
       heap st !! o = Some cell ->
       type cell = TObject ->
       _properties cell = Some ps ->
       lookupEntry p ps = Some e ->
       truthy (d_configurable (p_value e)) = false ->
       match ObjectType_delete (nativeExceptions := throwNativeException_at cf gpb sf construct fuel)
               o p true st with
       | Normal _ _ => False
       | Abrupt _ st' => exists fired, events st' = events st ++ propertyDeleted o p :: fired
       | Unfinished => True
       end.
Proof.
  intros Hcf Hgpb Hconstruct.
  pose proof (appends_throwNativeException_at cf gpb sf construct Hcf Hgpb Hconstruct fuel)
    as Happends.
  split; [exact Happends |].
  intros st o cell ps p e Hcell Hty Hps He Hc.
  rewrite (ObjectType_delete_rejected st o cell ps p e Hcell Hty Hps He Hc).
  specialize (Happends "TypeError" ("Unable to delete " +:+ quoted p)
                (set_events (events st ++ [propertyDeleted o p]) st)).
  unfold thrown, throwNativeException.
  destruct (throwNativeException_at _ _ _ _ _ _ _ _) as [[] | err st' |]; [| exact I].
  destruct Happends as [fired Hfired]. exists fired.
  rewrite Hfired. cbn. rewrite <- app_assoc. reflexivity.
Qed.

Lemma throwNativeException_keeps_trace_witness :
  match ObjectType_delete 0%nat "x" true readOnlyProperty with
  | Normal _ _ => False
  | Abrupt _ st' =>
      exists fired, events st' = events readOnlyProperty ++ propertyDeleted 0%nat "x" :: fired
  | Unfinished => True
  end.
Proof.
  refine (proj2 (throwNativeException_keeps_trace noCall noPrimitiveGet noStrictFunctions
                   noConstruct 2 _ _ _)
            readOnlyProperty 0%nat _ _ "x" _ eq_refl eq_refl eq_refl eq_refl eq_refl);
    intros; apply appends_throw.
Defined.
